(** * Documentation pipeline: retry policy, diff matching, markdown sections,
      section patch merging, bounded fan-out and repository download.

    Shallow embedding of the Python sources under [domain/langgraph].
    Python [str] values are lists of characters; a character is a code point
    below 256, so that [str.strip], [str.lower] and the regular-expression
    class [\s] are the ones Python applies to such text. *)

From Stdlib Require Import List Ascii String ZArith Floats Lia Bool Arith PeanoNat.
From Stdlib Require Import Permutation DecimalString DecimalNat Sorted.
Import ListNotations.

Set Implicit Arguments.

(* ================================================================== *)
(** ** Python string primitives                                        *)
(* ================================================================== *)

Module PyStr.

Definition str := list ascii.

(** A string literal of the source; as in Python, the two characters
    backslash-n stand for a line feed and a doubled backslash for one. *)
Fixpoint unescape (s : str) : str :=
  match s with
  | "\"%char :: "n"%char :: t => "010"%char :: unescape t
  | "\"%char :: "\"%char :: t => "\"%char :: unescape t
  | c :: t => c :: unescape t
  | [] => []
  end.

Definition py (x : string) : str := unescape (list_ascii_of_string x).

Definition chr_eqb (a b : ascii) : bool := Ascii.eqb a b.

(** [c.isspace()] for a code point below 256: TAB..CR, FS..US, SPACE,
    NEL and NBSP.  The regular-expression class [\s] is the same set. *)
Definition is_space (c : ascii) : bool :=
  let n := nat_of_ascii c in
  ((9 <=? n) && (n <=? 13)) || ((28 <=? n) && (n <=? 32))
  || (n =? 133) || (n =? 160).

Fixpoint drop_while (p : ascii -> bool) (s : str) : str :=
  match s with
  | [] => []
  | c :: t => if p c then drop_while p t else s
  end.

Fixpoint take_while (p : ascii -> bool) (s : str) : str :=
  match s with
  | [] => []
  | c :: t => if p c then c :: take_while p t else []
  end.

(** [s.lstrip()], [s.rstrip()], [s.strip()]. *)
Definition lstrip (s : str) : str := drop_while is_space s.
Definition rstrip (s : str) : str := rev (drop_while is_space (rev s)).
Definition strip (s : str) : str := lstrip (rstrip s).

(** [s.strip(ch)] for a one-character argument. *)
Definition strip_chr (ch : ascii) (s : str) : str :=
  drop_while (chr_eqb ch) (rev (drop_while (chr_eqb ch) (rev s))).

(** [s.startswith(p)] and [s.endswith(p)]. *)
Fixpoint startswith (p s : str) : bool :=
  match p, s with
  | [], _ => true
  | _ :: _, [] => false
  | a :: p', b :: s' => chr_eqb a b && startswith p' s'
  end.

Definition endswith (p s : str) : bool := startswith (rev p) (rev s).

(** [needle in hay]. *)
Fixpoint contains (needle hay : str) : bool :=
  startswith needle hay
  || match hay with
     | [] => false
     | _ :: t => contains needle t
     end.

Fixpoint str_eqb (a b : str) : bool :=
  match a, b with
  | [], [] => true
  | x :: a', y :: b' => chr_eqb x y && str_eqb a' b'
  | _, _ => false
  end.

(** [s.replace(old, new)]: occurrences are found left to right and do not
    overlap; [skip] counts the characters of the occurrence being dropped.
    An empty [old] puts [new] before every character and at the end. *)
Fixpoint replace_from (old new : str) (skip : nat) (s : str) : str :=
  match s with
  | [] => match old with [] => new | _ :: _ => [] end
  | c :: t =>
      match skip with
      | S k => replace_from old new k t
      | O =>
          match old with
          | [] => new ++ c :: replace_from old new 0 t
          | _ :: _ =>
              if startswith old s
              then new ++ replace_from old new (List.length old - 1) t
              else c :: replace_from old new 0 t
          end
      end
  end.

Definition replace (old new s : str) : str := replace_from old new 0 s.

(** [s.split(sep)] for a non-empty separator (Python raises on an empty
    one; the sources only split on literals). *)
Fixpoint split_from (sep : str) (skip : nat) (s : str) : list str :=
  match s with
  | [] => [[]]
  | c :: t =>
      match skip with
      | S k => split_from sep k t
      | O =>
          if startswith sep s
          then [] :: split_from sep (List.length sep - 1) t
          else match split_from sep 0 t with
               | [] => [[c]]
               | h :: r => (c :: h) :: r
               end
      end
  end.

Definition split (sep s : str) : list str := split_from sep 0 s.

(** [sep.join(parts)]. *)
Fixpoint join (sep : str) (parts : list str) : str :=
  match parts with
  | [] => []
  | [p] => p
  | p :: rest => p ++ sep ++ join sep rest
  end.

(** [s[:n] if len(s) > n else s]. *)
Definition truncate (n : nat) (s : str) : str :=
  if n <? List.length s then firstn n s else s.

(** [c.lower()] on code points below 256: A..Z and the accented capitals
    0xC0..0xDE other than the multiplication sign. *)
Definition lower_chr (c : ascii) : ascii :=
  let n := nat_of_ascii c in
  if ((65 <=? n) && (n <=? 90))
     || ((192 <=? n) && (n <=? 222) && negb (n =? 215))
  then ascii_of_nat (n + 32) else c.

Definition lower (s : str) : str := map lower_chr s.

(** Number of lines, [len(s.split('\n'))]. *)
Definition line_count (s : str) : nat := List.length (split (py "\n") s).

End PyStr.
Import PyStr.

Definition NL : ascii := "010"%char.


(* ================================================================== *)
(** ** Regular-expression scanning                                     *)
(* ================================================================== *)

(** [re.finditer], [re.findall] and [re.sub] walk the subject from left
    to right; at each position the pattern either matches, and the walk
    resumes after the match, or the character is passed over.  A matcher
    is given the character before the position (for [^]) and the rest of
    the subject, and answers with what it captured and how many
    characters it matched.  Every pattern of the sources starts with a
    literal, so no match is empty. *)
Module Regex.

Section Scan.
Variable A : Type.
Variable matcher : option ascii -> str -> option (A * nat).

Inductive token : Type :=
| Lit (c : ascii)
| Hit (a : A).

Fixpoint scan (skip : nat) (prev : option ascii) (s : str) : list token :=
  match s with
  | [] => []
  | c :: t =>
      match skip with
      | S k => scan k (Some c) t
      | O =>
          match matcher prev s with
          | Some (a, n) => Hit a :: scan (n - 1) (Some c) t
          | None => Lit c :: scan 0 (Some c) t
          end
      end
  end.

(** [pattern.findall(s)]. *)
Fixpoint hits (ts : list token) : list A :=
  match ts with
  | [] => []
  | Lit _ :: r => hits r
  | Hit a :: r => a :: hits r
  end.

Definition findall (s : str) : list A := hits (scan 0 None s).

(** [re.sub(pattern, repl, s)] for a replacement without group
    references. *)
Fixpoint subst (repl : str) (ts : list token) : str :=
  match ts with
  | [] => []
  | Lit c :: r => c :: subst repl r
  | Hit _ :: r => repl ++ subst repl r
  end.

Definition sub (repl s : str) : str := subst repl (scan 0 None s).

(** The text that follows a match, up to the next match or the end:
    [content[m.end() : next.start()]]. *)
Fixpoint gap (ts : list token) : str :=
  match ts with
  | Lit c :: r => c :: gap r
  | _ => []
  end.

(** [[(m.group(..), content[m.end():next_start]) for m in finditer]]. *)
Fixpoint spans (ts : list token) : list (A * str) :=
  match ts with
  | [] => []
  | Lit _ :: r => spans r
  | Hit a :: r => (a, gap r) :: spans r
  end.

Definition finditer_spans (s : str) : list (A * str) := spans (scan 0 None s).
End Scan.

(** First occurrence of [ch]: the text before it and the text after it. *)
Fixpoint break_at (ch : ascii) (s : str) : option (str * str) :=
  match s with
  | [] => None
  | c :: t =>
      if chr_eqb c ch then Some ([], t)
      else match break_at ch t with
           | Some (a, b) => Some (c :: a, b)
           | None => None
           end
  end.

(** [([^\[]*?)(?=\[|$)]: the shortest run of characters other than an
    opening bracket that ends before a bracket or at [$], which without
    MULTILINE is the end of the subject or the line feed that ends it. *)
Fixpoint lazy_text (s : str) : str :=
  match s with
  | [] => []
  | c :: t =>
      if chr_eqb c "["%char then []
      else match t with
           | [] => if chr_eqb c "010"%char then [] else [c]
           | _ :: _ => c :: lazy_text t
           end
  end.

(** [\s*\n*([^\[]*?)(?=\[|$)], the tail of both block patterns: the
    greedy [\s*] takes the whole run of white space, [\n*] is left with
    nothing, and the tail cannot fail, so nothing is given back.  Answers
    with the captured text and the number of characters matched. *)
Definition block_tail (s : str) : str * nat :=
  let ws := take_while is_space s in
  let body := lazy_text (drop_while is_space s) in
  (body, List.length ws + List.length body).

(** [\[UPDATE:\s*([^\]]+)\]\s*\n*([^\[]*?)(?=\[|$)] with DOTALL.  The
    first group runs to the first closing bracket; it is what is left of
    that text after its leading white space, or its last character when
    it is all white space (the greedy [\s*] gives one back). *)
Definition match_update (_ : option ascii) (s : str) : option ((str * str) * nat) :=
  if startswith (py "[UPDATE:") s then
    match break_at "]"%char (skipn 8 s) with
    | None => None
    | Some (inner, after) =>
        match inner with
        | [] => None
        | _ :: _ =>
            let g1 := match drop_while is_space inner with
                      | [] => [last inner "000"%char]
                      | x => x
                      end in
            let '(g2, n) := block_tail after in
            Some ((g1, g2), 8 + List.length inner + 1 + n)
        end
    end
  else None.

(** [\[ADD\]\s*\n*([^\[]*?)(?=\[|$)] with DOTALL. *)
Definition match_add (_ : option ascii) (s : str) : option (str * nat) :=
  if startswith (py "[ADD]") s then
    let '(g, n) := block_tail (skipn 5 s) in
    Some (g, 5 + n)
  else None.

(** [\[UPDATE:[^\]]*\]]. *)
Definition match_update_tag (_ : option ascii) (s : str) : option (unit * nat) :=
  if startswith (py "[UPDATE:") s then
    match break_at "]"%char (skipn 8 s) with
    | None => None
    | Some (inner, _) => Some (tt, 8 + List.length inner + 1)
    end
  else None.

End Regex.

(* ================================================================== *)
(** ** Section patch merger ([document_generator_node.py])            *)
(* ================================================================== *)

Definition NO_CHANGE : str := py "[NO_CHANGE]".

(** [_merge_changelog(old_content, new_entry)]. *)
Definition _merge_changelog (old_content new_entry : str) : str :=
  match new_entry with
  | [] => old_content
  | _ :: _ =>
      if contains NO_CHANGE new_entry then old_content
      else match strip old_content with
           | [] => new_entry
           | _ :: _ => rstrip old_content ++ py "\n" ++ new_entry
           end
  end.

(** [lines[i] = new_text] for the first [i] whose element satisfies [p];
    [None] when the loop ends with [found] still false. *)
Fixpoint replace_first (p : str -> bool) (new_text : str) (units : list str)
  : option (list str) :=
  match units with
  | [] => None
  | u :: rest =>
      if p u then Some (new_text :: rest)
      else match replace_first p new_text rest with
           | Some rest' => Some (u :: rest')
           | None => None
           end
  end.

(** One turn of the loop over the [UPDATE] blocks. *)
Definition apply_update (result : str) (m : str * str) : str :=
  let snippet := strip (fst m) in
  let new_text := strip (snd m) in
  match new_text with
  | [] => result
  | _ :: _ =>
      let snippet_key := truncate 30 snippet in
      let hit := fun unit_ : str => contains snippet_key unit_ || contains snippet unit_ in
      match replace_first hit new_text (split (py "\n") result) with
      | Some lines => join (py "\n") lines
      | None =>
          match replace_first hit new_text (split (py "\n\n") result) with
          | Some paragraphs => join (py "\n\n") paragraphs
          | None => rstrip result ++ py "\n\n" ++ new_text
          end
      end
  end.

(** One turn of the loop over the [ADD] blocks. *)
Definition apply_add (result : str) (add_content : str) : str :=
  match strip add_content with
  | [] => result
  | new_text => rstrip result ++ py "\n\n" ++ new_text
  end.

(** [_merge_section_changes(old_content, changes)]. *)
Definition _merge_section_changes (old_content changes : str) : str :=
  match changes with
  | [] => old_content
  | _ :: _ =>
      if contains NO_CHANGE changes then old_content
      else match strip old_content with
           | [] =>
               let cleaned :=
                 strip (replace (py "[UPDATE:") [] (replace (py "[ADD]") [] changes)) in
               strip (Regex.sub Regex.match_update_tag [] cleaned)
           | _ :: _ =>
               let result := fold_left apply_update
                               (Regex.findall Regex.match_update changes) old_content in
               let result := fold_left apply_add
                               (Regex.findall Regex.match_add changes) result in
               strip result
           end
  end.

(** The end of [_update_section_llm]: the generated text is stripped and
    handed to the merger that the section key selects. *)
Definition merge_generated (section_key old_text content : str) : str :=
  let generated := strip content in
  if str_eqb section_key (py "changelog")
  then _merge_changelog old_text generated
  else _merge_section_changes old_text generated.

(** A changelog section after a run of generated entries. *)
Definition changelog_after (old_content : str) (entries : list str) : str :=
  fold_left _merge_changelog entries old_content.


(* ================================================================== *)
(** ** Diff matcher ([change_analyzer_node.py])                        *)
(* ================================================================== *)

(** A Python [dict] with string keys: the entries in insertion order,
    no key twice. *)
Definition dict (V : Type) := list (str * V).

Fixpoint dict_get {V : Type} (k : str) (d : dict V) : option V :=
  match d with
  | [] => None
  | (k', v) :: rest => if str_eqb k' k then Some v else dict_get k rest
  end.

Definition dict_mem {V : Type} (k : str) (d : dict V) : bool :=
  match dict_get k d with Some _ => true | None => false end.

(** [d[k] = v]: an existing key keeps its place. *)
Fixpoint dict_set {V : Type} (k : str) (v : V) (d : dict V) : dict V :=
  match d with
  | [] => [(k, v)]
  | (k', v') :: rest =>
      if str_eqb k' k then (k', v) :: rest else (k', v') :: dict_set k v rest
  end.

Definition keys {V : Type} (d : dict V) : list str := map fst d.

(** The test of the suffix loop:
    [key.endswith(norm_name) or norm_name.endswith(key)]. *)
Definition suffix_hit (norm_name : str) (entry : str * str) : bool :=
  endswith norm_name (fst entry) || endswith (fst entry) norm_name.

(** [_find_diff_for_file(filename, diff_map)]. *)
Definition _find_diff_for_file (filename : str) (diff_map : dict str) : str :=
  match dict_get filename diff_map with
  | Some block => block
  | None =>
      match dict_get (py "a/" ++ filename) diff_map with
      | Some block => block
      | None =>
          let norm_name := replace (py "\\") (py "/") (strip filename) in
          match find (suffix_hit norm_name) diff_map with
          | Some (_, content) => content
          | None => []
          end
      end
  end.

(** [_detect_change_type(file_diff)]. *)
Definition _detect_change_type (file_diff : str) : str :=
  match file_diff with
  | [] => py "modified"
  | _ :: _ =>
      if contains (py "+++ /dev/null") file_diff then py "deleted"
      else if contains (py "--- /dev/null") file_diff then py "added"
      else py "modified"
  end.

Definition any_in (words : list str) (text : str) : bool :=
  existsb (fun w => contains w text) words.

(** [_get_file_priority(filepath)]. *)
Definition _get_file_priority (filepath : str) : str :=
  let lower := lower filepath in
  if any_in [py "router"; py "endpoint"; py "controller"; py "api"] lower then py "high"
  else if any_in [py "schema"; py "model"; py "entity"] lower then py "high"
  else if any_in [py "service"; py "handler"; py "manager"] lower then py "high"
  else if any_in [py "auth"; py "security"; py "permission"] lower then py "high"
  else if any_in [py "database"; py "migration"; py "config"] lower then py "high"
  else if any_in [py "util"; py "helper"; py "middleware"] lower then py "medium"
  else if any_in [py "test"; py "spec"] lower then py "medium"
  else py "low".

(* ================================================================== *)
(** ** Bounded worker pools                                            *)
(* ================================================================== *)

(** [as_completed(futures)] hands out every submitted future once, in
    the order in which the workers finish.  That order is the
    scheduler's: [completion] lists the submission indices in order of
    completion. *)
Definition as_completed {F : Type} (futures : list F) (completion : list nat) : list F :=
  flat_map (fun i => match nth_error futures i with
                     | Some f => [f]
                     | None => []
                     end) completion.

(** A completion order of [n] submitted futures. *)
Definition completion_order (n : nat) (completion : list nat) : Prop :=
  Permutation completion (seq 0 n).

Module FileSummarizer.
Section Node.
(** The parsed-file records and the summaries are opaque here; the
    summarizer strategy is a function of the file record. *)
Variables (FileInfo Summary : Type).
Variable summarizer : FileInfo -> Summary.
Variable SUMMARY_LIMIT : Z.

(** [FileSummarizerConfig.limit_files(files)]. *)
Definition limit_files (files : list FileInfo) : list FileInfo :=
  if (SUMMARY_LIMIT <? Z.of_nat (List.length files))%Z && (0 <? SUMMARY_LIMIT)%Z
  then firstn (Z.to_nat SUMMARY_LIMIT) files
  else files.

(** The [file_summaries] list that [file_summarizer_node] stores in
    the state, for a non-empty [parsed_files].  [concurrency] is
    FILE_SUMMARIZER_MAX_CONCURRENCY. *)
Definition file_summaries (use_mock : bool) (concurrency : Z)
           (completion : list nat) (parsed_files : list FileInfo) : list Summary :=
  let parsed_files := limit_files parsed_files in
  let max_workers := Z.max 1 concurrency in
  if (1 <? List.length parsed_files) && (1 <? max_workers)%Z && negb use_mock
  then
    (* futures = {ex.submit(_process_file, idx, f): idx ...};
       for fut in as_completed(futures): append(fut.result()) *)
    as_completed (map summarizer parsed_files) completion
  else
    map summarizer parsed_files.
End Node.
End FileSummarizer.

Module ChangeSummaries.

Record summary : Type := {
  file : str;
  change_type : str;
  summary_text : str;
  priority : str
}.

Section Generate.
(** The text the completion client returns for a prompt built from a
    file and its diff (or the fall-back text when the call fails), and
    the fixed texts of the other branches, are left open. *)
Variable llm_summary : str -> str -> str -> str.
Variable no_diff_text low_text : str -> str -> str.

(** The inner function [_summarize(file, priority)]. *)
Definition _summarize (diff_map : dict str) (fp : str * str) : summary :=
  let '(f, p) := fp in
  let file_diff := _find_diff_for_file f diff_map in
  let ct := _detect_change_type file_diff in
  match file_diff with
  | [] => {| file := f; change_type := ct; summary_text := no_diff_text f ct; priority := p |}
  | _ :: _ => {| file := f; change_type := ct;
                 summary_text := llm_summary f file_diff ct; priority := p |}
  end.

(** Step 3: low-priority files are summarised on the spot, the others
    are queued. *)
Fixpoint classify (diff_map : dict str) (changed_files : list str)
  : list summary * list (str * str) :=
  match changed_files with
  | [] => ([], [])
  | f :: rest =>
      let '(done, queued) := classify diff_map rest in
      let p := _get_file_priority f in
      if str_eqb p (py "low")
      then ({| file := f;
               change_type := _detect_change_type (_find_diff_for_file f diff_map);
               summary_text := low_text f (_detect_change_type (_find_diff_for_file f diff_map));
               priority := p |} :: done, queued)
      else (done, (f, p) :: queued)
  end.

(** [order_map = {s["file"]: s for s in summaries}] followed by a
    look-up: the last summary of the list with that file. *)
Definition order_map_get (summaries : list summary) (f : str) : option summary :=
  find (fun s => str_eqb (file s) f) (rev summaries).

(** Steps 3 to 6 of [_generate_file_summaries], the path taken with a
    completion client. *)
Definition _generate_file_summaries (diff_map : dict str) (completion : list nat)
           (changed_files : list str) : list summary :=
  let '(low, high_medium) := classify diff_map changed_files in
  let summaries :=
    low ++ as_completed (map (_summarize diff_map) high_medium) completion in
  flat_map (fun f => match order_map_get summaries f with
                     | Some s => [s]
                     | None => []
                     end) changed_files.
End Generate.

(** What every summary says about its file, whichever branch wrote it:
    the priority of the file name and the change type of its diff. *)
Definition labelled (diff_map : dict str) (s : summary) : Prop :=
  priority s = _get_file_priority (file s)
  /\ change_type s = _detect_change_type (_find_diff_for_file (file s) diff_map).

End ChangeSummaries.

(* ================================================================== *)
(** ** Retry-wrapped completion client ([llm_backoff.py])              *)
(* ================================================================== *)

Module Backoff.

(** The environment variables, already converted by [int] and [float];
    a Python [float] is an IEEE 754 binary64 number. *)
Record env : Type := {
  LLM_MAX_RETRIES : Z;
  LLM_BASE_BACKOFF_SECONDS : float;
  LLM_MAX_BACKOFF_SECONDS : float;
  LLM_RETRYABLE_ERROR_SUBSTRINGS : str
}.

Definition default_env : env :=
  {| LLM_MAX_RETRIES := 3;
     LLM_BASE_BACKOFF_SECONDS := 1;
     LLM_MAX_BACKOFF_SECONDS := 10;
     LLM_RETRYABLE_ERROR_SUBSTRINGS := [] |}.

Definition RETRYABLE_DEFAULT : list str :=
  [py "rate limit"; py "timeout"; py "overloaded"; py "429"].

Definition nonempty (s : str) : bool :=
  match s with [] => false | _ :: _ => true end.

(** [_is_retryable_error(err)], on the text [str(err)]. *)
Definition _is_retryable_error (e : env) (err : str) : bool :=
  let txt := lower err in
  let extra := LLM_RETRYABLE_ERROR_SUBSTRINGS e in
  let tokens := map (fun t => lower (strip t))
                    (filter (fun t => nonempty (strip t)) (split (py ",") extra)) in
  existsb (fun key => contains key txt) (RETRYABLE_DEFAULT ++ tokens).

(** What the wrapped call does when it is made for the [k]-th time:
    raise an exception with the given text, or return a response. *)
Definition backend (R : Type) := nat -> str + R.

(** What [time.sleep] does with a length: [None] when it sleeps, the
    text of the exception when it raises (a negative length, a NaN, a
    length the C time type cannot hold). *)
Definition clock := float -> option str.

(** The world the wrapper acts on: how often the backend was called and
    the delays slept so far, latest first. *)
Record world : Type := { calls : nat; slept : list float }.

(** How the wrapper ends: with the response, with the exception of the
    last call raised again, or with an exception raised inside the
    handler, by [time.sleep] or by the product [base * 2 ** n] (the
    integer is converted to a float, OverflowError when it is too
    large). *)
Inductive outcome (R : Type) : Type :=
| Returned (r : R)
| Raised (err : str)
| SleepRaised (err : str)
| Overflowed.
Arguments Returned {R} r.
Arguments Raised {R} err.
Arguments SleepRaised {R} err.
Arguments Overflowed {R}.

(** [float(2 ** n)] for [0 <= n]: exact up to [2 ** 1023], an
    OverflowError ([None]) from [2 ** 1024] on. *)
Definition float_of_pow2 (n : Z) : option float :=
  if (n <? 1024)%Z then Some (Z.ldexp 1 n) else None.

(** [min(a, b)]: the first argument unless the second is less. *)
Definition py_min (a b : float) : float :=
  if PrimFloat.ltb b a then b else a.

Section Invoke.
Variable R : Type.
Variable e : env.
Variable llm : backend R.
(** [random.uniform(0.8, 1.3)], for the [k]-th delay. *)
Variable jitter : nat -> float.
Variable sleep : clock.

(** The delay after the failure number [attempt], with the jitter
    factor [draw]; [None] when the product raises. *)
Definition backoff (attempt : Z) (draw : float) : option float :=
  match float_of_pow2 (attempt - 1) with
  | None => None
  | Some p =>
      let delay := py_min (LLM_MAX_BACKOFF_SECONDS e)
                          (PrimFloat.mul (LLM_BASE_BACKOFF_SECONDS e) p) in
      Some (PrimFloat.mul delay draw)
  end.

(** The [while True] loop; [fuel] bounds the number of turns. *)
Fixpoint retry_loop (fuel : nat) (attempt : Z) (w : world)
  : option (outcome R * world) :=
  match fuel with
  | O => None
  | S fuel' =>
      let w1 := {| calls := S (calls w); slept := slept w |} in
      match llm (calls w) with
      | inr r => Some (Returned r, w1)
      | inl err =>
          let attempt := (attempt + 1)%Z in
          if (attempt >? LLM_MAX_RETRIES e)%Z || negb (_is_retryable_error e err)
          then Some (Raised err, w1)
          else
            match backoff attempt (jitter (List.length (slept w))) with
            | None => Some (Overflowed, w1)
            | Some d =>
                match sleep d with
                | Some msg => Some (SleepRaised msg, w1)
                | None =>
                    retry_loop fuel' attempt {| calls := calls w1; slept := d :: slept w1 |}
                end
            end
      end
  end.

(** [invoke_with_retry(llm, messages)]: the loop cannot take more
    turns than failures are allowed, plus one. *)
Definition invoke_with_retry : option (outcome R * world) :=
  retry_loop (S (Z.to_nat (LLM_MAX_RETRIES e))) 0%Z {| calls := 0; slept := [] |}.

(** The pause after the failure number [i + 1] goes through: the delay
    is computed and [time.sleep] takes it. *)
Definition pause_ok (i : nat) : bool :=
  match backoff (Z.of_nat (S i)) (jitter i) with
  | Some d => match sleep d with None => true | Some _ => false end
  | None => false
  end.
End Invoke.

End Backoff.

(* ================================================================== *)
(** ** Repository download ([repository_analyzer_node.py])             *)
(* ================================================================== *)

Module Download.

(** What one [client.get(zip_url)] brings: a status and, for the archive
    that comes with a 200, what writing it and unpacking it does to the
    extraction directory, which is made once and shared by all branches:
    the top-level entries the archive leaves there (all of them, or those
    written before the exception) and whether writing or unpacking
    raises.  [iterdir] is the order in which the directory is then
    listed, given what it holds. *)
Record response : Type := {
  status_code : Z;
  unpacked : list str;
  unpack_raises : bool;
  iterdir : list str -> list str
}.

(** A response that is only a status. *)
Definition status_only (st : Z) : response :=
  {| status_code := st; unpacked := []; unpack_raises := false; iterdir := fun d => d |}.

(** The answer for a branch; [None] when the request itself raises. *)
Definition remote := str -> option response.

Inductive verdict : Type :=
| Next          (* continue *)
| Abort         (* break *)
| Done (path : option str).  (* return *)

(** The body of the loop over [branches_to_try], with the entries of
    the extraction directory before and after. *)
Definition attempt (on_disk : list str) (r : option response) : verdict * list str :=
  match r with
  | None => (Next, on_disk)
  | Some resp =>
      let st := status_code resp in
      if (st =? 200)%Z then
        let on_disk := on_disk ++ unpacked resp in
        if unpack_raises resp then (Next, on_disk)
        else match iterdir resp on_disk with
             | d :: _ => (Done (Some d), on_disk)
             | [] => (Done None, on_disk)
             end
      else if (st =? 404)%Z then (Next, on_disk)
      else if existsb (Z.eqb st) [301; 302; 303; 307; 308]%Z then (Next, on_disk)
      else if (st =? 403)%Z then (Abort, on_disk)
      else (Next, on_disk)
  end.

(** The loop: the path returned, with the branches requested in order. *)
Fixpoint try_from (get : remote) (on_disk : list str) (branches : list str)
  : option str * list str :=
  match branches with
  | [] => (None, [])
  | b :: rest =>
      match attempt on_disk (get b) with
      | (Done p, _) => (p, [b])
      | (Abort, _) => (None, [b])
      | (Next, on_disk) =>
          let '(p, tried) := try_from get on_disk rest in (p, b :: tried)
      end
  end.

(** The loop as the function runs it: the extraction directory is new
    and empty. *)
Definition try_branches (get : remote) (branches : list str) : option str * list str :=
  try_from get [] branches.




End Download.

(* ================================================================== *)
(** ** Markdown section model ([document_generator_node.py])           *)
(* ================================================================== *)

Module Markdown.

Definition SECTION_KEY_MAP : list (str * list str) :=
  [ (py "overview", [py "project overview"; py "overview"]);
    (py "architecture", [py "architecture"; py "system design"]);
    (py "modules", [py "key modules"; py "modules"]);
    (py "changelog", [py "changelog"; py "change log"; py "recent changes"]) ].

Record ParsedDocument : Type := {
  sections : dict str;
  order : list str;
  headings : dict str
}.

(** The class [a-z0-9]. *)
Definition is_slug_chr (c : ascii) : bool :=
  let n := nat_of_ascii c in
  ((97 <=? n) && (n <=? 122)) || ((48 <=? n) && (n <=? 57)).

(** [[^a-z0-9]+]. *)
Definition match_non_slug (_ : option ascii) (s : str) : option (unit * nat) :=
  match take_while (fun c => negb (is_slug_chr c)) s with
  | [] => None
  | run => Some (tt, List.length run)
  end.

(** [_normalize_section_key(heading)]. *)
Definition _normalize_section_key (heading : str) : str :=
  let lower := lower heading in
  match find (fun kv => existsb (fun v => contains v lower) (snd kv)) SECTION_KEY_MAP with
  | Some (key, _) => key
  | None => firstn 40 (strip_chr "_"%char (Regex.sub match_non_slug (py "_") lower))
  end.

(** [^##\s+(.+)$] with MULTILINE.  After the two hashes the greedy
    [\s+] takes the whole run of white space, line feeds included, and
    the group takes what is left of that line.  When the white space
    runs to the end of the subject, [\s+] gives back down to the last of
    its characters that is not a line feed, and the group is that one
    character. *)
Fixpoint last_inline (i : nat) (s : str) : option nat :=
  match s with
  | [] => None
  | c :: t =>
      match last_inline (S i) t with
      | Some k => Some k
      | None => if chr_eqb c NL then None else Some i
      end
  end.

Definition not_nl (c : ascii) : bool := negb (chr_eqb c NL).

(** [^] with MULTILINE: the start of the subject or just after a line
    feed. *)
Definition at_bol (prev : option ascii) : bool :=
  match prev with None => true | Some c => chr_eqb c NL end.

Definition match_heading (prev : option ascii) (s : str) : option (str * nat) :=
  if at_bol prev && startswith (py "##") s then
    let r := skipn 2 s in
    let ws := take_while is_space r in
    match ws with
    | [] => None
    | _ :: ws' =>
        match drop_while is_space r with
        | (_ :: _) as rest =>
            let g := take_while not_nl rest in
            Some (g, 2 + List.length ws + List.length g)
        | [] =>
            match last_inline 1 ws' with
            | Some k => Some (firstn 1 (skipn k ws), 2 + k + 1)
            | None => None
            end
        end
    end
  else None.

(** [f"{n}"] for a non-negative integer. *)
Definition str_of_nat (n : nat) : str :=
  list_ascii_of_string (NilEmpty.string_of_uint (Nat.to_uint n)).

(** The loop [while unique_key in sections]; a dictionary of [n] keys
    cannot hold all of [n + 1] different candidates, so [fuel] above
    that is never used up. *)
Fixpoint unique_key_loop (fuel : nat) (key : str) (suffix : nat) (unique_key : str)
         (sections : dict str) : str :=
  match fuel with
  | O => unique_key
  | S fuel' =>
      if dict_mem unique_key sections
      then unique_key_loop fuel' key (S suffix) (key ++ py "_" ++ str_of_nat suffix) sections
      else unique_key
  end.

(** One turn of the loop over the matches: [m] is the captured heading
    with the text up to the next match. *)
Definition add_section (doc : ParsedDocument) (m : str * str) : ParsedDocument :=
  let heading := strip (fst m) in
  let body := strip (snd m) in
  let key := _normalize_section_key heading in
  let unique_key :=
    unique_key_loop (S (List.length (sections doc))) key 2 key (sections doc) in
  {| sections := dict_set unique_key body (sections doc);
     order := order doc ++ [unique_key];
     headings := dict_set unique_key heading (headings doc) |}.

Definition empty_document : ParsedDocument :=
  {| sections := []; order := []; headings := [] |}.

(** [_parse_markdown_sections(content)]. *)
Definition _parse_markdown_sections (content : str) : ParsedDocument :=
  match Regex.finditer_spans match_heading content with
  | [] => {| sections := [(py "__full__", content)];
             order := [py "__full__"];
             headings := [(py "__full__", py "Document")] |}
  | matches => fold_left add_section matches empty_document
  end.

(** [s.title()] on ASCII letters, which is what section keys are made
    of. *)
Definition is_az (c : ascii) : bool :=
  let n := nat_of_ascii c in (97 <=? n) && (n <=? 122).
Definition is_AZ (c : ascii) : bool :=
  let n := nat_of_ascii c in (65 <=? n) && (n <=? 90).

Fixpoint title_from (prev_cased : bool) (s : str) : str :=
  match s with
  | [] => []
  | c :: t =>
      if is_az c
      then (if prev_cased then c else ascii_of_nat (nat_of_ascii c - 32)) :: title_from true t
      else if is_AZ c
      then (if prev_cased then ascii_of_nat (nat_of_ascii c + 32) else c) :: title_from true t
      else c :: title_from false t
  end.

Definition title (s : str) : str := title_from false s.

(** The text [_merge_sections] emits for one key. *)
Definition section_text (parsed : ParsedDocument) (updated : dict str) (key : str) : str :=
  let original_heading :=
    match dict_get key (headings parsed) with
    | Some h => h
    | None => title (replace (py "_") (py " ") key)
    end in
  let body :=
    match dict_get key updated with
    | Some b => b
    | None => match dict_get key (sections parsed) with
              | Some b => b
              | None => []
              end
    end in
  py "## " ++ original_heading ++ py "\n" ++ strip body ++ py "\n".

(** [_merge_sections(parsed, updated)]. *)
Definition _merge_sections (parsed : ParsedDocument) (updated : dict str) : str :=
  strip (join (py "\n") (map (section_text parsed updated) (order parsed))).

(** The layout [_merge_sections] writes: for each section the line
    [## heading], the body, and a blank line before the next one. *)
Definition chunk (sec : str * str) : str :=
  py "## " ++ fst sec ++ py "\n" ++ snd sec ++ py "\n".

Definition layout (secs : list (str * str)) : str :=
  strip (join (py "\n") (map chunk secs)).

(** The same text cut where the scanner cuts it: each heading with the
    text up to the next heading, the white space at the very end left
    out. *)
Definition last_gap (b : str) : str :=
  match b with [] => [] | _ :: _ => NL :: b end.

Fixpoint blocks_of (secs : list (str * str)) : list (str * str) :=
  match secs with
  | [] => []
  | (h, b) :: rest =>
      match rest with
      | [] => [(h, last_gap b)]
      | _ :: _ => (h, NL :: b ++ [NL; NL]) :: blocks_of rest
      end
  end.

Definition block_text (blk : str * str) : str := py "## " ++ fst blk ++ snd blk.

Definition flatten (blocks : list (str * str)) : str := List.concat (map block_text blocks).

Definition tokens_of (blocks : list (str * str)) : list (Regex.token str) :=
  List.concat (map (fun blk => Regex.Hit (fst blk) :: map (@Regex.Lit str) (snd blk)) blocks).

(** The character before the position reached by reading [s]. *)
Definition prev_after (prev : option ascii) (s : str) : option ascii :=
  match rev s with [] => prev | c :: _ => Some c end.

(** The document parsed from sections [secs] filed under keys [ks]. *)
Definition built (ks : list str) (secs : list (str * str)) : ParsedDocument :=
  {| sections := combine ks (map snd secs);
     order := ks;
     headings := combine ks (map fst secs) |}.

(** The candidates of the loop for a unique key. *)
Definition candidate (key : str) (j : nat) : str := key ++ py "_" ++ str_of_nat j.

(** A line of [s] opens with two hashes followed by white space or by
    the end of [s]; [bol] tells whether [s] starts a line. *)
Definition opens_heading (s : str) : bool :=
  match s with
  | c1 :: c2 :: t =>
      chr_eqb c1 "#"%char && chr_eqb c2 "#"%char
      && match t with [] => true | c :: _ => is_space c end
  | _ => false
  end.

Fixpoint has_heading_line (bol : bool) (s : str) : bool :=
  match s with
  | [] => false
  | c :: t => (bol && opens_heading s) || has_heading_line (chr_eqb c NL) t
  end.

(** A heading as the layout has it: not empty, on one line, no white
    space around it. *)
Definition tidy_heading (h : str) : Prop :=
  h <> [] /\ strip h = h /\ forallb not_nl h = true.

(** A body as the layout has it: no white space around it and no line
    that would be read as a second-level heading. *)
Definition tidy_body (b : str) : Prop :=
  strip b = b /\ has_heading_line true b = false.

Definition tidy (sec : str * str) : Prop :=
  tidy_heading (fst sec) /\ tidy_body (snd sec).

(** A character of a slug: a lower-case letter, a digit or the
    underscore. *)
Definition slug_or_underscore (c : ascii) : Prop :=
  is_slug_chr c = true \/ c = "_"%char.

(** A match of the heading pattern as it is filed: the heading and the
    text after it, both trimmed. *)
Definition trimmed (m : str * str) : str * str := (strip (fst m), strip (snd m)).

End Markdown.

(* ================================================================== *)
(** ** Diff parsing ([change_analyzer_node.py]) and the diff text of
       the data loader ([data_loader_node.py])                         *)
(* ================================================================== *)

Module DiffParse.

(** [chunk.split('\n', 1)[0]]: the text before the first line feed. *)
Definition first_line (s : str) : str :=
  take_while (fun c => negb (chr_eqb c NL)) s.

(** [s.split()]: the runs of characters that are not white space;
    [cur] is the run being read, latest character first. *)
Fixpoint words_from (cur : option str) (s : str) : list str :=
  match s with
  | [] => match cur with Some w => [rev w] | None => [] end
  | c :: t =>
      if is_space c
      then match cur with
           | Some w => rev w :: words_from None t
           | None => words_from None t
           end
      else words_from (Some (c :: match cur with Some w => w | None => [] end)) t
  end.

Definition words (s : str) : list str := words_from None s.

(** [\s+b/]: the greedy run of white space has to be followed by [b/]. *)
Definition space_then_b (s : str) : bool :=
  match take_while is_space s with
  | [] => false
  | _ :: _ => startswith (py "b/") (drop_while is_space s)
  end.

(** [(.*?)\s+b/]: the shortest run of characters of the line after
    which [\s+b/] matches. *)
Fixpoint lazy_path (s : str) : option str :=
  match s with
  | [] => None
  | c :: t =>
      if space_then_b s then Some []
      else if chr_eqb c NL then None
      else match lazy_path t with
           | Some g => Some (c :: g)
           | None => None
           end
  end.

(** [re.search(r'a/(.*?)\s+b/', s)]: group 1 of the leftmost match. *)
Fixpoint search_a_path (s : str) : option str :=
  match s with
  | [] => None
  | _ :: t =>
      match (if startswith (py "a/") s then lazy_path (skipn 2 s) else None) with
      | Some g => Some g
      | None => search_a_path t
      end
  end.

Definition DIFF_GIT : str := py "diff --git ".

(** One turn of the loop over the chunks. *)
Definition add_chunk (diff_map : dict str) (chunk : str) : dict str :=
  match strip chunk with
  | [] => diff_map
  | _ :: _ =>
      let header_line := first_line chunk in
      match search_a_path header_line with
      | Some g => dict_set (strip g) (DIFF_GIT ++ chunk) diff_map
      | None =>
          match words header_line with
          | f :: _ :: _ =>
              let f := if startswith (py "a/") f then skipn 2 f else f in
              dict_set f (DIFF_GIT ++ chunk) diff_map
          | _ => diff_map
          end
      end
  end.

(** [_parse_diff_to_map(diff_content)]. *)
Definition _parse_diff_to_map (diff_content : str) : dict str :=
  match diff_content with
  | [] => []
  | _ :: _ => fold_left add_chunk (split DIFF_GIT diff_content) []
  end.

(** The block of one file in a unified diff: the header line with the
    path on both sides, then the rest of the block. *)
Definition git_chunk (file : str * str) : str :=
  py "a/" ++ fst file ++ py " b/" ++ fst file ++ py "\n" ++ snd file.

Definition git_block (file : str * str) : str := DIFF_GIT ++ git_chunk file.

Definition unified (files : list (str * str)) : str :=
  List.concat (map git_block files).

(** No occurrence of [sep] starts inside [c], also when [sep] follows. *)
Fixpoint quiet (sep c : str) : bool :=
  match c with
  | [] => true
  | _ :: t => negb (startswith sep (c ++ sep)) && quiet sep t
  end.

(** A path without white space and the rest of a block in which no new
    block starts. *)
Definition well_formed (file : str * str) : Prop :=
  fst file <> [] /\ forallb (fun c => negb (is_space c)) (fst file) = true
  /\ quiet DIFF_GIT (git_chunk file) = true.

End DiffParse.

Module DataLoader.

(** A row of [file_changes]; every column but the file name may be
    NULL. *)
Record FileChange : Type := {
  filename : str;
  status : option str;
  additions : option Z;
  deletions : option Z;
  patch : option str
}.

(** [str(n)] for an integer. *)
Definition str_of_Z (n : Z) : str :=
  list_ascii_of_string (NilEmpty.string_of_int (Z.to_int n)).

(** What an f-string writes for a nullable column. *)
Definition show_str (v : option str) : str :=
  match v with Some s => s | None => py "None" end.

Definition show_int (v : option Z) : str :=
  match v with Some n => str_of_Z n | None => py "None" end.

(** [fc.patch or '(no patch)']. *)
Definition patch_or_note (v : option str) : str :=
  match v with
  | Some ((_ :: _) as p) => p
  | _ => py "(no patch)"
  end.

(** One element of [diff_parts]. *)
Definition diff_part (fc : FileChange) : str :=
  py "\n### " ++ filename fc ++ py " (" ++ show_str (status fc) ++ py ")\n"
  ++ py "+" ++ show_int (additions fc) ++ py " -" ++ show_int (deletions fc) ++ py "\n\n"
  ++ patch_or_note (patch fc) ++ py "\n".

(** [diff_content] as [data_loader_node] builds it. *)
Definition diff_content (file_changes : list FileChange) : str :=
  join (py "\n") (map diff_part file_changes).

(** [changed_files]. *)
Definition changed_files (file_changes : list FileChange) : list str :=
  map filename file_changes.

(** The character [c] does not occur in [s]. *)
Definition without (c : ascii) (s : str) : bool :=
  forallb (fun x => negb (chr_eqb x c)) s.

(** A nullable column holds the block marker. *)
Definition holds_marker (v : option str) : bool :=
  match v with
  | Some s => contains DiffParse.DIFF_GIT s
  | None => false
  end.

(** No field of the row brings the block marker into the text: the
    status and the patch do not hold it, and neither does the file name
    with the space that follows it in the heading. *)
Definition marker_free (fc : FileChange) : bool :=
  negb (contains DiffParse.DIFF_GIT (filename fc ++ py " "))
  && negb (holds_marker (status fc))
  && negb (holds_marker (patch fc)).

End DataLoader.

(* ================================================================== *)
(** ** What the serialiser writes, section by section                  *)
(* ================================================================== *)

Module Rendering.

(** The block written for a section filed under [key] with the heading
    and body of the match [m], given the updates. *)
Definition rendered (updated : dict str) (entry : str * (str * str)) : str :=
  let '(key, m) := entry in
  py "## " ++ strip (fst m) ++ py "\n"
  ++ strip (match dict_get key updated with
            | Some body => body
            | None => snd m
            end)
  ++ py "\n".

End Rendering.

(* ================================================================== *)
(** ** Patches as the generation step is asked to write them           *)
(* ================================================================== *)

Module PatchText.

Definition not_open (c : ascii) : bool := negb (chr_eqb c "["%char).
Definition not_bracket (c : ascii) : bool :=
  negb (chr_eqb c "["%char) && negb (chr_eqb c "]"%char).

(** A replacement or added paragraph: trimmed, not empty, without an
    opening bracket. *)
Definition paragraph (t : str) : Prop :=
  t <> [] /\ strip t = t /\ forallb not_open t = true.

(** The snippet of an UPDATE marker: trimmed, not empty, without
    brackets. *)
Definition snippet (s : str) : Prop :=
  s <> [] /\ strip s = s /\ forallb not_bracket s = true.

(** [[ADD]] on a line, then the paragraph. *)
Definition add_block (t : str) : str := py "[ADD]\n" ++ t.

(** [[UPDATE: snippet]] on a line, then the paragraph. *)
Definition update_block (s t : str) : str := py "[UPDATE: " ++ s ++ py "]\n" ++ t.

End PatchText.

(* ================================================================== *)
(** ** JSON extraction ([file_summarizer_node.py])                     *)
(* ================================================================== *)

Module JsonText.

(** Index of the first occurrence of [needle] in [hay], counted from
    [i]; [None] when there is none. *)
Fixpoint index_from (needle hay : str) (i : nat) : option nat :=
  if startswith needle hay then Some i
  else match hay with
       | [] => None
       | _ :: t => index_from needle t (S i)
       end.

(** [hay.find(needle, start)] for [0 <= start]: [-1] when there is no
    occurrence at or after [start]. *)
Definition find (needle hay : str) (start : nat) : Z :=
  if start <=? List.length hay
  then match index_from needle (skipn start hay) start with
       | Some i => Z.of_nat i
       | None => (-1)%Z
       end
  else (-1)%Z.

(** [s[start:stop]] for [0 <= start]; a negative [stop] counts from the
    end. *)
Definition slice (s : str) (start : nat) (stop : Z) : str :=
  let n := Z.of_nat (List.length s) in
  let stop := if (stop <? 0)%Z then Z.max 0 (n + stop) else Z.min stop n in
  skipn start (firstn (Z.to_nat stop) s).

Definition FENCE : str := py "```".
Definition FENCE_JSON : str := py "```json".

(** [_extract_json(text)]. *)
Definition _extract_json (text : str) : str :=
  if contains FENCE_JSON text then
    let start := Z.to_nat (find FENCE_JSON text 0 + 7) in
    let stop := find FENCE text start in
    strip (slice text start stop)
  else if contains FENCE text then
    let start := Z.to_nat (find FENCE text 0 + 3) in
    let stop := find FENCE text start in
    strip (slice text start stop)
  else text.

Definition no_backtick (s : str) : bool :=
  forallb (fun c => negb (chr_eqb c "`"%char)) s.

End JsonText.

(* ================================================================== *)
(** ** Listing the repository ([repository_analyzer_node.py])          *)
(* ================================================================== *)

Module RepoFiles.

Definition BIG_FILE_SIZE : Z := 5 * 1024 * 1024.

Definition code_extensions : dict str :=
  [ (py ".py", py "python"); (py ".js", py "javascript"); (py ".ts", py "typescript");
    (py ".jsx", py "javascript"); (py ".tsx", py "typescript"); (py ".java", py "java");
    (py ".cpp", py "cpp"); (py ".c", py "c"); (py ".h", py "c"); (py ".hpp", py "cpp");
    (py ".go", py "go"); (py ".rs", py "rust"); (py ".php", py "php"); (py ".rb", py "ruby");
    (py ".cs", py "csharp"); (py ".kt", py "kotlin"); (py ".swift", py "swift");
    (py ".scala", py "scala"); (py ".sh", py "shell"); (py ".sql", py "sql");
    (py ".html", py "html"); (py ".css", py "css"); (py ".scss", py "scss");
    (py ".yaml", py "yaml"); (py ".yml", py "yaml"); (py ".json", py "json");
    (py ".xml", py "xml"); (py ".md", py "markdown"); (py ".rst", py "rst") ].

Definition ignore_patterns : list str :=
  [ py "__pycache__"; py ".git"; py ".svn"; py "node_modules"; py ".vscode"; py ".idea";
    py "venv"; py "env"; py ".env"; py "build"; py "dist"; py "target"; py ".pytest_cache";
    py ".coverage"; py "*.pyc"; py "*.pyo"; py "*.pyd"; py ".DS_Store"; py "Thumbs.db" ].

(** [_is_test_file(file_path)]. *)
Definition _is_test_file (file_path : str) : bool :=
  any_in [py "test_"; py "_test."; py "/test/"; py "/tests/"; py ".test."; py ".spec."]
         (lower file_path).

Definition config_patterns : list str :=
  [ py "config"; py "setting"; py "requirements.txt"; py "package.json"; py "Dockerfile";
    py "docker-compose"; py ".env"; py "makefile"; py "cmake"; py ".yml"; py ".yaml" ].

(** [_is_config_file(file_path)]. *)
Definition _is_config_file (file_path : str) : bool :=
  any_in config_patterns (lower file_path).

(** [_get_file_priority(file_path)], the rank used for sorting. *)
Definition _get_file_priority (file_path : str) : Z :=
  let file_name := lower file_path in
  if any_in [py "main.py"; py "app.py"; py "index."; py "server."; py "__init__.py"] file_name
  then 1
  else if _is_config_file file_path || contains (py "readme") file_name then 2
  else if negb (_is_test_file file_path) then 3
  else 4.

(** What the walk reports for a regular file: the relative path with
    forward slashes, [file_path.suffix.lower()], and the size ([None]
    when [stat] raises). *)
Record found : Type := {
  path_str : str;
  suffix : str;
  size : option Z
}.

(** An element of [code_files]. *)
Record code_file : Type := {
  path : str;
  language : str;
  file_size : Z;
  is_test : bool;
  is_config : bool
}.

(** The body of the loop over the files found: the record appended, if
    any. *)
Definition listed (f : found) : option code_file :=
  if any_in ignore_patterns (path_str f) then None
  else match dict_get (suffix f) code_extensions with
       | None => None
       | Some lang =>
           match size f with
           | None => None
           | Some n =>
               if (n >? BIG_FILE_SIZE)%Z then None
               else Some {| path := path_str f; language := lang; file_size := n;
                            is_test := _is_test_file (path_str f);
                            is_config := _is_config_file (path_str f) |}
           end
       end.

Fixpoint collect (fs : list found) : list code_file :=
  match fs with
  | [] => []
  | f :: rest =>
      match listed f with
      | Some c => c :: collect rest
      | None => collect rest
      end
  end.

Definition rank (c : code_file) : Z := _get_file_priority (path c).

(** [code_files.sort(key=...)]: the sort is stable, so it is the one
    arrangement by rank that keeps files of equal rank in the order
    found; insertion from the right computes it. *)
Fixpoint insert_by_rank (x : code_file) (l : list code_file) : list code_file :=
  match l with
  | [] => [x]
  | y :: r => if (rank x <=? rank y)%Z then x :: l else y :: insert_by_rank x r
  end.

Definition sort_by_rank (l : list code_file) : list code_file :=
  fold_right insert_by_rank [] l.

(** The [code_files] that [_analyze_repository_structure_sync] returns
    for the files found. *)
Definition code_files (fs : list found) : list code_file :=
  sort_by_rank (collect fs).

End RepoFiles.

(* ================================================================== *)
(** ** Target sections from file names                                 *)
(* ================================================================== *)

Module Targets.

(** [targets.add(x)]; the order of a Python set is not fixed, every
    statement about the result is about membership. *)
Definition add (x : str) (targets : list str) : list str :=
  if existsb (str_eqb x) targets then targets else targets ++ [x].

Definition add_if (b : bool) (x : str) (targets : list str) : list str :=
  if b then add x targets else targets.

(** One turn of the loop of [_identify_target_sections]
    ([change_analyzer_node.py]). *)
Definition identify_step (targets : list str) (f : str) : list str :=
  let lf := lower f in
  let targets := add_if (any_in [py "main"; py "app"; py "config"] lf) (py "overview") targets in
  let targets := add_if (any_in [py "router"; py "endpoint"; py "controller"] lf)
                        (py "modules")
                        (add_if (any_in [py "router"; py "endpoint"; py "controller"] lf)
                                (py "architecture") targets) in
  let targets := add_if (any_in [py "model"; py "schema"; py "entity"] lf) (py "modules") targets in
  add_if (any_in [py "service"; py "handler"] lf) (py "modules") targets.

(** [_identify_target_sections(changed_files)]. *)
Definition _identify_target_sections (changed_files : list str) : list str :=
  add (py "changelog") (fold_left identify_step changed_files []).

(** One turn of the loop of [_infer_target_sections]
    ([document_generator_node.py]). *)
Definition infer_step (targets : list str) (f : str) : list str :=
  add_if (any_in [py "test"; py "spec"] (lower f)) (py "changelog") (identify_step targets f).

(** [_infer_target_sections(changed_files)]. *)
Definition _infer_target_sections (changed_files : list str) : list str :=
  add (py "changelog") (fold_left infer_step changed_files []).

Definition canonical : list str :=
  [py "overview"; py "architecture"; py "modules"; py "changelog"].

(** What the name of one changed file asks for: the sections its
    trigger words name. *)
Definition asks (f t : str) : Prop :=
  let lf := lower f in
  (any_in [py "main"; py "app"; py "config"] lf = true /\ t = py "overview")
  \/ (any_in [py "router"; py "endpoint"; py "controller"] lf = true
      /\ (t = py "architecture" \/ t = py "modules"))
  \/ (any_in [py "model"; py "schema"; py "entity"] lf = true /\ t = py "modules")
  \/ (any_in [py "service"; py "handler"] lf = true /\ t = py "modules").

End Targets.

(* ================================================================== *)
(** ** Further inputs used in examples                                 *)
(* ================================================================== *)

Module Samples.

(** A backend that is rate-limited once and answers the second call. *)
Definition fails_once : Backoff.backend unit :=
  fun i => match i with
           | 0 => inl (py "Rate limit reached")
           | S _ => inr tt
           end.

(** A clock like [time.sleep]: it refuses a length that is not a
    number, a negative length, and a length of more than [2 ** 63]
    nanoseconds. *)
Definition time_sleep : Backoff.clock :=
  fun secs =>
    if negb (PrimFloat.eqb secs secs)
    then Some (py "Invalid value NaN (not a number)")
    else if PrimFloat.ltb 9223372036854775808 (PrimFloat.mul (PrimFloat.abs secs) 1e9)
    then Some (py "timestamp too large to convert to C _PyTime_t")
    else if PrimFloat.ltb secs 0
    then Some (py "sleep length must be non-negative")
    else None.

(** The default settings with a negative ceiling for the delay. *)
Definition negative_ceiling : Backoff.env :=
  {| Backoff.LLM_MAX_RETRIES := 3;
     Backoff.LLM_BASE_BACKOFF_SECONDS := 1;
     Backoff.LLM_MAX_BACKOFF_SECONDS := (-1)%float;
     Backoff.LLM_RETRYABLE_ERROR_SUBSTRINGS := [] |}.

(** Two files of a unified diff: the path and what follows the header
    line. *)
Definition two_blocks : list (str * str) :=
  [ (py "app/main.py", py "@@ -1 +1 @@\n-x = 1\n+x = 2\n");
    (py "lib/util.py", py "new file mode 100644\n+y = 3\n") ].

(** Two rows of [file_changes], the second with every nullable column
    empty. *)
Definition loader_rows : list DataLoader.FileChange :=
  [ {| DataLoader.filename := py "app/main.py";
       DataLoader.status := Some (py "modified");
       DataLoader.additions := Some 3%Z;
       DataLoader.deletions := Some 1%Z;
       DataLoader.patch := Some (py "@@ -1 +1 @@\n-x = 1\n+x = 2") |};
    {| DataLoader.filename := py "README.md";
       DataLoader.status := None;
       DataLoader.additions := None;
       DataLoader.deletions := None;
       DataLoader.patch := None |} ].

(** A document without a section heading, and one with two. *)
Definition headless : str := py "Just a note.\n# Title only\nmore".
Definition two_sections : str := py "## Overview\nold\n## Usage\nrun it".
Definition overview_update : dict str := [(py "overview", py "new")].

(** Three changed files (one of low priority, two queued), a diff map
    with a block for the second, and summary texts that repeat the change
    type. *)
Definition three_changed : list str :=
  [py "README.md"; py "app/api.py"; py "lib/util.py"].
Definition one_block : dict str :=
  [(py "app/api.py", py "diff --git a/app/api.py b/app/api.py\n+x = 2\n")].
Definition echo_summary : str -> str -> str -> str := fun _ _ change_type => change_type.
Definition note : str -> str -> str := fun _ change_type => change_type.

(** A remote on which the archive of [develop] breaks off after one
    entry was written and the archive of [main] is sound; the directory
    is listed in the order of creation. *)
Definition broken_then_sound : Download.remote :=
  fun b =>
    if str_eqb b (py "develop")
    then Some {| Download.status_code := 200;
                 Download.unpacked := [py "repo-develop"];
                 Download.unpack_raises := true;
                 Download.iterdir := fun d => d |}
    else Some {| Download.status_code := 200;
                 Download.unpacked := [py "repo-main"];
                 Download.unpack_raises := false;
                 Download.iterdir := fun d => d |}.

End Samples.


(* ================================================================== *)
(** ** Inputs used in examples                                         *)
(* ================================================================== *)

Module Fixtures.

(** A backend that answers every call with a rate-limit error. *)
Definition always_rate_limited : Backoff.backend unit :=
  fun _ => inl (py "Error code: 429 - Rate limit reached").

(** No jitter: every draw is 1. *)
Definition steady : nat -> float := fun _ => 1%float.

(** The diff map of the matching example, with any two blocks. *)
Definition two_files (b1 b2 : str) : dict str :=
  [(py "backend/main.py", b1); (py "lib/util.py", b2)].


(** Two parsed files, summarised by their path, the second finishing
    first. *)
Definition two_parsed_files : list str := [py "src/a.py"; py "src/b.py"].
Definition second_first : list nat := [1; 0].

End Fixtures.

(** * Properties *)

(* ------------------------------------------------------------------ *)
(** ** Strings                                                         *)
(* ------------------------------------------------------------------ *)

Lemma chr_eqb_refl (c : ascii) : chr_eqb c c = true.
Proof. apply Ascii.eqb_refl. Qed.

Lemma chr_eqb_eq (a b : ascii) : chr_eqb a b = true <-> a = b.
Proof. apply Ascii.eqb_eq. Qed.

Lemma str_eqb_eq (a b : str) : str_eqb a b = true <-> a = b.
Proof.
  revert b; induction a as [|x a IH]; intros [|y b]; simpl; split;
    try discriminate; try reflexivity.
  - intros H. apply andb_true_iff in H as [H1 H2].
    apply chr_eqb_eq in H1. apply IH in H2. congruence.
  - intros H. injection H as -> ->.
    rewrite chr_eqb_refl. simpl. now apply IH.
Qed.

Lemma str_eqb_refl (a : str) : str_eqb a a = true.
Proof. now apply str_eqb_eq. Qed.

Lemma startswith_app (p t : str) : startswith p (p ++ t) = true.
Proof.
  induction p as [|a p IH]; simpl; [reflexivity|].
  now rewrite chr_eqb_refl.
Qed.

Lemma startswith_spec (p s : str) :
  startswith p s = true <-> exists t, s = p ++ t.
Proof.
  split.
  - revert s; induction p as [|a p IH]; intros s H.
    + now exists s.
    + destruct s as [|b s]; simpl in H; [discriminate|].
      apply andb_true_iff in H as [H1 H2].
      apply chr_eqb_eq in H1. destruct (IH _ H2) as [t ->].
      exists t. now subst.
  - intros [t ->]. apply startswith_app.
Qed.

Lemma endswith_spec (p s : str) :
  endswith p s = true <-> exists pre, s = pre ++ p.
Proof.
  unfold endswith. rewrite startswith_spec. split.
  - intros [t H]. exists (rev t).
    rewrite <- (rev_involutive s), H, rev_app_distr, rev_involutive.
    reflexivity.
  - intros [pre ->]. exists (rev pre). apply rev_app_distr.
Qed.

Lemma contains_unfold (needle hay : str) :
  contains needle hay =
  startswith needle hay
  || match hay with [] => false | _ :: t => contains needle t end.
Proof. now destruct hay. Qed.

Lemma contains_app (needle pre post : str) :
  contains needle (pre ++ needle ++ post) = true.
Proof.
  induction pre as [|c pre IH].
  - cbn [app]. rewrite contains_unfold. now rewrite startswith_app.
  - cbn [app]. rewrite contains_unfold, IH. apply orb_true_r.
Qed.

Lemma contains_spec (needle hay : str) :
  contains needle hay = true <-> exists pre post, hay = pre ++ needle ++ post.
Proof.
  split.
  - induction hay as [|c hay IH]; simpl; intros H.
    + rewrite orb_false_r in H. apply startswith_spec in H as [t H].
      now exists [], t.
    + apply orb_true_iff in H as [H|H].
      * apply startswith_spec in H as [t H]. now exists [], t.
      * destruct (IH H) as (pre & post & ->). now exists (c :: pre), post.
  - intros (pre & post & ->). apply contains_app.
Qed.

Lemma drop_while_idem (f : ascii -> bool) (s : str) :
  drop_while f (drop_while f s) = drop_while f s.
Proof.
  induction s as [|c s IH]; simpl; [reflexivity|].
  destruct (f c) eqn:E; [exact IH|]. simpl. now rewrite E.
Qed.

Lemma take_drop_while (f : ascii -> bool) (s : str) :
  take_while f s ++ drop_while f s = s.
Proof.
  induction s as [|c s IH]; simpl; [reflexivity|].
  destruct (f c); simpl; [now rewrite IH | reflexivity].
Qed.

Lemma drop_while_app (f : ascii -> bool) (a b : str) :
  drop_while f (a ++ b) =
  match drop_while f a with
  | [] => drop_while f b
  | r => r ++ b
  end.
Proof.
  induction a as [|c a IH]; simpl.
  - reflexivity.
  - destruct (f c); [exact IH | reflexivity].
Qed.

Lemma rstrip_idem (s : str) : rstrip (rstrip s) = rstrip s.
Proof.
  unfold rstrip. now rewrite rev_involutive, drop_while_idem.
Qed.

(** What [rstrip] removes is a tail. *)
Lemma rstrip_tail (s : str) : exists ws, s = rstrip s ++ ws.
Proof.
  exists (rev (take_while is_space (rev s))). unfold rstrip.
  rewrite <- rev_app_distr, take_drop_while. symmetry. apply rev_involutive.
Qed.

(** Appending text never shortens what [rstrip] keeps. *)
Lemma rstrip_app_prefix (p x : str) : exists t, rstrip (p ++ x) = rstrip p ++ t.
Proof.
  unfold rstrip at 1. rewrite rev_app_distr, drop_while_app.
  destruct (drop_while is_space (rev x)) as [|c r] eqn:E.
  - exists []. now rewrite app_nil_r.
  - destruct (rstrip_tail p) as [ws Hws].
    exists (ws ++ rev (c :: r)).
    rewrite rev_app_distr, rev_involutive, app_assoc. now rewrite <- Hws.
Qed.

Lemma strip_nil_rstrip (s : str) : strip s = [] -> rstrip s = [].
Proof.
  unfold strip, lstrip, rstrip. intros H.
  destruct (drop_while is_space (rev s)) as [|c r] eqn:E; [reflexivity|].
  exfalso.
  assert (Hc : is_space c = false).
  { clear H. revert E. induction (rev s) as [|a l IH]; simpl; [discriminate|].
    destruct (is_space a) eqn:Ea; [exact IH|]. now intros [= <- _]. }
  simpl in H. rewrite drop_while_app in H.
  destruct (drop_while is_space (rev r)) eqn:E2.
  - simpl in H. now rewrite Hc in H.
  - discriminate.
Qed.

Lemma split_from_not_nil (sep : str) (k : nat) (s : str) : split_from sep k s <> [].
Proof.
  revert k; induction s as [|c s IH]; intros k; simpl; [discriminate|].
  destruct k; [|apply IH].
  destruct (startswith sep (c :: s)); [discriminate|].
  destruct (split_from sep 0 s); discriminate.
Qed.

(** The line count is one more than the number of line feeds. *)
Lemma line_count_cons (c : ascii) (s : str) :
  line_count (c :: s) = (if chr_eqb NL c then 1 else 0) + line_count s.
Proof.
  unfold line_count, split. change (py "\n") with [NL].
  cbn [split_from startswith List.length Nat.sub].
  destruct (chr_eqb NL c); cbn [andb].
  - reflexivity.
  - destruct (split_from [NL] 0 s) eqn:E; [|reflexivity].
    now apply split_from_not_nil in E.
Qed.

Lemma line_count_app_le (p t : str) : line_count p <= line_count (p ++ t).
Proof.
  induction p as [|c p IH].
  - simpl. unfold line_count, split.
    destruct (split_from (py "\n") 0 t) eqn:E; simpl; [|lia].
    now apply split_from_not_nil in E.
  - cbn [app]. rewrite !line_count_cons. lia.
Qed.

(* ------------------------------------------------------------------ *)
(** ** Section patch merger                                            *)
(* ------------------------------------------------------------------ *)

Lemma merge_changelog_no_change (old pre post : str) :
  _merge_changelog old (pre ++ NO_CHANGE ++ post) = old.
Proof.
  unfold _merge_changelog. rewrite contains_app.
  now destruct (pre ++ NO_CHANGE ++ post).
Qed.

Lemma merge_section_no_change (old pre post : str) :
  _merge_section_changes old (pre ++ NO_CHANGE ++ post) = old.
Proof.
  unfold _merge_section_changes. rewrite contains_app.
  now destruct (pre ++ NO_CHANGE ++ post).
Qed.

(** C6. An empty patch and the patch that is exactly [[NO_CHANGE]] leave
    the old body as it is, whatever the section key: in the changelog
    merge, in the general section merge, and in the dispatch on the key
    that stands before them. *)
Theorem no_change_patch_is_identity (section_key old : str) :
  _merge_changelog old [] = old
  /\ _merge_changelog old (py "[NO_CHANGE]") = old
  /\ _merge_section_changes old [] = old
  /\ _merge_section_changes old (py "[NO_CHANGE]") = old
  /\ merge_generated section_key old [] = old
  /\ merge_generated section_key old (py "[NO_CHANGE]") = old.
Proof.
  assert (Hc : _merge_changelog old (py "[NO_CHANGE]") = old).
  { apply (merge_changelog_no_change old [] []). }
  assert (Hs : _merge_section_changes old (py "[NO_CHANGE]") = old).
  { apply (merge_section_no_change old [] []). }
  repeat split; try reflexivity; try assumption.
  - unfold merge_generated. change (strip []) with (@nil ascii).
    now destruct (str_eqb section_key (py "changelog")).
  - unfold merge_generated.
    change (strip (py "[NO_CHANGE]")) with (py "[NO_CHANGE]").
    now destruct (str_eqb section_key (py "changelog")).
Qed.

(** C10. A patch that has [[NO_CHANGE]] anywhere in it, whatever stands
    before and after, gives back the old body in both merges; the other
    blocks of the patch are dropped.  So it is for a patch that carries
    an UPDATE and an ADD block next to the sentinel. *)
Theorem no_change_anywhere_wins (old pre post : str) :
  _merge_changelog old (pre ++ py "[NO_CHANGE]" ++ post) = old
  /\ _merge_section_changes old (pre ++ py "[NO_CHANGE]" ++ post) = old
  /\ _merge_section_changes old
       (py "[UPDATE: intro]\nNew intro.\n[NO_CHANGE]\n[ADD]\nExtra paragraph.") = old
  /\ _merge_changelog old
       (py "[UPDATE: intro]\nNew intro.\n[NO_CHANGE]\n[ADD]\nExtra paragraph.") = old.
Proof.
  split; [apply merge_changelog_no_change|].
  split; [apply merge_section_no_change|].
  split.
  - apply (merge_section_no_change old (py "[UPDATE: intro]\nNew intro.\n")
             (py "\n[ADD]\nExtra paragraph.")).
  - apply (merge_changelog_no_change old (py "[UPDATE: intro]\nNew intro.\n")
             (py "\n[ADD]\nExtra paragraph.")).
Qed.

(** C7. With an empty old body the patch [[UPDATE: old text]] followed by
    the replacement comes back with the snippet and the closing bracket
    still in it: the opening [[UPDATE:] is taken out first, so the
    pattern that should remove the whole marker finds nothing. *)
Theorem empty_body_keeps_marker_fragments :
  _merge_section_changes [] (py "[UPDATE: old text]\nnew text")
  = py "old text]\nnew text"
  /\ _merge_section_changes [] (py "[ADD]\nfirst\n[UPDATE: intro]\nsecond")
     = py "first\n intro]\nsecond".
Proof. split; vm_compute; reflexivity. Qed.

(** The marker pattern does its work when the opening is still there. *)
Example update_tag_removed :
  Regex.sub Regex.match_update_tag [] (py "[UPDATE: old text]\nnew text") = py "\nnew text".
Proof. vm_compute. reflexivity. Qed.

(** One changelog merge keeps the old body without its trailing white
    space as the head of the result. *)
Lemma merge_changelog_prefix (old entry : str) :
  exists t, rstrip (_merge_changelog old entry) = rstrip old ++ t.
Proof.
  unfold _merge_changelog.
  destruct entry as [|c entry]; [exists []; now rewrite app_nil_r|].
  destruct (contains NO_CHANGE (c :: entry)); [exists []; now rewrite app_nil_r|].
  destruct (strip old) eqn:E.
  - rewrite (strip_nil_rstrip _ E). now eexists.
  - destruct (rstrip_app_prefix (rstrip old) (py "\n" ++ c :: entry)) as [t Ht].
    exists t. now rewrite Ht, rstrip_idem.
Qed.

Lemma changelog_after_prefix (entries : list str) (old : str) :
  exists t, changelog_after old entries = rstrip old ++ t.
Proof.
  revert old; induction entries as [|e es IH]; intros old.
  - simpl. apply rstrip_tail.
  - unfold changelog_after in *. simpl.
    destruct (IH (_merge_changelog old e)) as [t Ht].
    destruct (merge_changelog_prefix old e) as [t' Ht'].
    exists (t' ++ t). now rewrite Ht, Ht', app_assoc.
Qed.

Lemma changelog_after_rstrip_prefix (entries : list str) (old : str) :
  exists t, rstrip (changelog_after old entries) = rstrip old ++ t.
Proof.
  revert old; induction entries as [|e es IH]; intros old.
  - exists []. now rewrite app_nil_r.
  - unfold changelog_after in *. simpl.
    destruct (IH (_merge_changelog old e)) as [t Ht].
    destruct (merge_changelog_prefix old e) as [t' Ht'].
    exists (t' ++ t). now rewrite Ht, Ht', app_assoc.
Qed.

Lemma line_count_app (a b : str) :
  line_count (a ++ b) + 1 = line_count a + line_count b.
Proof.
  induction a as [|c a IH].
  - cbn [app]. change (line_count []) with 1. lia.
  - cbn [app]. rewrite !line_count_cons. lia.
Qed.

Lemma line_count_pos (s : str) : 1 <= line_count s.
Proof. apply (line_count_app_le [] s). Qed.

(** An entry that counts is appended on a line of its own after a body
    that has content. *)
Lemma merge_changelog_appends (old entry : str) :
  strip old <> [] -> entry <> [] -> contains NO_CHANGE entry = false ->
  _merge_changelog old entry = rstrip old ++ py "\n" ++ entry.
Proof.
  intros Ho He Hn. unfold _merge_changelog.
  destruct entry as [|c entry]; [contradiction|]. rewrite Hn.
  now destruct (strip old).
Qed.

(** C5, the claim as it stands fails: a body that ends in blank lines
    loses them when an entry is appended. *)
Lemma changelog_line_count_can_drop :
  ~ (line_count (py "- a\n\n\n")
     <= line_count (changelog_after (py "- a\n\n\n") [py "- b"])).
Proof. vm_compute. lia. Qed.

(** C5, amended.  After any run of non-empty entries without the
    sentinel, the old body without its trailing white space is still the
    head of the changelog, so the changelog has at least as many lines
    as that; for an old body that has no trailing white space, as the
    section parser delivers it, at least as many lines as the old body.
    When the old body has content and at least one entry is applied,
    the changelog has more lines than the old body had up to its last
    character that is not white space. *)
Theorem changelog_only_grows (old : str) (entries : list str) :
  Forall (fun e => e <> [] /\ contains NO_CHANGE e = false) entries ->
  (exists t, changelog_after old entries = rstrip old ++ t)
  /\ line_count (rstrip old) <= line_count (changelog_after old entries)
  /\ (rstrip old = old -> line_count old <= line_count (changelog_after old entries))
  /\ (strip old <> [] -> entries <> [] ->
      line_count (rstrip old) < line_count (changelog_after old entries)).
Proof.
  intros Hok.
  destruct (changelog_after_prefix entries old) as [t Ht].
  split; [now exists t|].
  assert (H : line_count (rstrip old) <= line_count (changelog_after old entries)).
  { rewrite Ht. apply line_count_app_le. }
  split; [exact H|]. split; [intros E; now rewrite E in H|].
  intros Hold Hne.
  destruct (exists_last Hne) as (es & e & ->).
  apply Forall_app in Hok as [_ Hok].
  inversion Hok as [|? ? [He Hn] _]; subst.
  unfold changelog_after. rewrite fold_left_app. cbn [fold_left].
  fold (changelog_after old es).
  destruct (changelog_after_rstrip_prefix es old) as [t' Ht'].
  assert (Hr : rstrip old <> []).
  { intros E. apply Hold. unfold strip. now rewrite E. }
  rewrite merge_changelog_appends; [| |exact He|exact Hn].
  - rewrite Ht', <- app_assoc.
    pose proof (line_count_app (rstrip old) (t' ++ py "\n" ++ e)) as L1.
    pose proof (line_count_app t' (py "\n" ++ e)) as L2.
    change (py "\n" ++ e) with (NL :: e) in *.
    rewrite line_count_cons, chr_eqb_refl in L2.
    pose proof (line_count_pos t'). pose proof (line_count_pos e). lia.
  - intros E. apply strip_nil_rstrip in E. rewrite Ht' in E.
    apply app_eq_nil in E as [E _]. contradiction.
Qed.

Lemma changelog_only_grows_witness :
  line_count (py "- a") < line_count (changelog_after (py "- a") [py "- b"; py "- c\n"]).
Proof.
  refine (proj2 (proj2 (proj2
            (@changelog_only_grows (py "- a") [py "- b"; py "- c\n"] _))) _ _).
  - repeat constructor; discriminate.
  - discriminate.
  - discriminate.
Defined.

(* ------------------------------------------------------------------ *)
(** ** Diff matcher                                                    *)
(* ------------------------------------------------------------------ *)

Lemma find_first_hit {A : Type} (p : A -> bool) (before after : list A) (x : A) :
  (forall y, In y before -> p y = false) -> p x = true ->
  find p (before ++ x :: after) = Some x.
Proof.
  intros Hb Hx. induction before as [|y before IH]; simpl.
  - now rewrite Hx.
  - rewrite (Hb y (or_introl eq_refl)). apply IH.
    intros z Hz. apply Hb. now right.
Qed.

Lemma find_no_hit {A : Type} (p : A -> bool) (l : list A) :
  (forall y, In y l -> p y = false) -> find p l = None.
Proof.
  intros H. induction l as [|y l IH]; simpl; [reflexivity|].
  rewrite (H y (or_introl eq_refl)). apply IH. intros z Hz. apply H. now right.
Qed.

(** C4. The matching policy of [_find_diff_for_file], first hit wins:
    (1) the query is a key; (2) the query with [a/] before it is a key;
    (3) the first entry, in the order of the map, whose key ends with
    the query or is an ending of it, the query being stripped and its
    backslashes turned into slashes; otherwise the empty block.  The
    empty map gives the empty block.  With the keys [backend/main.py]
    and [lib/util.py], [main.py] finds the first block and
    [notfound.py] none. *)
Theorem find_diff_policy (filename : str) (diff_map : dict str) :
  let norm_name := replace (py "\\") (py "/") (strip filename) in
  (forall block, dict_get filename diff_map = Some block ->
     _find_diff_for_file filename diff_map = block)
  /\ (forall block, dict_get filename diff_map = None ->
        dict_get (py "a/" ++ filename) diff_map = Some block ->
        _find_diff_for_file filename diff_map = block)
  /\ (forall before key content after,
        dict_get filename diff_map = None ->
        dict_get (py "a/" ++ filename) diff_map = None ->
        diff_map = before ++ (key, content) :: after ->
        (forall e, In e before -> suffix_hit norm_name e = false) ->
        (exists pre, key = pre ++ norm_name) \/ (exists pre, norm_name = pre ++ key) ->
        _find_diff_for_file filename diff_map = content)
  /\ (dict_get filename diff_map = None ->
      dict_get (py "a/" ++ filename) diff_map = None ->
      (forall e, In e diff_map -> suffix_hit norm_name e = false) ->
      _find_diff_for_file filename diff_map = [])
  /\ _find_diff_for_file filename [] = []
  /\ (forall b1 b2, _find_diff_for_file (py "main.py") (Fixtures.two_files b1 b2) = b1)
  /\ (forall b1 b2, _find_diff_for_file (py "notfound.py") (Fixtures.two_files b1 b2) = []).
Proof.
  intros norm_name. unfold _find_diff_for_file. fold norm_name.
  split; [intros block ->; reflexivity|].
  split; [intros block -> ->; reflexivity|].
  split.
  { intros before key content after -> -> E Hb Hk.
    rewrite E, (find_first_hit (suffix_hit norm_name) before after (key, content)).
    - reflexivity.
    - exact Hb.
    - unfold suffix_hit. cbn [fst]. apply orb_true_iff.
      destruct Hk as [Hk|Hk]; [left|right]; now apply endswith_spec. }
  split.
  { intros -> -> H. now rewrite (find_no_hit _ _ H). }
  repeat split; intros; reflexivity.
Qed.

Lemma find_diff_policy_witness :
  _find_diff_for_file (py " src\\main.py ")
    [(py "lib/util.py", py "U"); (py "backend/src/main.py", py "M"); (py "main.py", py "X")]
  = py "M".
Proof.
  refine (proj1 (proj2 (proj2 (find_diff_policy (py " src\\main.py ")
            [(py "lib/util.py", py "U"); (py "backend/src/main.py", py "M");
             (py "main.py", py "X")])))
          [(py "lib/util.py", py "U")] (py "backend/src/main.py") (py "M")
          [(py "main.py", py "X")] eq_refl eq_refl eq_refl _ _).
  - intros e [<-|[]]. reflexivity.
  - left. exists (py "backend/"). reflexivity.
Defined.

(* ------------------------------------------------------------------ *)
(** ** Retry-wrapped completion client                                 *)
(* ------------------------------------------------------------------ *)

Section RetryLoop.
Import Backoff.
Variable R : Type.
Variable e : env.
Variable llm : backend R.
Variable jitter : nat -> float.
Variable sleep : clock.

Lemma pause_ok_spec (i : nat) :
  pause_ok e jitter sleep i = true ->
  exists d, backoff e (Z.of_nat (S i)) (jitter i) = Some d /\ sleep d = None.
Proof.
  unfold pause_ok. destruct (backoff e (Z.of_nat (S i)) (jitter i)) as [d|]; [|discriminate].
  destruct (sleep d) eqn:E; [discriminate|]. intros _. now exists d.
Qed.

(** After [k] transient failures, each followed by a pause that goes
    through, the loop is [k] attempts further, has made [k] calls and
    slept [k] times. *)
Lemma retry_loop_transient_prefix (k : nat) :
  forall fuel attempt w,
    (forall i, i < k -> exists err,
          llm (calls w + i) = inl err /\ _is_retryable_error e err = true) ->
    (forall i, i < k -> exists d,
          backoff e (attempt + Z.of_nat (S i)) (jitter (List.length (slept w) + i)) = Some d
          /\ sleep d = None) ->
    (attempt + Z.of_nat k <= LLM_MAX_RETRIES e)%Z ->
    exists sl,
      retry_loop e llm jitter sleep (k + fuel) attempt w
      = retry_loop e llm jitter sleep fuel (attempt + Z.of_nat k)
                   {| calls := calls w + k; slept := sl |}
      /\ List.length sl = List.length (slept w) + k.
Proof.
  induction k as [|k IH]; intros fuel attempt w Ht Hp Hm.
  - exists (slept w). rewrite Z.add_0_r, !Nat.add_0_r. destruct w. auto.
  - destruct (Ht 0) as (err & Hl & Hr); [lia|]. rewrite Nat.add_0_r in Hl.
    destruct (Hp 0) as (d & Hd & Hs); [lia|]. rewrite Nat.add_0_r in Hd.
    change (Z.of_nat 1) with 1%Z in Hd.
    cbn [Nat.add retry_loop]. rewrite Hl, Hr. cbn [negb orb].
    replace (attempt + 1 >? LLM_MAX_RETRIES e)%Z with false
      by (symmetry; rewrite Z.gtb_ltb; apply Z.ltb_ge; lia).
    rewrite Hd, Hs. cbn [calls slept].
    match goal with
    | |- context [retry_loop _ _ _ _ (k + fuel) _ ?w0] =>
        destruct (IH fuel (attempt + 1)%Z w0) as (sl & H1 & H2)
    end.
    + intros i Hi. cbn [calls]. destruct (Ht (S i)) as (err' & Hl' & Hr'); [lia|].
      exists err'. split; [|exact Hr']. rewrite <- Hl'. f_equal. lia.
    + intros i Hi. cbn [slept List.length]. destruct (Hp (S i)) as (d' & Hd' & Hs'); [lia|].
      exists d'. split; [|exact Hs']. rewrite <- Hd'. f_equal; [lia|]. f_equal. lia.
    + lia.
    + rewrite H1. cbn [calls slept List.length] in *.
      exists sl. split; [|lia].
      replace (attempt + 1 + Z.of_nat k)%Z with (attempt + Z.of_nat (S k))%Z by lia.
      replace (S (calls w) + k) with (calls w + S k) by lia. reflexivity.
Qed.

(** The same from the start of [invoke_with_retry]. *)
Lemma invoke_transient_prefix (k : nat) :
  (Z.of_nat k <= LLM_MAX_RETRIES e)%Z ->
  (forall i, i < k -> exists err,
        llm i = inl err /\ _is_retryable_error e err = true) ->
  (forall i, i < k -> pause_ok e jitter sleep i = true) ->
  exists sl,
    invoke_with_retry e llm jitter sleep
    = retry_loop e llm jitter sleep (S (Z.to_nat (LLM_MAX_RETRIES e) - k)) (Z.of_nat k)
                 {| calls := k; slept := sl |}
    /\ List.length sl = k.
Proof.
  intros Hk Ht Hp. unfold invoke_with_retry.
  replace (S (Z.to_nat (LLM_MAX_RETRIES e)))
    with (k + S (Z.to_nat (LLM_MAX_RETRIES e) - k)) by lia.
  destruct (@retry_loop_transient_prefix k
              (S (Z.to_nat (LLM_MAX_RETRIES e) - k)) 0%Z
              {| calls := 0; slept := [] |}) as (sl & H1 & H2).
  - intros i Hi. exact (Ht i Hi).
  - intros i Hi. cbn [slept List.length Nat.add]. rewrite Z.add_0_l.
    exact (@pause_ok_spec i (Hp i Hi)).
  - lia.
  - exists sl. rewrite H1. cbn [calls slept List.length Nat.add] in *.
    rewrite Z.add_0_l. auto.
Qed.
End RetryLoop.

(** C1, the claim as it stands fails: with the default of 3 and a
    backend that always answers with a rate-limit error, the call is not
    raised after 3 invocations. *)
Lemma retry_ceiling_is_not_three :
  ~ (exists err w,
        Backoff.invoke_with_retry Backoff.default_env Fixtures.always_rate_limited
                                  Fixtures.steady Samples.time_sleep
        = Some (Backoff.Raised err, w)
        /\ Backoff.calls w = 3).
Proof.
  intros (err & w & H & Hc).
  vm_compute in H. injection H as _ Hw. subst w. discriminate Hc.
Qed.

(** C1, amended.  LLM_MAX_RETRIES counts retries: with 3, a backend
    that fails every time with a transient error and the three pauses
    going through (each delay is computed and [time.sleep] takes it, as
    with the default settings), the underlying call is made 4 times, with
    a delay before each of the 3 retries, and the error of the last call
    is raised. *)
Theorem retry_ceiling (R : Type) (e : Backoff.env) (llm : Backoff.backend R)
        (jitter : nat -> float) (sleep : Backoff.clock) :
  Backoff.LLM_MAX_RETRIES e = 3%Z ->
  (forall k, exists err,
      llm k = inl err /\ Backoff._is_retryable_error e err = true) ->
  (forall i, i < 3 -> Backoff.pause_ok e jitter sleep i = true) ->
  exists err sl,
    llm 3 = inl err
    /\ Backoff.invoke_with_retry e llm jitter sleep
       = Some (Backoff.Raised err, {| Backoff.calls := 4; Backoff.slept := sl |})
    /\ List.length sl = 3.
Proof.
  intros H3 Hall Hp.
  destruct (@invoke_transient_prefix R e llm jitter sleep 3) as (sl & H1 & H2).
  - rewrite H3. reflexivity.
  - intros i _. apply Hall.
  - exact Hp.
  - destruct (Hall 3) as (err & Hl & Hr). exists err, sl.
    split; [exact Hl|]. split; [|exact H2].
    rewrite H1, H3. cbn [Backoff.retry_loop Backoff.calls Backoff.slept].
    rewrite Hl, Hr, H3. reflexivity.
Qed.

Lemma retry_ceiling_witness :
  exists err sl,
    Fixtures.always_rate_limited 3 = inl err
    /\ Backoff.invoke_with_retry Backoff.default_env Fixtures.always_rate_limited
                                 Fixtures.steady Samples.time_sleep
       = Some (Backoff.Raised err, {| Backoff.calls := 4; Backoff.slept := sl |})
    /\ List.length sl = 3.
Proof.
  apply (@retry_ceiling unit Backoff.default_env Fixtures.always_rate_limited
           Fixtures.steady Samples.time_sleep).
  - reflexivity.
  - intros k. eexists. split; [reflexivity|]. vm_compute. reflexivity.
  - intros i Hi.
    destruct i as [|[|[|i]]]; [vm_compute; reflexivity .. | lia].
Defined.

(** An error that is not transient is raised at once. *)
Example fatal_error_not_retried :
  Backoff.invoke_with_retry Backoff.default_env
    (fun _ => inl (py "invalid api key") : str + unit) Fixtures.steady Samples.time_sleep
  = Some (Backoff.Raised (py "invalid api key"),
          {| Backoff.calls := 1; Backoff.slept := [] |}).
Proof. vm_compute. reflexivity. Qed.

(** With a negative ceiling the first delay is negative, [time.sleep]
    raises, and the wrapper ends after one call. *)
Example negative_delay_ends_retries :
  Backoff.invoke_with_retry Samples.negative_ceiling Fixtures.always_rate_limited
    Fixtures.steady Samples.time_sleep
  = Some (Backoff.SleepRaised (py "sleep length must be non-negative"),
          {| Backoff.calls := 1; Backoff.slept := [] |}).
Proof. vm_compute. reflexivity. Qed.

(* ------------------------------------------------------------------ *)
(** ** Repository download                                             *)
(* ------------------------------------------------------------------ *)






(** Without the 403 the third candidate is reached and served. *)
Example third_branch_served :
  Download.try_branches
    (fun b => if str_eqb b (py "master")
              then Some {| Download.status_code := 200;
                           Download.unpacked := [py "repo-master"];
                           Download.unpack_raises := false;
                           Download.iterdir := fun d => d |}
              else Some (Download.status_only 404))
    [py "develop"; py "main"; py "master"]
  = (Some (py "repo-master"), [py "develop"; py "main"; py "master"]).
Proof. reflexivity. Qed.

(** The extraction directory is shared: what an archive that broke off
    left there can be the path returned for a later branch. *)
Example leftover_entry_returned :
  Download.try_branches Samples.broken_then_sound [py "develop"; py "main"; py "master"]
  = (Some (py "repo-develop"), [py "develop"; py "main"]).
Proof. reflexivity. Qed.

(* ------------------------------------------------------------------ *)
(** ** Bounded worker pools                                            *)
(* ------------------------------------------------------------------ *)

Lemma flat_map_nth_error_seq {F : Type} (fs pre : list F) :
  flat_map (fun i => match nth_error (pre ++ fs) i with
                     | Some f => [f]
                     | None => []
                     end) (seq (List.length pre) (List.length fs)) = fs.
Proof.
  revert pre; induction fs as [|f fs IH]; intros pre; [reflexivity|].
  cbn [List.length seq flat_map].
  rewrite nth_error_app2, Nat.sub_diag by lia. cbn [nth_error app].
  f_equal. specialize (IH (pre ++ [f])).
  rewrite <- app_assoc, length_app, Nat.add_1_r in IH. exact IH.
Qed.

(** Whatever the completion order, [as_completed] hands out the
    submitted futures, each once. *)
Lemma as_completed_permutation {F : Type} (fs : list F) (completion : list nat) :
  completion_order (List.length fs) completion ->
  Permutation (as_completed fs completion) fs.
Proof.
  intros H. unfold as_completed.
  rewrite (Permutation_flat_map _ H).
  pose proof (flat_map_nth_error_seq fs []) as E. cbn [app List.length] in E.
  now rewrite E.
Qed.

(** C3. [file_summarizer_node] appends the results as the workers
    finish and does not put them back in order: with two files and the
    second finishing first, the summaries come out in the order
    second, first. *)
Theorem file_summaries_follow_completion :
  completion_order (List.length Fixtures.two_parsed_files) Fixtures.second_first
  /\ FileSummarizer.file_summaries (fun path : str => path) 30 false 4
       Fixtures.second_first Fixtures.two_parsed_files
     = [py "src/b.py"; py "src/a.py"]
  /\ FileSummarizer.file_summaries (fun path : str => path) 30 false 4
       Fixtures.second_first Fixtures.two_parsed_files
     <> map (fun path : str => path) Fixtures.two_parsed_files.
Proof.
  split; [apply perm_swap|]. split; [reflexivity | discriminate].
Qed.

Section ChangeSummariesOrder.
Import ChangeSummaries.
Variable llm_summary : str -> str -> str -> str.
Variable no_diff_text low_text : str -> str -> str.
Variable diff_map : dict str.

Lemma summarize_file (fp : str * str) :
  file (_summarize llm_summary no_diff_text diff_map fp) = fst fp.
Proof.
  destruct fp as [f p]. unfold _summarize.
  now destruct (_find_diff_for_file f diff_map).
Qed.

(** Every changed file is summarised on the spot or queued. *)
Lemma classify_covers (changed_files : list str) (f : str) :
  In f changed_files ->
  (exists s, In s (fst (classify low_text diff_map changed_files)) /\ file s = f)
  \/ (exists p, In (f, p) (snd (classify low_text diff_map changed_files))).
Proof.
  induction changed_files as [|g rest IH]; [intros []|].
  intros [->|Hin]; cbn [classify];
    destruct (classify low_text diff_map rest) as [done queued];
    destruct (str_eqb (_get_file_priority _) (py "low")); cbn [fst snd] in *.
  - left. eexists. split; [left; reflexivity | reflexivity].
  - right. eexists. left. reflexivity.
  - destruct (IH Hin) as [(s & Hs & Hf)|(p & Hp)].
    + left. exists s. split; [now right | exact Hf].
    + right. now exists p.
  - destruct (IH Hin) as [(s & Hs & Hf)|(p & Hp)].
    + left. now exists s.
    + right. exists p. now right.
Qed.

(** The sibling fan-out, [_generate_file_summaries], does restore the
    order: whatever the completion order of its pool, the summaries come
    out file by file in the order of [changed_files]. *)
Lemma generate_file_summaries_in_order (completion : list nat) (changed_files : list str) :
  completion_order (List.length (snd (classify low_text diff_map changed_files))) completion ->
  map file (_generate_file_summaries llm_summary no_diff_text low_text diff_map
              completion changed_files)
  = changed_files.
Proof.
  intros Hc. unfold _generate_file_summaries.
  pose proof (classify_covers changed_files) as Hcov.
  destruct (classify low_text diff_map changed_files) as [low hm]. cbn [fst snd] in *.
  set (summaries := low ++ as_completed (map _ hm) completion).
  assert (Hall : forall f, In f changed_files ->
                   exists s, order_map_get summaries f = Some s /\ file s = f).
  { intros f Hf. unfold order_map_get.
    destruct (find (fun s => str_eqb (file s) f) (rev summaries)) as [s|] eqn:E.
    - exists s. split; [reflexivity|].
      apply find_some in E as [_ E]. now apply str_eqb_eq.
    - exfalso.
      assert (Hs : exists s, In s summaries /\ file s = f).
      { destruct (Hcov f Hf) as [(s & Hs & Hfile)|(p & Hp)].
        - exists s. split; [apply in_or_app; now left | exact Hfile].
        - exists (_summarize llm_summary no_diff_text diff_map (f, p)).
          split; [|apply summarize_file].
          apply in_or_app. right.
          assert (Hp' : Permutation
                          (as_completed (map (_summarize llm_summary no_diff_text diff_map) hm)
                                        completion)
                          (map (_summarize llm_summary no_diff_text diff_map) hm)).
          { apply as_completed_permutation. now rewrite length_map. }
          apply (Permutation_in _ (Permutation_sym Hp')).
          now apply in_map. }
      destruct Hs as (s & Hs & Hfile).
      apply in_rev in Hs. pose proof (find_none _ _ E _ Hs) as Hn.
      cbv beta in Hn. rewrite Hfile, str_eqb_refl in Hn. discriminate. }
  clearbody summaries. clear Hcov Hc.
  induction changed_files as [|f rest IH]; [reflexivity|].
  cbn [flat_map]. destruct (Hall f (or_introl eq_refl)) as (s & -> & Hs).
  cbn [app map]. rewrite Hs. f_equal. apply IH.
  intros g Hg. apply Hall. now right.
Qed.
End ChangeSummariesOrder.

(* ------------------------------------------------------------------ *)
(** ** Markdown section model                                          *)
(* ------------------------------------------------------------------ *)

Lemma is_space_NL : is_space NL = true.
Proof. reflexivity. Qed.

Lemma drop_while_length (f : ascii -> bool) (s : str) :
  List.length (drop_while f s) <= List.length s.
Proof.
  induction s as [|c s IH]; simpl; [lia|].
  destruct (f c); simpl; lia.
Qed.

Lemma drop_while_fixed_head (f : ascii -> bool) (c : ascii) (t : str) :
  drop_while f (c :: t) = c :: t -> f c = false.
Proof.
  simpl. destruct (f c); [|reflexivity]. intros H.
  pose proof (drop_while_length f t) as L. rewrite H in L. simpl in L. lia.
Qed.

(** A string that [strip] leaves alone is left alone at both ends. *)
Lemma strip_fixed (s : str) : strip s = s -> lstrip s = s /\ rstrip s = s.
Proof.
  intros H.
  assert (R : rstrip s = s).
  { destruct (rstrip_tail s) as [ws Hws].
    pose proof (drop_while_length is_space (rstrip s)) as L.
    fold (lstrip (rstrip s)) in L. fold (strip s) in L. rewrite H in L.
    pose proof (f_equal (@List.length ascii) Hws) as E.
    rewrite length_app in E.
    destruct ws as [|w ws]; [now rewrite app_nil_r in Hws | simpl in E; lia]. }
  split; [|exact R]. unfold strip in H. now rewrite R in H.
Qed.

(** The last character is not white space. *)
Definition solid_end (s : str) : Prop :=
  exists y c, s = y ++ [c] /\ is_space c = false.

Lemma rstrip_solid (s : str) : solid_end s -> rstrip s = s.
Proof.
  intros (y & c & -> & Hc). unfold rstrip.
  rewrite rev_app_distr. cbn [rev app drop_while]. rewrite Hc.
  cbn [rev]. now rewrite rev_involutive.
Qed.

Lemma rstrip_fixed_solid (s : str) : rstrip s = s -> s <> [] -> solid_end s.
Proof.
  intros H Hs. unfold rstrip in H.
  apply (f_equal (@rev ascii)) in H. rewrite rev_involutive in H.
  destruct (rev s) as [|c r] eqn:E.
  - apply (f_equal (@rev ascii)) in E. rewrite rev_involutive in E. contradiction.
  - exists (rev r), c. split.
    + apply (f_equal (@rev ascii)) in E. now rewrite rev_involutive in E.
    + exact (@drop_while_fixed_head is_space c r H).
Qed.

Lemma solid_end_app (x s : str) : solid_end s -> solid_end (x ++ s).
Proof.
  intros (y & c & -> & Hc). exists (x ++ y), c. now rewrite app_assoc.
Qed.

Lemma rstrip_two_feeds (x : str) : rstrip (x ++ [NL; NL]) = rstrip x.
Proof.
  unfold rstrip. rewrite rev_app_distr. cbn [rev app drop_while].
  now rewrite is_space_NL.
Qed.

Lemma rstrip_one_feed (x : str) : rstrip (x ++ [NL]) = rstrip x.
Proof.
  unfold rstrip. rewrite rev_app_distr. cbn [rev app drop_while].
  now rewrite is_space_NL.
Qed.

Lemma strip_feed_body (b : str) :
  strip b = b -> strip (NL :: b) = b /\ strip (NL :: b ++ [NL; NL]) = b.
Proof.
  intros H. destruct (strip_fixed H) as [HL HR].
  assert (E : strip (NL :: b) = b).
  { destruct b as [|c b]; [reflexivity|].
    unfold strip. rewrite rstrip_solid.
    - unfold lstrip. cbn [drop_while]. rewrite is_space_NL. exact HL.
    - apply (solid_end_app [NL]). now apply rstrip_fixed_solid. }
  split; [exact E|].
  unfold strip. change (NL :: b ++ [NL; NL]) with ((NL :: b) ++ [NL; NL]).
  rewrite rstrip_two_feeds. exact E.
Qed.

Section HeadingScan.
Import Markdown.

Lemma prev_after_cons (prev : option ascii) (c : ascii) (m : str) :
  prev_after prev (c :: m) = prev_after (Some c) m.
Proof.
  unfold prev_after. cbn [rev].
  destruct (rev m); reflexivity.
Qed.

Lemma prev_after_solid (prev : option ascii) (x : str) :
  solid_end x -> exists c, prev_after prev x = Some c /\ is_space c = false.
Proof.
  intros (y & c & -> & Hc). exists c. split; [|exact Hc].
  unfold prev_after. now rewrite rev_app_distr.
Qed.

Lemma prev_after_feed (prev : option ascii) (x : str) :
  prev_after prev (x ++ [NL]) = Some NL.
Proof. unfold prev_after. now rewrite rev_app_distr. Qed.

(** The characters of a match are passed over. *)
Lemma scan_skip {A : Type} (matcher : option ascii -> str -> option (A * nat))
      (m rest : str) :
  forall prev,
    Regex.scan matcher (List.length m) prev (m ++ rest)
    = Regex.scan matcher 0 (prev_after prev m) rest.
Proof.
  induction m as [|c m IH]; intros prev; [reflexivity|].
  cbn [List.length app Regex.scan]. rewrite IH. now rewrite prev_after_cons.
Qed.

Lemma space_not_nl (c : ascii) : is_space c = false -> chr_eqb c NL = false.
Proof.
  intros H. destruct (chr_eqb c NL) eqn:E; [|reflexivity].
  apply chr_eqb_eq in E. subst c. now rewrite is_space_NL in H.
Qed.

(** Text without a heading line is passed over character by
    character, provided a heading cannot start on its last line by
    running into what follows. *)
Lemma scan_quiet (G rest : str) :
  forall prev,
    has_heading_line (at_bol prev) G = false ->
    rest = [] \/ prev_after prev G = Some NL ->
    Regex.scan match_heading 0 prev (G ++ rest)
    = map (@Regex.Lit str) G ++ Regex.scan match_heading 0 (prev_after prev G) rest.
Proof.
  induction G as [|c G IH]; intros prev Hq Hr; [reflexivity|].
  cbn [has_heading_line] in Hq. apply orb_false_iff in Hq as [Hq1 Hq2].
  assert (Hm : match_heading prev ((c :: G) ++ rest) = None).
  { unfold match_heading. destruct (at_bol prev); [|reflexivity].
    cbn [andb] in Hq1 |- *.
    destruct (startswith (py "##") ((c :: G) ++ rest)) eqn:Es; [|reflexivity].
    apply startswith_spec in Es as [t Et]. change (py "##") with ["#"; "#"]%char in Et.
    cbn [app] in Et. injection Et as -> Et.
    destruct G as [|d G].
    - exfalso. rewrite prev_after_cons in Hr. cbn in Hr.
      destruct Hr as [->|Hr]; [discriminate Et | discriminate Hr].
    - cbn [app] in Et. injection Et as -> Et.
      destruct G as [|x G]; [discriminate Hq1|].
      change (is_space x = false) in Hq1.
      cbn [app skipn take_while]. now rewrite Hq1. }
  cbn [app Regex.scan] in *. rewrite Hm. cbn [map app]. f_equal.
  rewrite prev_after_cons in Hr |- *. apply IH; assumption.
Qed.

Lemma take_while_stop (p : ascii -> bool) (h rest : str) :
  forallb p h = true ->
  rest = [] \/ (exists c t, rest = c :: t /\ p c = false) ->
  take_while p (h ++ rest) = h.
Proof.
  intros Hh Hr. induction h as [|c h IH].
  - destruct Hr as [->|(c & t & -> & Hc)]; [reflexivity|].
    cbn. now rewrite Hc.
  - cbn [forallb] in Hh. apply andb_true_iff in Hh as [H1 H2].
    cbn [app take_while]. rewrite H1. f_equal. now apply IH.
Qed.

(** A heading line of the layout is matched whole. *)
Lemma match_heading_line (prev : option ascii) (h rest : str) :
  at_bol prev = true -> tidy_heading h ->
  rest = [] \/ (exists t, rest = NL :: t) ->
  match_heading prev (py "## " ++ h ++ rest) = Some (h, 3 + List.length h).
Proof.
  intros Hb (Hne & Hs & Hnl) Hr. unfold match_heading. rewrite Hb.
  destruct h as [|c h]; [contradiction|].
  destruct (strip_fixed Hs) as [HL _].
  pose proof (@drop_while_fixed_head is_space c h HL) as Hc.
  change (py "## " ++ (c :: h) ++ rest)
    with ("#" :: "#" :: " " :: (c :: h) ++ rest)%char.
  change (startswith (py "##") ("#" :: "#" :: " " :: (c :: h) ++ rest)%char) with true.
  cbn [andb skipn].
  change (take_while is_space (" " :: (c :: h) ++ rest)%char)
    with (" "%char :: take_while is_space ((c :: h) ++ rest)).
  change (drop_while is_space (" " :: (c :: h) ++ rest)%char)
    with (drop_while is_space ((c :: h) ++ rest)).
  replace (take_while is_space ((c :: h) ++ rest)) with (@nil ascii)
    by (cbn [app take_while]; now rewrite Hc).
  replace (drop_while is_space ((c :: h) ++ rest)) with ((c :: h) ++ rest)
    by (cbn [app drop_while]; now rewrite Hc).
  cbn [app]. change (c :: h ++ rest) with ((c :: h) ++ rest).
  rewrite take_while_stop.
  - reflexivity.
  - exact Hnl.
  - destruct Hr as [->|(t & ->)]; [now left | right].
    exists NL, t. split; reflexivity.
Qed.
End HeadingScan.

Section LayoutScan.
Import Markdown.

Ltac flat_app := repeat (progress (rewrite <- ?app_assoc; cbn [app])).

Lemma has_heading_line_feeds (b : str) :
  forall bol, has_heading_line bol b = false ->
              has_heading_line bol (b ++ [NL; NL]) = false.
Proof.
  induction b as [|c b IH]; intros bol H.
  - now destruct bol.
  - cbn [has_heading_line] in H. apply orb_false_iff in H as [H1 H2].
    cbn [app has_heading_line]. rewrite (IH _ H2), orb_false_r.
    destruct bol; [|reflexivity]. cbn [andb] in *.
    destruct b as [|d b]; cbn [app opens_heading] in *.
    + destruct (chr_eqb c "#"); [|reflexivity]. reflexivity.
    + destruct b as [|x b]; cbn [app] in *.
      * rewrite andb_true_r in H1. now rewrite H1.
      * exact H1.
Qed.

(** One block of the layout: the heading is a hit, the text after it
    is passed over. *)
Lemma scan_block (prev : option ascii) (h G F : str) :
  at_bol prev = true -> tidy_heading h ->
  G ++ F = [] \/ (exists t, G ++ F = NL :: t) ->
  has_heading_line false G = false ->
  F = [] \/ (exists G', G = G' ++ [NL]) ->
  exists q,
    Regex.scan match_heading 0 prev (py "## " ++ h ++ G ++ F)
    = Regex.Hit h :: map (@Regex.Lit str) G ++ Regex.scan match_heading 0 q F
    /\ (F = [] \/ q = Some NL).
Proof.
  intros Hb Hh Hg Hq Hf.
  pose proof (match_heading_line prev (h:=h) (rest:=G ++ F) Hb Hh Hg) as Hm.
  assert (Hsolid : solid_end (["#"; " "]%char ++ h)).
  { apply solid_end_app. destruct Hh as (Hne & Hs & _).
    apply rstrip_fixed_solid; [apply (strip_fixed Hs) | exact Hne]. }
  destruct (prev_after_solid (Some "#"%char) Hsolid) as (c & Hc & Hsp).
  exists (prev_after (Some c) G). split.
  - change (py "## " ++ h ++ G ++ F)
      with ("#"%char :: (["#"; " "]%char ++ h) ++ G ++ F) in *.
    cbn [Regex.scan]. rewrite Hm.
    replace (3 + List.length h - 1) with (List.length (["#"; " "]%char ++ h))
      by (cbn [List.length app]; lia).
    rewrite scan_skip, Hc. f_equal.
    apply scan_quiet.
    + cbn [at_bol]. now rewrite (space_not_nl _ Hsp).
    + destruct Hf as [->|(G' & ->)]; [now left | right]. apply prev_after_feed.
  - destruct Hf as [->|(G' & ->)]; [now left | right]. apply prev_after_feed.
Qed.

Lemma flatten_cons (blk : str * str) (blks : list (str * str)) :
  flatten (blk :: blks) = py "## " ++ fst blk ++ snd blk ++ flatten blks.
Proof.
  unfold flatten. cbn [map List.concat]. unfold block_text.
  now rewrite <- !app_assoc.
Qed.

Lemma tokens_of_cons (blk : str * str) (blks : list (str * str)) :
  tokens_of (blk :: blks)
  = Regex.Hit (fst blk) :: map (@Regex.Lit str) (snd blk) ++ tokens_of blks.
Proof. reflexivity. Qed.

Lemma flatten_blocks_head (s : str * str) (rest : list (str * str)) :
  exists t, flatten (blocks_of (s :: rest)) = "#"%char :: t.
Proof.
  destruct s as [h b]. cbn [blocks_of].
  destruct rest; rewrite flatten_cons; now eexists.
Qed.

(** Scanning the layout of tidy sections finds each heading and passes
    over each body. *)
Lemma scan_layout (secs : list (str * str)) :
  forall prev, at_bol prev = true -> Forall tidy secs ->
    Regex.scan match_heading 0 prev (flatten (blocks_of secs))
    = tokens_of (blocks_of secs).
Proof.
  induction secs as [|[h b] rest IH]; intros prev Hb Ht; [reflexivity|].
  inversion Ht as [|? ? [Hh [Hbs Hbq]] Hrest]; subst. cbn [fst snd] in *.
  cbn [blocks_of]. destruct rest as [|s2 rest].
  - rewrite flatten_cons, tokens_of_cons. cbn [fst snd].
    destruct (@scan_block prev h (last_gap b) [] Hb Hh) as (q & E & _).
    + rewrite app_nil_r. destruct b; [now left | right; now eexists].
    + destruct b as [|c b]; [reflexivity|]. exact Hbq.
    + now left.
    + change (flatten []) with (@nil ascii). rewrite E.
      now destruct q.
  - rewrite flatten_cons, tokens_of_cons. cbn [fst snd].
    destruct (@scan_block prev h (NL :: b ++ [NL; NL])
                (flatten (blocks_of (s2 :: rest))) Hb Hh) as (q & E & Hq).
    + right. now eexists.
    + cbn [has_heading_line andb orb]. rewrite chr_eqb_refl.
      now apply has_heading_line_feeds.
    + right. exists (NL :: b ++ [NL]). cbn [app]. now rewrite <- app_assoc.
    + rewrite E. f_equal. f_equal.
      destruct Hq as [Hq| ->].
      * destruct (flatten_blocks_head s2 rest) as [t Et].
        rewrite Et in Hq. discriminate.
      * apply IH; [reflexivity | exact Hrest].
Qed.

Lemma gap_lits (G : str) (T : list (Regex.token str)) :
  Regex.gap (map (@Regex.Lit str) G ++ T) = G ++ Regex.gap T.
Proof. induction G as [|c G IH]; [reflexivity|]. cbn. now rewrite IH. Qed.

Lemma spans_lits (G : str) (T : list (Regex.token str)) :
  Regex.spans (map (@Regex.Lit str) G ++ T) = Regex.spans T.
Proof. induction G as [|c G IH]; [reflexivity|]. exact IH. Qed.

Lemma spans_tokens (blocks : list (str * str)) :
  Regex.spans (tokens_of blocks) = blocks.
Proof.
  induction blocks as [|[h G] blks IH]; [reflexivity|].
  rewrite tokens_of_cons. cbn [fst snd Regex.spans].
  rewrite gap_lits, spans_lits, IH. f_equal. f_equal.
  destruct blks as [|blk blks]; [apply app_nil_r|].
  rewrite tokens_of_cons. cbn [Regex.gap]. apply app_nil_r.
Qed.

(** The text the serialiser joins is the block text with one or two
    line feeds after it. *)
Lemma join_chunks (secs : list (str * str)) :
  secs <> [] ->
  exists trail,
    (trail = [NL] \/ trail = [NL; NL])
    /\ join (py "\n") (map chunk secs) = flatten (blocks_of secs) ++ trail.
Proof.
  induction secs as [|[h b] rest IH]; [contradiction|]. intros _.
  destruct rest as [|s2 rest].
  - cbn [map join blocks_of]. rewrite flatten_cons. cbn [fst snd].
    change (flatten []) with (@nil ascii). unfold chunk. cbn [fst snd].
    change (py "\n") with [NL].
    destruct b as [|c b].
    + exists [NL; NL]. split; [now right|]. cbn [last_gap]. now flat_app.
    + exists [NL]. split; [now left|]. cbn [last_gap]. now flat_app.
  - destruct IH as (trail & Htrail & E); [discriminate|].
    exists trail. split; [exact Htrail|].
    change (map chunk ((h, b) :: s2 :: rest))
      with (chunk (h, b) :: map chunk (s2 :: rest)).
    change (join (py "\n") (chunk (h, b) :: map chunk (s2 :: rest)))
      with (chunk (h, b) ++ py "\n" ++ join (py "\n") (map chunk (s2 :: rest))).
    rewrite E. cbn [blocks_of]. rewrite flatten_cons. cbn [fst snd].
    unfold chunk. cbn [fst snd]. change (py "\n") with [NL]. now flat_app.
Qed.

Lemma flatten_solid (secs : list (str * str)) :
  secs <> [] -> Forall tidy secs -> solid_end (flatten (blocks_of secs)).
Proof.
  induction secs as [|[h b] rest IH]; [contradiction|]. intros _ Ht.
  inversion Ht as [|? ? [(Hne & Hs & _) [Hbs _]] Hrest]; subst. cbn [fst snd] in *.
  cbn [blocks_of]. destruct rest as [|s2 rest].
  - rewrite flatten_cons. cbn [fst snd]. change (flatten []) with (@nil ascii).
    rewrite app_nil_r. apply solid_end_app.
    destruct b as [|c b].
    + cbn [last_gap]. rewrite app_nil_r.
      apply rstrip_fixed_solid; [apply (strip_fixed Hs) | exact Hne].
    + apply solid_end_app. apply (solid_end_app [NL]).
      apply rstrip_fixed_solid; [apply (strip_fixed Hbs) | discriminate].
  - rewrite flatten_cons. do 3 apply solid_end_app.
    apply IH; [discriminate | exact Hrest].
Qed.

(** The layout is the block text. *)
Lemma layout_flatten (secs : list (str * str)) :
  secs <> [] -> Forall tidy secs -> layout secs = flatten (blocks_of secs).
Proof.
  intros Hne Ht. unfold layout.
  destruct (join_chunks Hne) as (trail & Htrail & ->).
  unfold strip.
  assert (R : rstrip (flatten (blocks_of secs) ++ trail) = flatten (blocks_of secs)).
  { destruct Htrail as [->| ->];
      [rewrite rstrip_one_feed | rewrite rstrip_two_feeds];
      apply rstrip_solid, flatten_solid; assumption. }
  rewrite R. destruct secs as [|s rest]; [contradiction|].
  destruct (flatten_blocks_head s rest) as [t ->]. reflexivity.
Qed.
End LayoutScan.

Section UniqueKeys.
Import Markdown.

Lemma dict_mem_keys {V : Type} (k : str) (d : dict V) :
  dict_mem k d = true <-> In k (keys d).
Proof.
  unfold dict_mem. induction d as [|[k' v] d IH]; cbn [dict_get keys map fst In].
  - split; [discriminate | contradiction].
  - destruct (str_eqb k' k) eqn:E.
    + apply str_eqb_eq in E. split; [now left | reflexivity].
    + rewrite IH. split; [now right|]. intros [H|H]; [|exact H].
      subst k'. now rewrite str_eqb_refl in E.
Qed.

Lemma str_of_nat_inj (a b : nat) : str_of_nat a = str_of_nat b -> a = b.
Proof.
  unfold str_of_nat. intros H.
  apply (f_equal string_of_list_ascii) in H.
  rewrite !string_of_list_ascii_of_string in H.
  apply (f_equal NilEmpty.uint_of_string) in H.
  rewrite !NilEmpty.usu in H. injection H as H.
  apply (f_equal Nat.of_uint) in H.
  now rewrite !DecimalNat.Unsigned.of_to in H.
Qed.

Lemma candidate_inj (key : str) (i j : nat) :
  candidate key i = candidate key j -> i = j.
Proof.
  unfold candidate. intros H.
  apply app_inv_head in H. apply app_inv_head in H. now apply str_of_nat_inj.
Qed.

Lemma candidate_not_key (key : str) (j : nat) : key <> candidate key j.
Proof.
  unfold candidate. intros H. apply (f_equal (@List.length ascii)) in H.
  rewrite !length_app in H. change (List.length (py "_")) with 1 in H. lia.
Qed.

(** The loop for a unique key ends on a key that is not in the
    dictionary: the candidates tried so far are all different and all in
    it, and it has fewer keys than candidates are allowed. *)
Lemma unique_key_loop_fresh (key : str) (d : dict str) :
  forall fuel suffix cur seen,
    NoDup seen -> incl seen (keys d) -> ~ In cur seen ->
    (forall j, suffix <= j -> ~ In (candidate key j) seen) ->
    (forall j, suffix <= j -> cur <> candidate key j) ->
    List.length (keys d) < List.length seen + fuel ->
    dict_mem (unique_key_loop fuel key suffix cur d) d = false.
Proof.
  induction fuel as [|fuel IH]; intros suffix cur seen Hnd Hincl Hcur Hfut Hne Hlen.
  - pose proof (NoDup_incl_length Hnd Hincl). lia.
  - cbn [unique_key_loop]. destruct (dict_mem cur d) eqn:E; [|exact E].
    apply (IH (S suffix) _ (cur :: seen)).
    + now constructor.
    + intros x [<-|Hx]; [now apply dict_mem_keys | now apply Hincl].
    + intros [H|H].
      * apply (Hne suffix); [lia | exact H].
      * apply (Hfut suffix); [lia | exact H].
    + intros j Hj [H|H].
      * apply (Hne j); [lia | exact H].
      * apply (Hfut j); [lia | exact H].
    + intros j Hj H. apply candidate_inj in H. lia.
    + cbn [List.length]. lia.
Qed.

Lemma unique_key_fresh (key : str) (d : dict str) :
  dict_mem (unique_key_loop (S (List.length d)) key 2 key d) d = false.
Proof.
  apply (@unique_key_loop_fresh key d _ _ _ []).
  - constructor.
  - intros x [].
  - intros [].
  - intros j _ [].
  - intros j _. apply candidate_not_key.
  - unfold keys. rewrite length_map. cbn [List.length]. lia.
Qed.

Lemma dict_set_fresh {V : Type} (k : str) (v : V) (d : dict V) :
  dict_mem k d = false -> dict_set k v d = d ++ [(k, v)].
Proof.
  unfold dict_mem. induction d as [|[k' v'] d IH]; cbn [dict_get dict_set app].
  - reflexivity.
  - destruct (str_eqb k' k); [discriminate|]. intros H. now rewrite IH.
Qed.

Lemma keys_combine {V : Type} (ks : list str) (vs : list V) :
  List.length ks = List.length vs -> keys (combine ks vs) = ks.
Proof.
  revert vs; induction ks as [|k ks IH]; intros [|v vs] H;
    try discriminate; [reflexivity|].
  cbn [combine keys map fst]. f_equal. apply IH. now injection H.
Qed.

Lemma combine_snoc {V : Type} (ks : list str) (vs : list V) (k : str) (v : V) :
  List.length ks = List.length vs ->
  combine ks vs ++ [(k, v)] = combine (ks ++ [k]) (vs ++ [v]).
Proof.
  revert vs; induction ks as [|k0 ks IH]; intros [|v0 vs] H;
    try discriminate; [reflexivity|].
  cbn [combine app]. f_equal. apply IH. now injection H.
Qed.

Lemma not_mem_combine {V : Type} (k : str) (ks : list str) (vs : list V) :
  List.length ks = List.length vs -> ~ In k ks -> dict_mem k (combine ks vs) = false.
Proof.
  intros Hl Hk. destruct (dict_mem k (combine ks vs)) eqn:E; [|reflexivity].
  apply dict_mem_keys in E. now rewrite keys_combine in E.
Qed.

(** Filing one more tidy section under the keys so far. *)
Lemma add_section_built (ks : list str) (secs : list (str * str)) (h b : str) :
  List.length ks = List.length secs ->
  strip h = h -> strip b = b ->
  exists k, ~ In k ks
            /\ add_section (built ks secs) (h, b) = built (ks ++ [k]) (secs ++ [(h, b)]).
Proof.
  intros Hl Hh Hb. unfold add_section. cbn [fst snd sections order headings built].
  rewrite Hh, Hb.
  set (k := unique_key_loop _ _ _ _ _).
  assert (Hk : ~ In k ks).
  { pose proof (unique_key_fresh (_normalize_section_key h)
                  (combine ks (map snd secs))) as F.
    fold k in F. intros Hin.
    assert (M : dict_mem k (combine ks (map snd secs)) = true).
    { apply dict_mem_keys. rewrite keys_combine; [exact Hin|].
      now rewrite length_map. }
    now rewrite M in F. }
  exists k. split; [exact Hk|].
  unfold built. rewrite !map_app. cbn [map fst snd].
  rewrite !dict_set_fresh, !combine_snoc;
    try (now rewrite length_map);
    try (apply not_mem_combine; [now rewrite length_map | exact Hk]).
  reflexivity.
Qed.

Lemma fold_add_section_built (secs2 : list (str * str)) :
  forall ks secs1,
    NoDup ks -> List.length ks = List.length secs1 -> Forall tidy secs2 ->
    exists ks',
      NoDup ks' /\ List.length ks' = List.length (secs1 ++ secs2)
      /\ fold_left add_section secs2 (built ks secs1) = built ks' (secs1 ++ secs2).
Proof.
  induction secs2 as [|[h b] secs2 IH]; intros ks secs1 Hnd Hl Ht.
  - exists ks. rewrite app_nil_r. auto.
  - inversion Ht as [|? ? [(_ & Hh & _) [Hb _]] Hrest]; subst. cbn [fst snd] in *.
    destruct (add_section_built ks secs1 Hl Hh Hb) as (k & Hk & E).
    cbn [fold_left]. rewrite E.
    destruct (IH (ks ++ [k]) (secs1 ++ [(h, b)])) as (ks' & Hnd' & Hl' & E').
    + apply NoDup_app; [exact Hnd | repeat constructor; intros [] |].
      intros x Hx [<-|[]]. contradiction.
    + rewrite !length_app. cbn [List.length]. lia.
    + exact Hrest.
    + exists ks'. rewrite <- app_assoc in Hl', E'. auto.
Qed.

(** The text written for each key of a document built from tidy
    sections is the chunk of its section. *)
Lemma section_texts_built (ks : list str) :
  forall (secs : list (str * str)) (o : list str),
    NoDup ks -> List.length ks = List.length secs ->
    Forall (fun sec => strip (snd sec) = snd sec) secs ->
    map (section_text {| sections := combine ks (map snd secs);
                         order := o;
                         headings := combine ks (map fst secs) |} []) ks
    = map chunk secs.
Proof.
  induction ks as [|k ks IH]; intros [|[h b] secs] o Hnd Hl Hs;
    try discriminate; [reflexivity|].
  inversion Hnd as [|? ? Hk Hnd']; subst.
  inversion Hs as [|? ? Hb Hs']; subst. cbn [fst snd] in *.
  cbn [map combine fst snd]. f_equal.
  - unfold section_text, chunk. cbn [headings sections dict_get fst snd].
    now rewrite str_eqb_refl, Hb.
  - rewrite <- (IH secs o Hnd'); [|now injection Hl | exact Hs'].
    apply map_ext_in. intros k' Hk'.
    unfold section_text. cbn [headings sections dict_get].
    destruct (str_eqb k k') eqn:E; [|reflexivity].
    apply str_eqb_eq in E. subst k'. contradiction.
Qed.
End UniqueKeys.

Section RoundTrip.
Import Markdown.

Lemma add_section_strip (d : ParsedDocument) (h g1 g2 : str) :
  strip g1 = strip g2 -> add_section d (h, g1) = add_section d (h, g2).
Proof. intros H. unfold add_section. cbn [fst snd]. now rewrite H. Qed.

Lemma fold_blocks (secs : list (str * str)) :
  Forall tidy secs ->
  forall d, fold_left add_section (blocks_of secs) d = fold_left add_section secs d.
Proof.
  induction secs as [|[h b] rest IH]; intros Ht d; [reflexivity|].
  inversion Ht as [|? ? [_ [Hb _]] Hrest]; subst. cbn [fst snd] in *.
  destruct (strip_feed_body Hb) as [E1 E2].
  cbn [blocks_of]. destruct rest as [|s2 rest].
  - cbn [fold_left]. apply add_section_strip.
    destruct b as [|c b]; [reflexivity|]. cbn [last_gap]. now rewrite E1, Hb.
  - change (fold_left add_section ((h, b) :: s2 :: rest) d)
      with (fold_left add_section (s2 :: rest) (add_section d (h, b))).
    change (fold_left add_section ((h, NL :: b ++ [NL; NL]) :: blocks_of (s2 :: rest)) d)
      with (fold_left add_section (blocks_of (s2 :: rest))
                      (add_section d (h, NL :: b ++ [NL; NL]))).
    rewrite (IH Hrest).
    f_equal. apply add_section_strip. now rewrite E2, Hb.
Qed.

(** Parsing the layout of tidy sections files each section, in order,
    under a key of its own. *)
Lemma parse_layout (secs : list (str * str)) :
  secs <> [] -> Forall tidy secs ->
  exists ks,
    NoDup ks /\ List.length ks = List.length secs
    /\ _parse_markdown_sections (layout secs) = built ks secs.
Proof.
  intros Hne Ht. rewrite (layout_flatten Hne Ht).
  unfold _parse_markdown_sections, Regex.finditer_spans.
  rewrite (scan_layout None eq_refl Ht), spans_tokens.
  destruct (@fold_add_section_built secs [] [] (NoDup_nil _) eq_refl Ht)
    as (ks & Hnd & Hl & E).
  cbn [app] in Hl, E.
  exists ks. repeat split; [exact Hnd | exact Hl |].
  rewrite <- E, <- (fold_blocks Ht).
  destruct secs as [|[h b] rest]; [contradiction|].
  cbn [blocks_of]. now destruct rest.
Qed.
End RoundTrip.

(** C2, the claim as it stands fails: what stands before the first
    second-level heading is not written back, and sections that follow
    one another without a blank line come back with one. *)
Lemma round_trip_loses_text :
  contains (py "## ") (py "# Title\n\n## Overview\nText") = true
  /\ Markdown._merge_sections
       (Markdown._parse_markdown_sections (py "# Title\n\n## Overview\nText")) []
     = py "## Overview\nText"
  /\ rstrip (Markdown._merge_sections
               (Markdown._parse_markdown_sections (py "# Title\n\n## Overview\nText")) [])
     <> rstrip (py "# Title\n\n## Overview\nText")
  /\ rstrip (Markdown._merge_sections
               (Markdown._parse_markdown_sections (py "## A\nx\n## B\ny")) [])
     <> rstrip (py "## A\nx\n## B\ny").
Proof.
  split; [reflexivity|]. split; [vm_compute; reflexivity|].
  split; vm_compute; discriminate.
Qed.

(** C2, amended.  For a document in the layout the serialiser writes
    (nothing before the first heading; every heading a line [## ] and
    its trimmed, non-empty title; every body trimmed, without a line
    that starts with two hashes and white space, and followed by one
    blank line before the next heading), parsing and merging with no
    update gives the document back, character for character. *)
Theorem layout_round_trip (secs : list (str * str)) :
  secs <> [] -> Forall Markdown.tidy secs ->
  Markdown._merge_sections (Markdown._parse_markdown_sections (Markdown.layout secs)) []
  = Markdown.layout secs.
Proof.
  intros Hne Ht.
  destruct (parse_layout Hne Ht) as (ks & Hnd & Hl & ->).
  unfold Markdown._merge_sections, Markdown.layout.
  cbn [Markdown.order Markdown.built]. f_equal. f_equal.
  apply (section_texts_built (secs:=secs) ks Hnd Hl).
  apply Forall_forall. intros sec Hsec.
  rewrite Forall_forall in Ht. now destruct (Ht sec Hsec) as [_ [H _]].
Qed.

Lemma layout_round_trip_witness :
  Markdown._merge_sections
    (Markdown._parse_markdown_sections
       (py "## Overview\nText\n### Detail\nmore\n\n## Notes\n\n\n## Changelog\n- a\n- b")) []
  = py "## Overview\nText\n### Detail\nmore\n\n## Notes\n\n\n## Changelog\n- a\n- b".
Proof.
  refine (@layout_round_trip
            [(py "Overview", py "Text\n### Detail\nmore"); (py "Notes", []);
             (py "Changelog", py "- a\n- b")] _ _).
  - discriminate.
  - repeat constructor; discriminate.
Defined.

(* ================================================================== *)
(** * Further properties                                               *)
(* ================================================================== *)

(* ------------------------------------------------------------------ *)
(** ** Retry-wrapped completion client                                 *)
(* ------------------------------------------------------------------ *)

Section RetryEnds.
Import Backoff.
Variable R : Type.
Variable e : env.
Variable llm : backend R.
Variable jitter : nat -> float.
Variable sleep : clock.

(** The loop ends whatever the backend and the clock do: each turn that
    goes on uses up one of the retries that are left. *)
Lemma retry_loop_terminates (fuel : nat) :
  forall attempt w,
    Z.to_nat (LLM_MAX_RETRIES e - attempt) < fuel ->
    exists out w',
      retry_loop e llm jitter sleep fuel attempt w = Some (out, w')
      /\ calls w < calls w'
      /\ calls w' <= calls w + Z.to_nat (LLM_MAX_RETRIES e - attempt) + 1
      /\ List.length (slept w') + calls w + 1 = calls w' + List.length (slept w).
Proof.
  induction fuel as [|fuel IH]; intros attempt w Hf; [lia|].
  cbn [retry_loop]. destruct (llm (calls w)) as [err|r].
  - destruct ((attempt + 1 >? LLM_MAX_RETRIES e)%Z
              || negb (_is_retryable_error e err)) eqn:E.
    + eexists _, _. split; [reflexivity|]. cbn [calls slept]. lia.
    + apply orb_false_iff in E as [E _].
      rewrite Z.gtb_ltb in E. apply Z.ltb_ge in E.
      destruct (backoff e (attempt + 1) (jitter (List.length (slept w)))) as [d|].
      * destruct (sleep d) as [msg|].
        -- eexists _, _. split; [reflexivity|]. cbn [calls slept]. lia.
        -- edestruct (IH (attempt + 1)%Z) as (out & w' & H1 & H2 & H3 & H4);
             [|rewrite H1; eexists _, _; split; [reflexivity|];
               cbn [calls slept List.length] in *; lia].
           lia.
      * eexists _, _. split; [reflexivity|]. cbn [calls slept]. lia.
  - eexists _, _. split; [reflexivity|]. cbn [calls slept]. lia.
Qed.
End RetryEnds.

(** X1. [invoke_with_retry] always comes to an end: it returns or
    raises after at least one call and at most LLM_MAX_RETRIES + 1 calls
    (one call when the setting is zero or negative), and it has slept
    once between any two calls. *)
Theorem invoke_with_retry_terminates (R : Type) (e : Backoff.env)
        (llm : Backoff.backend R) (jitter : nat -> float) (sleep : Backoff.clock) :
  exists out w,
    Backoff.invoke_with_retry e llm jitter sleep = Some (out, w)
    /\ 1 <= Backoff.calls w <= S (Z.to_nat (Backoff.LLM_MAX_RETRIES e))
    /\ List.length (Backoff.slept w) + 1 = Backoff.calls w.
Proof.
  unfold Backoff.invoke_with_retry.
  destruct (@retry_loop_terminates R e llm jitter sleep
              (S (Z.to_nat (Backoff.LLM_MAX_RETRIES e))) 0%Z
              {| Backoff.calls := 0; Backoff.slept := [] |})
    as (out & w & H1 & H2 & H3 & H4).
  - rewrite Z.sub_0_r. lia.
  - exists out, w. rewrite Z.sub_0_r in H3. cbn [Backoff.calls Backoff.slept List.length] in *.
    split; [exact H1|]. lia.
Qed.

(** X2. When the first [k] calls fail with transient errors, [k] being
    within the retries allowed, and the pause after each of them goes
    through (the delay is computed and [time.sleep] takes it), the
    outcome is that of call [k + 1]: a response is returned, and an error
    that is not transient is raised without another call; either way
    after [k + 1] calls and [k] sleeps. *)
Theorem retry_settles_on_first_final_answer (R : Type) (e : Backoff.env)
        (llm : Backoff.backend R) (jitter : nat -> float) (sleep : Backoff.clock)
        (k : nat) :
  (Z.of_nat k <= Backoff.LLM_MAX_RETRIES e)%Z ->
  (forall i, i < k -> exists err,
        llm i = inl err /\ Backoff._is_retryable_error e err = true) ->
  (forall i, i < k -> Backoff.pause_ok e jitter sleep i = true) ->
  exists sl,
    List.length sl = k
    /\ (forall r, llm k = inr r ->
          Backoff.invoke_with_retry e llm jitter sleep
          = Some (Backoff.Returned r, {| Backoff.calls := S k; Backoff.slept := sl |}))
    /\ (forall err, llm k = inl err -> Backoff._is_retryable_error e err = false ->
          Backoff.invoke_with_retry e llm jitter sleep
          = Some (Backoff.Raised err, {| Backoff.calls := S k; Backoff.slept := sl |})).
Proof.
  intros Hk Ht Hp.
  destruct (@invoke_transient_prefix R e llm jitter sleep k Hk Ht Hp) as (sl & H1 & H2).
  exists sl. split; [exact H2|]. rewrite H1. split.
  - intros r Hr. cbn [Backoff.retry_loop Backoff.calls Backoff.slept]. now rewrite Hr.
  - intros err Hl Hn. cbn [Backoff.retry_loop Backoff.calls Backoff.slept].
    rewrite Hl, Hn. cbn [negb]. now rewrite orb_true_r.
Qed.

(** X3. A pause that fails ends the retries.  When the first [k + 1]
    calls fail with transient errors, a retry is still allowed and the
    first [k] pauses went through, then an exception of the pause after
    call [k + 1] is what the wrapper ends with, after [k + 1] calls and
    [k] sleeps: the OverflowError of the product when [2 ** k] is too
    large for a float, else whatever [time.sleep] raises for the delay (a
    negative delay, say); the error of the call itself is not raised and
    no further call is made. *)
Theorem failed_pause_ends_retries (R : Type) (e : Backoff.env)
        (llm : Backoff.backend R) (jitter : nat -> float) (sleep : Backoff.clock)
        (k : nat) :
  (Z.of_nat k < Backoff.LLM_MAX_RETRIES e)%Z ->
  (forall i, i <= k -> exists err,
        llm i = inl err /\ Backoff._is_retryable_error e err = true) ->
  (forall i, i < k -> Backoff.pause_ok e jitter sleep i = true) ->
  exists sl,
    List.length sl = k
    /\ (Backoff.backoff e (Z.of_nat (S k)) (jitter k) = None ->
        Backoff.invoke_with_retry e llm jitter sleep
        = Some (Backoff.Overflowed, {| Backoff.calls := S k; Backoff.slept := sl |}))
    /\ (forall d msg,
          Backoff.backoff e (Z.of_nat (S k)) (jitter k) = Some d -> sleep d = Some msg ->
          Backoff.invoke_with_retry e llm jitter sleep
          = Some (Backoff.SleepRaised msg,
                  {| Backoff.calls := S k; Backoff.slept := sl |})).
Proof.
  intros Hk Ht Hp.
  destruct (@invoke_transient_prefix R e llm jitter sleep k) as (sl & H1 & H2);
    [lia | intros i Hi; apply Ht; lia | exact Hp |].
  exists sl. split; [exact H2|]. rewrite H1.
  destruct (Ht k (le_n k)) as (err & Hl & Hr).
  assert (Hgo : ((Z.of_nat k + 1 >? Backoff.LLM_MAX_RETRIES e)%Z
                 || negb (Backoff._is_retryable_error e err)) = false).
  { rewrite Hr. cbn [negb]. rewrite orb_false_r.
    rewrite Z.gtb_ltb. apply Z.ltb_ge. lia. }
  replace (Z.of_nat (S k)) with (Z.of_nat k + 1)%Z by lia.
  split.
  - intros Hb. cbn [Backoff.retry_loop Backoff.calls Backoff.slept].
    rewrite Hl, Hgo, H2, Hb. reflexivity.
  - intros d msg Hb Hs. cbn [Backoff.retry_loop Backoff.calls Backoff.slept].
    rewrite Hl, Hgo, H2, Hb, Hs. reflexivity.
Qed.

Lemma lower_app (a b : str) : lower (a ++ b) = lower a ++ lower b.
Proof. apply map_app. Qed.

(** X4. The test for a transient error does not look at letter case:
    an error text in which one of the default markers (rate limit,
    timeout, overloaded, 429) occurs in any mix of capitals is
    retryable, whatever LLM_RETRYABLE_ERROR_SUBSTRINGS holds. *)
Theorem retryable_whatever_the_case (e : Backoff.env) (pre marker post : str) :
  In (lower marker) Backoff.RETRYABLE_DEFAULT ->
  Backoff._is_retryable_error e (pre ++ marker ++ post) = true.
Proof.
  intros H. unfold Backoff._is_retryable_error.
  apply existsb_exists. exists (lower marker). split.
  - apply in_or_app. now left.
  - rewrite !lower_app. apply contains_app.
Qed.

(* ------------------------------------------------------------------ *)
(** ** Diff parsing and matching                                       *)
(* ------------------------------------------------------------------ *)

Lemma startswith_longer (p a b : str) :
  List.length p <= List.length a -> startswith p (a ++ b) = startswith p a.
Proof.
  revert a; induction p as [|x p IH]; intros a H; [reflexivity|].
  destruct a as [|y a]; [cbn in H; lia|].
  cbn [app startswith]. rewrite IH; [reflexivity | cbn in H; lia].
Qed.

Lemma split_from_skip (sep m rest : str) :
  split_from sep (List.length m) (m ++ rest) = split_from sep 0 rest.
Proof. induction m as [|c m IH]; [reflexivity | exact IH]. Qed.

Lemma split_sep_head (sep rest : str) :
  sep <> [] -> split sep (sep ++ rest) = [] :: split sep rest.
Proof.
  intros Hs. destruct sep as [|x sep]; [contradiction|].
  unfold split. cbn [app split_from].
  change (x :: sep ++ rest) with ((x :: sep) ++ rest).
  rewrite startswith_app. cbn [List.length Nat.sub].
  now rewrite Nat.sub_0_r, split_from_skip.
Qed.

Lemma split_cons_miss (sep : str) (c : ascii) (t : str) :
  startswith sep (c :: t) = false ->
  split sep (c :: t)
  = match split sep t with
    | [] => [[c]]
    | h :: r => (c :: h) :: r
    end.
Proof. intros H. unfold split. cbn [split_from]. now rewrite H. Qed.

(** A chunk in which the separator does not start is cut off whole. *)
Lemma split_quiet_chunk (sep c rest : str) :
  sep <> [] -> DiffParse.quiet sep c = true ->
  split sep (c ++ sep ++ rest) = c :: split sep rest.
Proof.
  intros Hs. induction c as [|x c IH]; intros Hq.
  - cbn [app]. now apply split_sep_head.
  - cbn [DiffParse.quiet] in Hq. apply andb_true_iff in Hq as [H1 H2].
    apply negb_true_iff in H1.
    cbn [app]. rewrite split_cons_miss, (IH H2); [reflexivity|].
    change (x :: c ++ sep ++ rest) with ((x :: c) ++ sep ++ rest).
    rewrite app_assoc, startswith_longer; [exact H1|].
    rewrite length_app. lia.
Qed.

Lemma split_quiet_last (sep c : str) :
  DiffParse.quiet sep c = true -> split sep c = [c].
Proof.
  induction c as [|x c IH]; intros Hq; [reflexivity|].
  cbn [DiffParse.quiet] in Hq. apply andb_true_iff in Hq as [H1 H2].
  apply negb_true_iff in H1.
  rewrite split_cons_miss, (IH H2); [reflexivity|].
  destruct (startswith sep (x :: c)) eqn:E; [|reflexivity].
  apply startswith_spec in E as [t Et].
  rewrite Et, <- app_assoc, startswith_app in H1. discriminate.
Qed.

Lemma split_no_sep (sep s : str) : contains sep s = false -> split sep s = [s].
Proof.
  induction s as [|c s IH]; intros H; [reflexivity|].
  rewrite contains_unfold in H. apply orb_false_iff in H as [H1 H2].
  now rewrite split_cons_miss, (IH H2).
Qed.

Section ParseDiff.
Import DiffParse.

Lemma diff_git_not_nil : DIFF_GIT <> [].
Proof. discriminate. Qed.

Lemma unified_cons (f : str * str) (fs : list (str * str)) :
  unified (f :: fs) = DIFF_GIT ++ git_chunk f ++ unified fs.
Proof. unfold unified, git_block. cbn [map List.concat]. now rewrite <- app_assoc. Qed.

Lemma split_chunks (fs : list (str * str)) :
  forall f,
    Forall well_formed (f :: fs) ->
    split DIFF_GIT (git_chunk f ++ unified fs) = git_chunk f :: map git_chunk fs.
Proof.
  induction fs as [|g gs IH]; intros f Hw.
  - inversion Hw as [|? ? (_ & _ & Hq) _]; subst.
    change (unified []) with (@nil ascii). rewrite app_nil_r.
    now apply split_quiet_last.
  - inversion Hw as [|? ? (_ & _ & Hq) Hrest]; subst.
    rewrite unified_cons, split_quiet_chunk; [|exact diff_git_not_nil | exact Hq].
    cbn [map]. f_equal. now apply IH.
Qed.

Lemma split_unified (fs : list (str * str)) :
  fs <> [] -> Forall well_formed fs ->
  split DIFF_GIT (unified fs) = [] :: map git_chunk fs.
Proof.
  intros Hne Hw. destruct fs as [|f fs]; [contradiction|].
  rewrite unified_cons, split_sep_head by exact diff_git_not_nil.
  f_equal. now apply split_chunks.
Qed.

Lemma strip_not_nil (c : ascii) (t : str) : is_space c = false -> strip (c :: t) <> [].
Proof.
  intros Hc H. apply strip_nil_rstrip in H. unfold rstrip in H.
  apply (f_equal (@rev ascii)) in H. rewrite rev_involutive in H.
  cbn [rev] in H. rewrite drop_while_app in H.
  destruct (drop_while is_space (rev t)); [|discriminate].
  cbn in H. now rewrite Hc in H.
Qed.

Lemma strip_no_space (s : str) :
  forallb (fun c => negb (is_space c)) s = true -> strip s = s.
Proof.
  intros H. destruct s as [|c s]; [reflexivity|].
  assert (Hall : forall x, In x (c :: s) -> is_space x = false).
  { intros x Hx. rewrite forallb_forall in H. now apply negb_true_iff, H. }
  unfold strip. rewrite rstrip_solid.
  - unfold lstrip. cbn [drop_while]. now rewrite (Hall c (or_introl eq_refl)).
  - destruct (@exists_last _ (c :: s)) as (y & z & E); [discriminate|].
    exists y, z. split; [exact E|]. apply Hall. rewrite E.
    apply in_or_app. right. now left.
Qed.

Lemma lazy_path_found (p rest : str) :
  forallb (fun c => negb (is_space c)) p = true ->
  lazy_path (p ++ py " b/" ++ rest) = Some p.
Proof.
  induction p as [|c p IH]; intros H.
  - reflexivity.
  - cbn [forallb] in H. apply andb_true_iff in H as [H1 H2].
    apply negb_true_iff in H1.
    cbn [app lazy_path]. unfold space_then_b at 1. cbn [take_while].
    rewrite H1, (space_not_nl _ H1), (IH H2). reflexivity.
Qed.

Lemma search_a_path_head (rest g : str) :
  lazy_path rest = Some g -> search_a_path (py "a/" ++ rest) = Some g.
Proof.
  intros H. change (py "a/" ++ rest) with ("a"%char :: "/"%char :: rest).
  unfold search_a_path at 1.
  change (startswith (py "a/") ("a"%char :: "/"%char :: rest)) with true.
  cbn [skipn]. now rewrite H.
Qed.

(** The chunk of a well-formed block is filed under its path. *)
Lemma add_chunk_git (m : dict str) (f : str * str) :
  well_formed f -> add_chunk m (git_chunk f) = dict_set (fst f) (git_block f) m.
Proof.
  destruct f as [p body]. intros (Hne & Hsp & _). cbn [fst snd] in *.
  unfold add_chunk.
  assert (Hs : strip (git_chunk (p, body)) <> []) by (now apply strip_not_nil).
  destruct (strip (git_chunk (p, body))); [contradiction|].
  assert (Hl : first_line (git_chunk (p, body)) = py "a/" ++ p ++ py " b/" ++ p).
  { unfold first_line, git_chunk. cbn [fst snd].
    replace (py "a/" ++ p ++ py " b/" ++ p ++ py "\n" ++ body)
      with ((py "a/" ++ p ++ py " b/" ++ p) ++ py "\n" ++ body)
      by (now rewrite <- !app_assoc).
    apply take_while_stop.
    - rewrite !forallb_app. cbn [py]. 
      assert (Hp : forallb (fun c => negb (chr_eqb c NL)) p = true).
      { apply forallb_forall. intros x Hx. rewrite forallb_forall in Hsp.
        apply negb_true_iff, space_not_nl, negb_true_iff. now apply Hsp. }
      now rewrite Hp.
    - right. exists NL, body. split; [reflexivity|]. now rewrite chr_eqb_refl. }
  rewrite Hl, (@search_a_path_head _ _ (lazy_path_found p p Hsp)), (strip_no_space _ Hsp).
  reflexivity.
Qed.

Lemma fold_add_chunks (fs : list (str * str)) :
  forall m,
    Forall well_formed fs -> NoDup (keys m ++ map fst fs) ->
    fold_left add_chunk (map git_chunk fs) m
    = m ++ map (fun f => (fst f, git_block f)) fs.
Proof.
  induction fs as [|f fs IH]; intros m Hw Hnd.
  - cbn. now rewrite app_nil_r.
  - inversion Hw as [|? ? Hf Hrest]; subst.
    cbn [map fold_left]. rewrite (add_chunk_git m Hf).
    assert (Hfresh : dict_mem (fst f) m = false).
    { destruct (dict_mem (fst f) m) eqn:E; [|reflexivity].
      apply dict_mem_keys in E. apply NoDup_remove_2 in Hnd.
      exfalso. apply Hnd. apply in_or_app. now left. }
    rewrite (@dict_set_fresh _ _ _ _ Hfresh), IH.
    + now rewrite <- app_assoc.
    + exact Hrest.
    + unfold keys in *. rewrite map_app. cbn [map fst].
      rewrite <- app_assoc. exact Hnd.
Qed.

Lemma dict_get_listed {V : Type} (d : dict V) (k : str) (v : V) :
  NoDup (keys d) -> In (k, v) d -> dict_get k d = Some v.
Proof.
  induction d as [|[k' v'] d IH]; intros Hnd Hin; [contradiction|].
  cbn [keys map fst] in Hnd. inversion Hnd as [|? ? Hk Hnd']; subst.
  cbn [dict_get]. destruct Hin as [E|Hin].
  - injection E as -> ->. now rewrite str_eqb_refl.
  - destruct (str_eqb k' k) eqn:E.
    + apply str_eqb_eq in E. subst k'. exfalso. apply Hk.
      change k with (fst (k, v)). now apply in_map.
    + now apply IH.
Qed.
End ParseDiff.

(** X5. A unified diff made of blocks for different paths, each block
    opening with the header line [diff --git a/<path> b/<path>] (the
    path without white space, no further block marker inside the
    block), is cut into exactly these blocks, keyed by path in the
    order of the diff; and looking a path up gives its block back,
    marker included. *)
Theorem parse_diff_round_trip (files : list (str * str)) :
  NoDup (map fst files) -> Forall DiffParse.well_formed files ->
  DiffParse._parse_diff_to_map (DiffParse.unified files)
  = map (fun f => (fst f, DiffParse.git_block f)) files
  /\ forall f, In f files ->
       _find_diff_for_file (fst f) (DiffParse._parse_diff_to_map (DiffParse.unified files))
       = DiffParse.git_block f.
Proof.
  intros Hnd Hw.
  assert (E : DiffParse._parse_diff_to_map (DiffParse.unified files)
              = map (fun f => (fst f, DiffParse.git_block f)) files).
  { destruct files as [|f fs]; [reflexivity|].
    unfold DiffParse._parse_diff_to_map.
    rewrite (@split_unified (f :: fs)); [|discriminate | exact Hw].
    rewrite unified_cons.
    change (DiffParse.DIFF_GIT ++ DiffParse.git_chunk f ++ DiffParse.unified fs)
      with ("d"%char :: skipn 1 DiffParse.DIFF_GIT
                ++ DiffParse.git_chunk f ++ DiffParse.unified fs).
    cbv iota. cbn [fold_left].
    change (DiffParse.add_chunk [] []) with (@nil (str * str)).
    now rewrite (@fold_add_chunks (f :: fs) [] Hw Hnd). }
  split; [exact E|].
  intros f Hf. rewrite E. unfold _find_diff_for_file.
  rewrite (@dict_get_listed _ _ (fst f) (DiffParse.git_block f)); [reflexivity| |].
  - unfold keys. rewrite map_map. cbn [fst]. exact Hnd.
  - change (fst f, DiffParse.git_block f)
      with ((fun f0 => (fst f0, DiffParse.git_block f0)) f).
    now apply in_map.
Qed.

Lemma dict_set_in {V : Type} (k : str) (v : V) (d : dict V) (k' : str) (v' : V) :
  In (k', v') (dict_set k v d) -> (k' = k /\ v' = v) \/ In (k', v') d.
Proof.
  induction d as [|[k0 v0] d IH]; cbn [dict_set].
  - intros [E|[]]. injection E as <- <-. now left.
  - destruct (str_eqb k0 k) eqn:E.
    + apply str_eqb_eq in E. subst k0. intros [H|H].
      * injection H as <- <-. now left.
      * right. now right.
    + intros [H|H]; [right; now left|].
      destruct (IH H) as [H'|H']; [now left | right; now right].
Qed.

Lemma keys_dict_set {V : Type} (k : str) (v : V) (d : dict V) :
  keys (dict_set k v d) = if dict_mem k d then keys d else keys d ++ [k].
Proof.
  unfold dict_mem. induction d as [|[k0 v0] d IH]; cbn [dict_set dict_get keys map fst app].
  - reflexivity.
  - destruct (str_eqb k0 k) eqn:E; [reflexivity|].
    cbn [keys map fst]. fold (keys (dict_set k v d)). rewrite IH.
    now destruct (dict_get k d).
Qed.

Lemma dict_set_nodup {V : Type} (k : str) (v : V) (d : dict V) :
  NoDup (keys d) -> NoDup (keys (dict_set k v d)).
Proof.
  intros H. rewrite keys_dict_set. destruct (dict_mem k d) eqn:E; [exact H|].
  apply NoDup_app; [exact H | repeat constructor; intros [] |].
  intros x Hx [<-|[]]. apply dict_mem_keys in Hx. congruence.
Qed.

(** X6. Whatever the diff text, the map [_parse_diff_to_map] returns
    has no key twice, and every block in it is one of the pieces the
    text falls into at the marker [diff --git ], with the marker put
    back in front; in particular every block starts with the marker.
    The empty text gives the empty map. *)
Theorem parse_diff_blocks (diff_content : str) :
  NoDup (keys (DiffParse._parse_diff_to_map diff_content))
  /\ (forall k block, In (k, block) (DiffParse._parse_diff_to_map diff_content) ->
        exists chunk,
          In chunk (split DiffParse.DIFF_GIT diff_content)
          /\ block = DiffParse.DIFF_GIT ++ chunk
          /\ startswith DiffParse.DIFF_GIT block = true)
  /\ DiffParse._parse_diff_to_map [] = [].
Proof.
  assert (G : forall chunks m,
             NoDup (keys m) ->
             NoDup (keys (fold_left DiffParse.add_chunk chunks m))
             /\ forall k block, In (k, block) (fold_left DiffParse.add_chunk chunks m) ->
                  In (k, block) m
                  \/ exists chunk, In chunk chunks /\ block = DiffParse.DIFF_GIT ++ chunk).
  { induction chunks as [|c chunks IH]; intros m Hm.
    - split; [exact Hm | now left].
    - cbn [fold_left].
      assert (Hstep : NoDup (keys (DiffParse.add_chunk m c))
                      /\ forall k block, In (k, block) (DiffParse.add_chunk m c) ->
                           In (k, block) m \/ block = DiffParse.DIFF_GIT ++ c).
      { unfold DiffParse.add_chunk.
        destruct (strip c); [split; [exact Hm | now left]|].
        destruct (DiffParse.search_a_path (DiffParse.first_line c)).
        - split; [now apply dict_set_nodup|].
          intros k block H. apply dict_set_in in H as [[_ ->]|H]; auto.
        - destruct (DiffParse.words (DiffParse.first_line c)) as [|w [|w2 ws]];
            try (split; [exact Hm | now left]).
          split; [now apply dict_set_nodup|].
          intros k block H. apply dict_set_in in H as [[_ ->]|H]; auto. }
      destruct Hstep as [Hn Hin]. destruct (IH _ Hn) as [Hn' Hin'].
      split; [exact Hn'|]. intros k block H.
      destruct (Hin' k block H) as [H1|(chunk & Hc & ->)].
      + destruct (Hin k block H1) as [H2| ->]; [now left | right].
        exists c. split; [now left | reflexivity].
      + right. exists chunk. split; [now right | reflexivity]. }
  split; [|split; [|reflexivity]].
  - destruct diff_content; [constructor|].
    apply G. constructor.
  - intros k block H. destruct diff_content as [|c t]; [contradiction|].
    unfold DiffParse._parse_diff_to_map in H.
    destruct (G (split DiffParse.DIFF_GIT (c :: t)) [] (NoDup_nil _)) as [_ Hin].
    destruct (Hin k block H) as [[]|(chunk & Hc & ->)].
    exists chunk. split; [exact Hc|]. split; [reflexivity | apply startswith_app].
Qed.

Section LoaderDiff.
Import DiffParse DataLoader.

Lemma diff_part_feed (fc : FileChange) : exists t, diff_part fc = NL :: t.
Proof. unfold diff_part. now eexists. Qed.

Lemma diff_content_feed (fcs : list FileChange) :
  diff_content fcs = [] \/ exists t, diff_content fcs = NL :: t.
Proof.
  unfold diff_content. destruct fcs as [|fc fcs]; [now left | right].
  destruct (diff_part_feed fc) as [t Ht]. cbn [map join].
  destruct (map diff_part fcs); rewrite Ht; now eexists.
Qed.

(** A text that starts with a line feed and holds no block marker
    gives no entry: its one chunk has an empty first line. *)
Lemma parse_headless (t : str) :
  contains DIFF_GIT (NL :: t) = false -> _parse_diff_to_map (NL :: t) = [].
Proof.
  intros H. unfold _parse_diff_to_map. rewrite (split_no_sep _ _ H).
  cbn [fold_left]. unfold add_chunk.
  destruct (strip (NL :: t)); [reflexivity|].
  reflexivity.
Qed.

Lemma startswith_sep (c : ascii) (m : str) :
  without c m = true ->
  forall a b, startswith m (a ++ c :: b) = startswith m a.
Proof.
  induction m as [|x m IH]; intros Hm a b; [reflexivity|].
  cbn [without forallb] in Hm. apply andb_true_iff in Hm as [Hx Hm].
  destruct a as [|y a]; cbn [app startswith].
  - apply negb_true_iff in Hx. now rewrite Hx.
  - f_equal. now apply IH.
Qed.

Lemma contains_sep (c x : ascii) (m a b : str) :
  without c (x :: m) = true ->
  contains (x :: m) (a ++ c :: b) = contains (x :: m) a || contains (x :: m) b.
Proof.
  intros Hm. induction a as [|y a IH].
  - cbn [app]. rewrite (contains_unfold _ (c :: b)).
    change (c :: b) with ([] ++ c :: b) at 1. rewrite (@startswith_sep c (x :: m) Hm).
    reflexivity.
  - cbn [app]. rewrite (contains_unfold _ (y :: a ++ c :: b)), (contains_unfold _ (y :: a)).
    change (y :: a ++ c :: b) with ((y :: a) ++ c :: b). rewrite (@startswith_sep c (x :: m) Hm).
    rewrite IH. now rewrite orb_assoc.
Qed.

Lemma contains_skip (x y : ascii) (m s : str) :
  chr_eqb x y = false -> contains (x :: m) (y :: s) = contains (x :: m) s.
Proof. intros H. rewrite contains_unfold. cbn [startswith]. now rewrite H. Qed.

Lemma contains_without (x : ascii) (m s : str) :
  without x s = true -> contains (x :: m) s = false.
Proof.
  induction s as [|y s IH]; intros H; [reflexivity|].
  cbn [without forallb] in H. apply andb_true_iff in H as [Hy Hs].
  rewrite contains_skip; [now apply IH|].
  apply negb_true_iff in Hy. rewrite <- Hy. apply Ascii.eqb_sym.
Qed.

Lemma without_app (c : ascii) (a b : str) :
  without c (a ++ b) = without c a && without c b.
Proof. apply forallb_app. Qed.

(** The decimal writing of an integer has no letter. *)
Lemma uint_without_d (u : Decimal.uint) :
  without "d" (list_ascii_of_string (NilEmpty.string_of_uint u)) = true.
Proof. induction u; cbn; auto. Qed.

Lemma show_int_without_d (v : option Z) : without "d" (show_int v) = true.
Proof.
  destruct v as [n|]; [|reflexivity].
  unfold show_int, str_of_Z, NilEmpty.string_of_int.
  destruct (Z.to_int n); [apply uint_without_d|].
  cbn [list_ascii_of_string without forallb]. apply uint_without_d.
Qed.

Lemma patch_or_note_marker (v : option str) :
  contains DIFF_GIT (patch_or_note v) = holds_marker v.
Proof. destruct v as [[|c p]|]; reflexivity. Qed.

Lemma show_str_marker (v : option str) :
  contains DIFF_GIT (show_str v) = holds_marker v.
Proof. destruct v; reflexivity. Qed.

Lemma diff_part_layout (fc : FileChange) :
  diff_part fc
  = NL :: "#"%char :: "#"%char :: "#"%char :: " "%char
       :: ((filename fc ++ py " ") ++ "("%char
       :: (show_str (status fc) ++ ")"%char
       :: (NL :: "+"%char
              :: (show_int (additions fc) ++ py " -" ++ show_int (deletions fc))
       ++ NL :: (NL :: patch_or_note (patch fc) ++ NL :: [])))).
Proof.
  unfold diff_part.
  change (py "\n### ") with [NL; "#"%char; "#"%char; "#"%char; " "%char].
  change (py " (") with (py " " ++ ["("%char]).
  change (py ")\n") with [")"%char; NL].
  change (py "+") with ["+"%char].
  change (py "\n\n") with [NL; NL].
  change (py "\n") with [NL].
  cbn [app]. rewrite <- !app_assoc. cbn [app]. reflexivity.
Qed.

(** The marker is in the text of a row exactly when a field brings it
    in. *)
Lemma diff_part_marker (fc : FileChange) :
  contains DIFF_GIT (diff_part fc) = negb (marker_free fc).
Proof.
  rewrite diff_part_layout.
  change DIFF_GIT with ("d"%char :: list_ascii_of_string "iff --git ").
  rewrite 5 contains_skip by reflexivity.
  rewrite contains_sep by reflexivity.
  rewrite contains_sep by reflexivity.
  rewrite 2 contains_skip by reflexivity.
  rewrite contains_sep by reflexivity.
  rewrite (@contains_without "d"%char _ (show_int _ ++ _)).
  2:{ rewrite !without_app, !show_int_without_d. reflexivity. }
  rewrite contains_skip by reflexivity.
  rewrite contains_sep by reflexivity.
  change ("d"%char :: list_ascii_of_string "iff --git ") with DIFF_GIT.
  rewrite show_str_marker, patch_or_note_marker.
  unfold marker_free. cbn [orb]. rewrite orb_false_r.
  rewrite !negb_andb, !negb_involutive. now rewrite orb_assoc.
Qed.

Lemma diff_content_marker (fcs : list FileChange) :
  forallb marker_free fcs = true -> contains DIFF_GIT (diff_content fcs) = false.
Proof.
  unfold diff_content. induction fcs as [|fc fcs IH]; intros H; [reflexivity|].
  cbn [forallb] in H. apply andb_true_iff in H as [Hfc Hrest].
  assert (Hp : contains DIFF_GIT (diff_part fc) = false)
    by (rewrite diff_part_marker, Hfc; reflexivity).
  cbn [map join]. destruct (map diff_part fcs) as [|p ps] eqn:E; [exact Hp|].
  change (py "\n") with (NL :: []). cbn [app].
  change DIFF_GIT with ("d"%char :: list_ascii_of_string "iff --git ") in *.
  rewrite contains_sep by reflexivity. rewrite Hp. cbn [orb].
  now apply IH.
Qed.
End LoaderDiff.

(** X7. The diff text that [data_loader_node] builds from the file
    changes (a heading line, the counts and the patch for each file)
    holds no block marker [diff --git ] and gives an empty diff map, as
    long as no field brings the marker in: no status and no patch holds
    it, and no file name followed by a space does (the name neither
    holds the marker nor ends in [diff --git]).  The text starts with a
    line feed, so its only chunk has no header line.  Every file is then
    looked up in vain, and its change type is taken to be [modified]. *)
Theorem loader_diff_has_no_blocks (file_changes : list DataLoader.FileChange) :
  forallb DataLoader.marker_free file_changes = true ->
  contains DiffParse.DIFF_GIT (DataLoader.diff_content file_changes) = false
  /\ DiffParse._parse_diff_to_map (DataLoader.diff_content file_changes) = []
  /\ forall f,
       _find_diff_for_file f
         (DiffParse._parse_diff_to_map (DataLoader.diff_content file_changes)) = []
       /\ _detect_change_type
            (_find_diff_for_file f
               (DiffParse._parse_diff_to_map (DataLoader.diff_content file_changes)))
          = py "modified".
Proof.
  intros Hf. pose proof (diff_content_marker _ Hf) as H. split; [exact H|].
  assert (E : DiffParse._parse_diff_to_map (DataLoader.diff_content file_changes) = []).
  { destruct (diff_content_feed file_changes) as [E|[t E]]; rewrite E in *.
    - reflexivity.
    - now apply parse_headless. }
  split; [exact E|]. intros f. rewrite E. split; reflexivity.
Qed.

Lemma dict_get_in {V : Type} (k : str) (d : dict V) (v : V) :
  dict_get k d = Some v -> In (k, v) d.
Proof.
  induction d as [|[k0 v0] d IH]; cbn [dict_get]; [discriminate|].
  destruct (str_eqb k0 k) eqn:E.
  - apply str_eqb_eq in E. subst k0. intros [= ->]. now left.
  - intros H. right. now apply IH.
Qed.

(** X8. [_find_diff_for_file] never makes a block up: what it returns
    is the empty block or a block stored in the map, and with the empty
    map it is the empty block. *)
Theorem find_diff_returns_stored_block (filename : str) (diff_map : dict str) :
  (_find_diff_for_file filename diff_map = []
   \/ exists key, In (key, _find_diff_for_file filename diff_map) diff_map)
  /\ (diff_map = [] -> _find_diff_for_file filename diff_map = []).
Proof.
  split; [|intros ->; reflexivity].
  unfold _find_diff_for_file.
  destruct (dict_get filename diff_map) as [b|] eqn:E1.
  { right. exists filename. now apply dict_get_in. }
  destruct (dict_get (py "a/" ++ filename) diff_map) as [b|] eqn:E2.
  { right. eexists. apply dict_get_in. exact E2. }
  destruct (find _ diff_map) as [[k c]|] eqn:E3; [|now left].
  right. exists k. now apply find_some in E3 as [H _].
Qed.

(* ------------------------------------------------------------------ *)
(** ** Markdown section model                                          *)
(* ------------------------------------------------------------------ *)

Section SectionKeys.
Import Markdown.

Lemma sub_non_slug_chars (s : str) :
  forall skip prev,
    Forall slug_or_underscore
           (Regex.subst (py "_") (Regex.scan match_non_slug skip prev s)).
Proof.
  induction s as [|c s IH]; intros skip prev; [constructor|].
  cbn [Regex.scan]. destruct skip as [|k]; [|apply IH].
  unfold match_non_slug. cbn [take_while].
  destruct (is_slug_chr c) eqn:E; cbn [negb Regex.subst].
  - constructor; [now left | apply IH].
  - change (py "_") with ["_"%char]. cbn [app].
    constructor; [now right | apply IH].
Qed.

Lemma Forall_drop_while {P : ascii -> Prop} (f : ascii -> bool) (s : str) :
  Forall P s -> Forall P (drop_while f s).
Proof.
  induction 1 as [|c s Hc Hs IH]; cbn; [constructor|].
  destruct (f c); [exact IH | now constructor].
Qed.

Lemma Forall_firstn_str {P : ascii -> Prop} (n : nat) (s : str) :
  Forall P s -> Forall P (firstn n s).
Proof.
  intros H. revert n. induction H as [|c s Hc Hs IH]; intros [|n]; cbn; constructor; auto.
Qed.

Lemma drop_while_head (f : ascii -> bool) (s : str) (c : ascii) (t : str) :
  drop_while f s = c :: t -> f c = false.
Proof.
  induction s as [|x s IH]; cbn; [discriminate|].
  destruct (f x) eqn:E; [exact IH|]. now intros [= <- _].
Qed.
End SectionKeys.

(** X9. A section key is one of the four canonical keys, or a slug: at
    most 40 characters, each a lower-case letter, a digit or an
    underscore, and the first of them not an underscore. *)
Theorem section_key_shape (heading : str) :
  In (Markdown._normalize_section_key heading)
     [py "overview"; py "architecture"; py "modules"; py "changelog"]
  \/ (List.length (Markdown._normalize_section_key heading) <= 40
      /\ Forall Markdown.slug_or_underscore (Markdown._normalize_section_key heading)
      /\ startswith (py "_") (Markdown._normalize_section_key heading) = false).
Proof.
  unfold Markdown._normalize_section_key.
  destruct (find _ Markdown.SECTION_KEY_MAP) as [[key vs]|] eqn:E.
  - left. apply find_some in E as [E _].
    change (In key (map fst Markdown.SECTION_KEY_MAP)).
    change key with (fst (key, vs)). now apply in_map.
  - right. set (x := Regex.sub _ _ _).
    assert (Hx : Forall Markdown.slug_or_underscore x) by apply sub_non_slug_chars.
    split; [|split].
    + rewrite length_firstn. lia.
    + apply Forall_firstn_str. unfold strip_chr.
      apply Forall_drop_while, Forall_rev, Forall_drop_while, Forall_rev, Hx.
    + unfold strip_chr.
      destruct (drop_while (chr_eqb "_") (rev (drop_while (chr_eqb "_") (rev x))))
        as [|c t] eqn:D; [reflexivity|].
      apply drop_while_head in D. cbn [firstn].
      change (py "_") with ["_"%char]. cbn [startswith].
      now rewrite D.
Qed.

Section ParsedShape.
Import Markdown.

Lemma add_section_any (ks : list str) (secs : list (str * str)) (m : str * str) :
  List.length ks = List.length secs ->
  exists k, ~ In k ks
            /\ add_section (built ks secs) m = built (ks ++ [k]) (secs ++ [trimmed m]).
Proof.
  intros Hl. unfold add_section. cbn [sections order headings built].
  set (k := unique_key_loop _ _ _ _ _).
  assert (Hk : ~ In k ks).
  { pose proof (unique_key_fresh (_normalize_section_key (strip (fst m)))
                  (combine ks (map snd secs))) as F.
    fold k in F. intros Hin.
    assert (M : dict_mem k (combine ks (map snd secs)) = true).
    { apply dict_mem_keys. rewrite keys_combine; [exact Hin|].
      now rewrite length_map. }
    now rewrite M in F. }
  exists k. split; [exact Hk|].
  unfold built, trimmed. rewrite !map_app. cbn [map fst snd].
  rewrite !dict_set_fresh, !combine_snoc;
    try (now rewrite length_map);
    try (apply not_mem_combine; [now rewrite length_map | exact Hk]).
  reflexivity.
Qed.

Lemma fold_add_section_any (ms : list (str * str)) :
  forall ks secs,
    NoDup ks -> List.length ks = List.length secs ->
    exists ks',
      NoDup ks' /\ List.length ks' = List.length (secs ++ map trimmed ms)
      /\ fold_left add_section ms (built ks secs) = built ks' (secs ++ map trimmed ms).
Proof.
  induction ms as [|m ms IH]; intros ks secs Hnd Hl.
  - exists ks. cbn [map]. rewrite app_nil_r. auto.
  - destruct (add_section_any ks secs m Hl) as (k & Hk & E).
    cbn [fold_left]. rewrite E.
    destruct (IH (ks ++ [k]) (secs ++ [trimmed m])) as (ks' & Hnd' & Hl' & E').
    + apply NoDup_app; [exact Hnd | repeat constructor; intros [] |].
      intros x Hx [<-|[]]. contradiction.
    + rewrite !length_app. cbn [List.length]. lia.
    + exists ks'. cbn [map]. rewrite <- app_assoc in Hl', E'. auto.
Qed.

(** A document with headings is filed section by section, each under a
    key of its own. *)
Lemma parse_built (content : str) :
  Regex.finditer_spans match_heading content <> [] ->
  exists ks,
    NoDup ks
    /\ List.length ks = List.length (Regex.finditer_spans match_heading content)
    /\ _parse_markdown_sections content
       = built ks (map trimmed (Regex.finditer_spans match_heading content)).
Proof.
  intros Hne. unfold _parse_markdown_sections.
  destruct (@fold_add_section_any (Regex.finditer_spans match_heading content) [] []
              (NoDup_nil _) eq_refl) as (ks & Hnd & Hl & E).
  cbn [app] in Hl, E. rewrite length_map in Hl.
  exists ks. repeat split; [exact Hnd | exact Hl |].
  change empty_document with (built [] []).
  rewrite <- E. now destruct (Regex.finditer_spans match_heading content).
Qed.
End ParsedShape.

(** X10. Whatever the document, the parsed model has no key twice, and
    its section bodies and its headings are filed under exactly the keys
    of [order], in that order; with headings in the document there is
    one key for each heading found. *)
Theorem parsed_keys_unique (content : str) :
  let parsed := Markdown._parse_markdown_sections content in
  NoDup (Markdown.order parsed)
  /\ keys (Markdown.sections parsed) = Markdown.order parsed
  /\ keys (Markdown.headings parsed) = Markdown.order parsed
  /\ (Regex.finditer_spans Markdown.match_heading content <> [] ->
      List.length (Markdown.order parsed)
      = List.length (Regex.finditer_spans Markdown.match_heading content)).
Proof.
  cbv zeta.
  destruct (Regex.finditer_spans Markdown.match_heading content) as [|m ms] eqn:E.
  - unfold Markdown._parse_markdown_sections. rewrite E.
    cbn [Markdown.order Markdown.sections Markdown.headings keys map fst].
    repeat split; [repeat constructor; intros [] | contradiction].
  - destruct (@parse_built content) as (ks & Hnd & Hl & ->); [rewrite E; discriminate|].
    rewrite E in *. cbn [Markdown.built Markdown.order Markdown.sections Markdown.headings].
    rewrite !keys_combine by (rewrite !length_map; exact Hl).
    repeat split; [exact Hnd | intros _; exact Hl].
Qed.

Lemma solid_end_suffix (a x : str) : solid_end (a ++ x) -> x <> [] -> solid_end x.
Proof.
  intros (y & c & E & Hc) Hx.
  destruct (exists_last Hx) as (x' & c' & ->).
  rewrite app_assoc in E. apply app_inj_tail in E as [_ ->].
  now exists x', c.
Qed.

Lemma rstrip_nil_or_solid (s : str) : rstrip s = [] \/ solid_end (rstrip s).
Proof.
  destruct (rstrip s) eqn:E; [now left | right].
  rewrite <- E. apply rstrip_fixed_solid; [apply rstrip_idem | now rewrite E].
Qed.

(** Trimming twice is trimming once. *)
Lemma strip_idem (s : str) : strip (strip s) = strip s.
Proof.
  unfold strip at 2 3. unfold lstrip.
  destruct (drop_while is_space (rstrip s)) as [|c t] eqn:D; [reflexivity|].
  assert (Hc : is_space c = false) by (now apply drop_while_head in D).
  assert (Hs : solid_end (c :: t)).
  { destruct (rstrip_nil_or_solid s) as [E|Hsolid].
    - rewrite E in D. discriminate.
    - rewrite <- (take_drop_while is_space (rstrip s)), D in Hsolid.
      now apply solid_end_suffix in Hsolid. }
  unfold strip. rewrite (rstrip_solid Hs). unfold lstrip. cbn [drop_while].
  now rewrite Hc.
Qed.

Section MergeShape.
Import Markdown Rendering.

Lemma section_texts_any (ks : list str) (updated : dict str) :
  forall (ms : list (str * str)) (o : list str),
    NoDup ks -> List.length ks = List.length ms ->
    map (section_text {| sections := combine ks (map snd (map trimmed ms));
                         order := o;
                         headings := combine ks (map fst (map trimmed ms)) |} updated) ks
    = map (rendered updated) (combine ks ms).
Proof.
  induction ks as [|k ks IH]; intros [|[g gap] ms] o Hnd Hl;
    try discriminate; [reflexivity|].
  inversion Hnd as [|? ? Hk Hnd']; subst.
  cbn [map combine fst snd trimmed]. f_equal.
  - unfold section_text, rendered. cbn [headings sections dict_get fst snd].
    rewrite str_eqb_refl.
    destruct (dict_get k updated); [reflexivity | now rewrite strip_idem].
  - rewrite <- (IH ms o Hnd'); [|now injection Hl].
    apply map_ext_in. intros k' Hk'.
    unfold section_text. cbn [headings sections dict_get].
    destruct (str_eqb k k') eqn:E; [|reflexivity].
    apply str_eqb_eq in E. subst k'. contradiction.
Qed.

Lemma scan_without_hashes (s : str) :
  contains (py "##") s = false ->
  forall prev, Regex.spans (Regex.scan match_heading 0 prev s) = [].
Proof.
  induction s as [|c s IH]; intros H prev; [reflexivity|].
  rewrite contains_unfold in H. apply orb_false_iff in H as [H1 H2].
  cbn [Regex.scan]. unfold match_heading at 1. rewrite H1, andb_false_r.
  cbn [Regex.spans]. now apply IH.
Qed.

Lemma dict_get_set_other {V : Type} (k k' : str) (v : V) (d : dict V) :
  k' <> k -> dict_get k' (dict_set k v d) = dict_get k' d.
Proof.
  intros Hne. induction d as [|[k0 v0] d IH]; cbn [dict_set dict_get].
  - destruct (str_eqb k k') eqn:E; [|reflexivity].
    apply str_eqb_eq in E. congruence.
  - destruct (str_eqb k0 k) eqn:E; cbn [dict_get].
    + apply str_eqb_eq in E. subst k0.
      destruct (str_eqb k k') eqn:E'; [|reflexivity].
      apply str_eqb_eq in E'. congruence.
    + now rewrite IH.
Qed.
End MergeShape.

(** X11. A document in which two hashes never stand together has no
    section heading: it is filed whole, as it is, under the reserved key
    [__full__] with the heading [Document], and writing it back puts
    that heading line in front of the trimmed text. *)
Theorem headless_document_is_one_section (content : str) :
  contains (py "##") content = false ->
  Markdown._parse_markdown_sections content
  = {| Markdown.sections := [(py "__full__", content)];
       Markdown.order := [py "__full__"];
       Markdown.headings := [(py "__full__", py "Document")] |}
  /\ Markdown._merge_sections (Markdown._parse_markdown_sections content) []
     = strip (py "## Document\n" ++ strip content ++ py "\n").
Proof.
  intros H.
  assert (E : Markdown._parse_markdown_sections content
              = {| Markdown.sections := [(py "__full__", content)];
                   Markdown.order := [py "__full__"];
                   Markdown.headings := [(py "__full__", py "Document")] |}).
  { unfold Markdown._parse_markdown_sections, Regex.finditer_spans.
    now rewrite (scan_without_hashes _ H). }
  split; [exact E|]. rewrite E. reflexivity.
Qed.

(** X12. Merging never moves, drops or renames a section.  For a
    document with headings and any map of updates, the output is the
    trimmed text of one block per heading found, in the order of the
    document and under the heading text as it was found; the body of a
    block is the update filed under the key of its section when there is
    one, and the body found in the document otherwise. *)
Theorem merge_keeps_sections (content : str) (updated : dict str) :
  Regex.finditer_spans Markdown.match_heading content <> [] ->
  exists ks,
    NoDup ks
    /\ Markdown.order (Markdown._parse_markdown_sections content) = ks
    /\ List.length ks = List.length (Regex.finditer_spans Markdown.match_heading content)
    /\ Markdown._merge_sections (Markdown._parse_markdown_sections content) updated
       = strip (join (py "\n")
                  (map (Rendering.rendered updated)
                       (combine ks (Regex.finditer_spans Markdown.match_heading content)))).
Proof.
  intros Hne. destruct (@parse_built content Hne) as (ks & Hnd & Hl & E).
  exists ks. rewrite E. cbn [Markdown.order Markdown.built].
  repeat split; [exact Hnd | exact Hl |].
  unfold Markdown._merge_sections. cbn [Markdown.order Markdown.built].
  f_equal. f_equal. now apply section_texts_any.
Qed.

(** X13. An update filed under a key that the document does not have is
    not written anywhere: the output is the same with and without it. *)
Theorem merge_ignores_unknown_key (parsed : Markdown.ParsedDocument)
        (updated : dict str) (key body : str) :
  ~ In key (Markdown.order parsed) ->
  Markdown._merge_sections parsed (dict_set key body updated)
  = Markdown._merge_sections parsed updated.
Proof.
  intros Hk. unfold Markdown._merge_sections. f_equal. f_equal.
  apply map_ext_in. intros k Hin. unfold Markdown.section_text.
  rewrite dict_get_set_other; [reflexivity|].
  intros ->. contradiction.
Qed.

(* ------------------------------------------------------------------ *)
(** ** Section patch merger                                            *)
(* ------------------------------------------------------------------ *)

Lemma strip_fixed_solid (s : str) : strip s = s -> s <> [] -> solid_end s.
Proof.
  intros H Hne. apply rstrip_fixed_solid; [apply (strip_fixed H) | exact Hne].
Qed.

Lemma strip_fixed_head (c : ascii) (t : str) : strip (c :: t) = c :: t -> is_space c = false.
Proof.
  intros H. destruct (strip_fixed H) as [HL _].
  exact (@drop_while_fixed_head is_space c t HL).
Qed.

(** Text put after a body that has content leaves the front of the
    body where it is. *)
Lemma strip_app_solid (a x : str) :
  strip a <> [] -> solid_end x -> strip (rstrip a ++ x) = strip a ++ x.
Proof.
  intros Ha Hx. unfold strip at 1.
  rewrite (rstrip_solid (solid_end_app (rstrip a) Hx)).
  unfold lstrip. rewrite drop_while_app.
  fold (lstrip (rstrip a)). fold (strip a).
  now destruct (strip a).
Qed.

(** X14. Changelog entries are appended one to a line.  When the old
    body is trimmed and not empty and every entry is trimmed, not empty
    and free of the sentinel, the changelog after the entries is the old
    body followed by each entry on a new line, in the order applied;
    nothing of the old body changes. *)
Theorem changelog_is_old_body_plus_entries (old : str) (entries : list str) :
  old <> [] -> strip old = old ->
  Forall (fun e => e <> [] /\ strip e = e /\ contains NO_CHANGE e = false) entries ->
  changelog_after old entries
  = old ++ List.concat (map (fun e => py "\n" ++ e) entries).
Proof.
  intros Hne Hs He. revert old Hne Hs.
  induction He as [|e es (He1 & He2 & He3) _ IH]; intros old Hne Hs.
  - cbn. now rewrite app_nil_r.
  - unfold changelog_after in *. cbn [fold_left map List.concat].
    rewrite merge_changelog_appends; [| now rewrite Hs | exact He1 | exact He3].
    destruct (strip_fixed Hs) as [_ HR]. rewrite HR.
    assert (Hsolid : solid_end (old ++ py "\n" ++ e)).
    { apply solid_end_app, solid_end_app. now apply strip_fixed_solid. }
    rewrite IH.
    + now rewrite <- !app_assoc.
    + destruct old; discriminate.
    + destruct old as [|c t]; [contradiction|].
      unfold strip. rewrite (rstrip_solid Hsolid).
      unfold lstrip. cbn [app drop_while]. now rewrite (strip_fixed_head Hs).
Qed.

(** X15. Whenever a patch is applied (it is not empty and does not hold
    the sentinel), the section body that [_merge_section_changes]
    returns has no white space at either end. *)
Theorem merged_body_is_trimmed (old changes : str) :
  changes <> [] -> contains NO_CHANGE changes = false ->
  strip (_merge_section_changes old changes) = _merge_section_changes old changes.
Proof.
  intros Hne Hn. unfold _merge_section_changes.
  destruct changes as [|c changes]; [contradiction|]. rewrite Hn.
  destruct (strip old); apply strip_idem.
Qed.

Section PatchBlocks.
Import PatchText.

Lemma contains_plain (lit : str) (s : str) :
  forallb not_open s = true -> contains ("["%char :: lit) s = false.
Proof.
  induction s as [|c s IH]; intros H; [reflexivity|].
  cbn [forallb] in H. apply andb_true_iff in H as [H1 H2].
  rewrite contains_unfold, (IH H2). cbn [startswith].
  unfold not_open in H1. apply negb_true_iff in H1.
  unfold chr_eqb in *. rewrite Ascii.eqb_sym, H1. reflexivity.
Qed.

(** A matcher that wants a literal finds nothing where the literal does
    not occur. *)
Lemma findall_without_literal {A : Type}
      (matcher : option ascii -> str -> option (A * nat)) (lit : str) :
  (forall prev s, startswith lit s = false -> matcher prev s = None) ->
  forall s prev, contains lit s = false ->
                 Regex.hits (Regex.scan matcher 0 prev s) = [].
Proof.
  intros Hm. induction s as [|c s IH]; intros prev H; [reflexivity|].
  rewrite contains_unfold in H. apply orb_false_iff in H as [H1 H2].
  cbn [Regex.scan]. rewrite (Hm prev _ H1). cbn [Regex.hits]. now apply IH.
Qed.

Lemma match_update_needs_marker (prev : option ascii) (s : str) :
  startswith (py "[UPDATE:") s = false -> Regex.match_update prev s = None.
Proof. intros H. unfold Regex.match_update. now rewrite H. Qed.

Lemma match_add_needs_marker (prev : option ascii) (s : str) :
  startswith (py "[ADD]") s = false -> Regex.match_add prev s = None.
Proof. intros H. unfold Regex.match_add. now rewrite H. Qed.

Lemma lazy_text_plain (t : str) :
  forallb not_open t = true -> solid_end t -> Regex.lazy_text t = t.
Proof.
  induction t as [|c t IH]; intros H Hs; [reflexivity|].
  cbn [forallb] in H. apply andb_true_iff in H as [H1 H2].
  unfold not_open in H1. apply negb_true_iff in H1.
  cbn [Regex.lazy_text]. rewrite H1.
  destruct t as [|d t].
  - destruct Hs as (y & z & E & Hz).
    destruct y as [|y0 y]; [|destruct y; discriminate].
    injection E as E. rewrite E.
    pose proof (space_not_nl _ Hz) as Hn. unfold NL in Hn. now rewrite Hn.
  - f_equal. apply IH; [exact H2|].
    apply (solid_end_suffix [c]); [exact Hs | discriminate].
Qed.

Lemma paragraph_solid (t : str) : paragraph t -> solid_end t.
Proof. intros (Hne & Hs & _). now apply strip_fixed_solid. Qed.

Lemma paragraph_head (t : str) :
  paragraph t -> exists c r, t = c :: r /\ is_space c = false.
Proof.
  intros (Hne & Hs & _). destruct t as [|c r]; [contradiction|].
  exists c, r. split; [reflexivity | now apply strip_fixed_head in Hs].
Qed.

(** [\s*\n*(...)] after a marker that is followed by a line feed and
    a paragraph: the line feed is the white space, the paragraph the
    group. *)
Lemma block_tail_paragraph (t : str) :
  paragraph t -> Regex.block_tail (NL :: t) = (t, 1 + List.length t).
Proof.
  intros Hp. destruct (paragraph_head Hp) as (c & r & -> & Hc).
  unfold Regex.block_tail. cbn [take_while drop_while].
  rewrite is_space_NL. cbn [take_while drop_while]. rewrite Hc.
  rewrite lazy_text_plain; [reflexivity | apply Hp | now apply paragraph_solid].
Qed.

Lemma scan_to_end {A : Type} (matcher : option ascii -> str -> option (A * nat))
      (m : str) (prev : option ascii) :
  Regex.scan matcher (List.length m) prev m = [].
Proof.
  rewrite <- (app_nil_r m) at 2. now rewrite scan_skip.
Qed.

Lemma findall_add_block (t : str) :
  paragraph t -> Regex.findall Regex.match_add (add_block t) = [t].
Proof.
  intros Hp. unfold Regex.findall, add_block.
  change (py "[ADD]\n" ++ t) with ("["%char :: py "ADD]\n" ++ t).
  cbn [Regex.scan]. unfold Regex.match_add at 1.
  change (startswith (py "[ADD]") ("["%char :: py "ADD]\n" ++ t)) with true.
  change (skipn 5 ("["%char :: py "ADD]\n" ++ t)) with (NL :: t).
  rewrite (block_tail_paragraph Hp). cbn [Regex.hits].
  replace (5 + (1 + List.length t) - 1) with (List.length (py "ADD]\n" ++ t))
    by (rewrite length_app; cbn; lia).
  now rewrite scan_to_end.
Qed.

Lemma break_at_found (ch : ascii) (a b : str) :
  forallb (fun c => negb (chr_eqb c ch)) a = true ->
  Regex.break_at ch (a ++ ch :: b) = Some (a, b).
Proof.
  induction a as [|c a IH]; intros H.
  - cbn. now rewrite chr_eqb_refl.
  - cbn [forallb] in H. apply andb_true_iff in H as [H1 H2].
    apply negb_true_iff in H1. cbn [app Regex.break_at].
    now rewrite H1, (IH H2).
Qed.

Lemma snippet_no_close (s : str) :
  snippet s -> forallb (fun c => negb (chr_eqb c "]"%char)) s = true.
Proof.
  intros (_ & _ & H). apply forallb_forall. intros x Hx.
  rewrite forallb_forall in H. specialize (H x Hx).
  unfold not_bracket in H. now apply andb_true_iff in H as [_ H].
Qed.

Lemma snippet_no_open (s : str) : snippet s -> forallb not_open s = true.
Proof.
  intros (_ & _ & H). apply forallb_forall. intros x Hx.
  rewrite forallb_forall in H. specialize (H x Hx).
  unfold not_bracket in H. now apply andb_true_iff in H as [H _].
Qed.

Lemma findall_update_block (s t : str) :
  snippet s -> paragraph t ->
  Regex.findall Regex.match_update (update_block s t) = [(s, t)].
Proof.
  intros Hsn Hp. unfold Regex.findall, update_block.
  change (py "[UPDATE: " ++ s ++ py "]\n" ++ t)
    with ("["%char :: py "UPDATE:" ++ (" "%char :: s) ++ "]"%char :: NL :: t).
  cbn [Regex.scan]. unfold Regex.match_update at 1.
  change (startswith (py "[UPDATE:")
            ("["%char :: py "UPDATE:" ++ (" "%char :: s) ++ "]"%char :: NL :: t)) with true.
  change (skipn 8 ("["%char :: py "UPDATE:" ++ (" "%char :: s) ++ "]"%char :: NL :: t))
    with ((" "%char :: s) ++ "]"%char :: NL :: t).
  rewrite break_at_found.
  2:{ cbn [forallb]. rewrite (snippet_no_close Hsn). reflexivity. }
  rewrite (block_tail_paragraph Hp).
  destruct Hsn as (Hne & Hs & _). destruct s as [|c s]; [contradiction|].
  cbn [drop_while]. change (is_space " ") with true. cbv iota.
  cbn [drop_while]. rewrite (strip_fixed_head Hs). cbn [Regex.hits].
  match goal with
  | |- context [Regex.scan _ ?n _ ?m] =>
      replace n with (List.length m)
        by (rewrite !length_app; cbn [List.length py]; rewrite ?length_app; cbn; lia)
  end.
  now rewrite scan_to_end.
Qed.
End PatchBlocks.

Section ApplyPatch.
Import PatchText.

Lemma contains_cons_miss (lit : str) (c : ascii) (s : str) :
  startswith lit (c :: s) = false -> contains lit (c :: s) = contains lit s.
Proof. intros H. now rewrite contains_unfold, H. Qed.

Lemma add_block_markers (t : str) :
  paragraph t ->
  contains NO_CHANGE (add_block t) = false
  /\ contains (py "[UPDATE:") (add_block t) = false.
Proof.
  intros (_ & _ & Hp). unfold add_block.
  change (py "[ADD]\n" ++ t)
    with ("["%char :: "A"%char :: "D"%char :: "D"%char :: "]"%char :: NL :: t).
  split.
  - rewrite !contains_cons_miss by reflexivity. now apply contains_plain.
  - rewrite !contains_cons_miss by reflexivity. now apply contains_plain.
Qed.

Lemma update_block_markers (s t : str) :
  snippet s -> paragraph t ->
  contains NO_CHANGE (update_block s t) = false
  /\ contains (py "[ADD]") (update_block s t) = false.
Proof.
  intros Hs (_ & _ & Hp). unfold update_block.
  change (py "[UPDATE: " ++ s ++ py "]\n" ++ t)
    with ("["%char :: "U"%char :: "P"%char :: "D"%char :: "A"%char :: "T"%char
          :: "E"%char :: ":"%char :: " "%char :: s ++ "]"%char :: NL :: t).
  assert (H : forallb not_open (s ++ "]"%char :: NL :: t) = true).
  { rewrite forallb_app, (snippet_no_open Hs). cbn [forallb andb]. exact Hp. }
  split.
  - rewrite !contains_cons_miss by reflexivity. now apply contains_plain.
  - rewrite !contains_cons_miss by reflexivity. now apply contains_plain.
Qed.

Lemma merge_section_applies (old changes : str) :
  changes <> [] -> contains NO_CHANGE changes = false -> strip old <> [] ->
  _merge_section_changes old changes
  = strip (fold_left apply_add (Regex.findall Regex.match_add changes)
             (fold_left apply_update (Regex.findall Regex.match_update changes) old)).
Proof.
  intros Hc Hn Ho. unfold _merge_section_changes.
  destruct changes; [contradiction|]. rewrite Hn.
  now destruct (strip old).
Qed.

(** X16. An ADD block is appended as a paragraph of its own.  For an
    old body with content and a patch that is [[ADD]], a line feed and
    a paragraph, the new body is the trimmed old body, a blank line and
    the paragraph. *)
Theorem add_block_appends (old t : str) :
  strip old <> [] -> paragraph t ->
  _merge_section_changes old (add_block t) = strip old ++ py "\n\n" ++ t.
Proof.
  intros Ho Hp. destruct (add_block_markers Hp) as [Hn Hu].
  rewrite merge_section_applies; [|discriminate | exact Hn | exact Ho].
  unfold Regex.findall at 2.
  rewrite (@findall_without_literal _ _ _ match_update_needs_marker _ None Hu).
  rewrite (findall_add_block Hp). cbn [fold_left]. unfold apply_add.
  destruct Hp as (Hne & Hs & Hplain). rewrite Hs.
  destruct t as [|c' t']; [contradiction|].
  apply strip_app_solid; [exact Ho|].
  apply (solid_end_app (py "\n\n")). now apply strip_fixed_solid.
Qed.

Lemma replace_first_none (p : str -> bool) (n : str) (units : list str) :
  (forall u, In u units -> p u = false) -> replace_first p n units = None.
Proof.
  induction units as [|u units IH]; intros H; [reflexivity|].
  cbn [replace_first]. rewrite (H u (or_introl eq_refl)), IH; [reflexivity|].
  intros v Hv. apply H. now right.
Qed.

Lemma replace_first_hit (p : str -> bool) (n u : str) (before after : list str) :
  (forall v, In v before -> p v = false) -> p u = true ->
  replace_first p n (before ++ u :: after) = Some (before ++ n :: after).
Proof.
  intros Hb Hu. induction before as [|v before IH]; cbn [app replace_first].
  - now rewrite Hu.
  - rewrite (Hb v (or_introl eq_refl)), IH; [reflexivity|].
    intros w Hw. apply Hb. now right.
Qed.

Lemma split_head_prefix (sep s h : str) (r : list str) :
  split_from sep 0 s = h :: r -> exists post, s = h ++ post.
Proof.
  revert h r; induction s as [|c s IH]; intros h r H.
  - injection H as <- _. now exists [].
  - cbn [split_from] in H. destruct (startswith sep (c :: s)).
    + injection H as <- _. now eexists.
    + destruct (split_from sep 0 s) as [|h' r'] eqn:E.
      * injection H as <- _. now exists s.
      * injection H as <- _. destruct (IH h' r' eq_refl) as [post ->].
        now exists post.
Qed.

(** The pieces [split] returns are pieces of the text. *)
Lemma split_pieces (sep : str) (s : str) :
  forall k u, In u (split_from sep k s) -> exists pre post, s = pre ++ u ++ post.
Proof.
  induction s as [|c s IH]; intros k u H.
  - destruct H as [<-|[]]. now exists [], [].
  - cbn [split_from] in H. destruct k as [|k].
    + destruct (startswith sep (c :: s)).
      * destruct H as [<-|H]; [now exists [], (c :: s)|].
        destruct (IH _ _ H) as (pre & post & ->). now exists (c :: pre), post.
      * destruct (split_from sep 0 s) as [|h r] eqn:E.
        -- destruct H as [<-|[]]. now exists [], s.
        -- destruct H as [<-|H].
           ++ destruct (split_head_prefix _ _ E) as [post ->]. now exists [], post.
           ++ destruct (IH 0 u) as (pre & post & ->); [rewrite E; now right|].
              now exists (c :: pre), post.
    + destruct (IH _ _ H) as (pre & post & ->). now exists (c :: pre), post.
Qed.

Lemma contains_piece (k u s : str) :
  contains k u = true -> (exists pre post, s = pre ++ u ++ post) -> contains k s = true.
Proof.
  intros H (pre & post & ->). apply contains_spec in H as (a & b & ->).
  apply contains_spec. exists (pre ++ a), (b ++ post). now rewrite <- !app_assoc.
Qed.

Lemma truncate_prefix (n : nat) (s : str) : exists r, s = truncate n s ++ r.
Proof.
  unfold truncate. destruct (n <? List.length s).
  - exists (skipn n s). symmetry. apply firstn_skipn.
  - exists []. now rewrite app_nil_r.
Qed.

(** Where the start of the snippet does not occur, no line or
    paragraph is taken for the snippet. *)
Lemma no_unit_hit (sep key snip old : str) :
  (exists r, snip = key ++ r) -> contains key old = false ->
  forall u, In u (split sep old) -> contains key u || contains snip u = false.
Proof.
  intros [r ->] Hk u Hu. apply split_pieces in Hu.
  apply orb_false_iff. split.
  - destruct (contains key u) eqn:E; [|reflexivity].
    now rewrite (@contains_piece _ _ _ E Hu) in Hk.
  - destruct (contains (key ++ r) u) eqn:E; [|reflexivity].
    apply contains_spec in E as (a & b & ->).
    assert (C : contains key (a ++ (key ++ r) ++ b) = true).
    { apply contains_spec. exists a, (r ++ b). now rewrite <- !app_assoc. }
    now rewrite (@contains_piece _ _ _ C Hu) in Hk.
Qed.

(** X17. An UPDATE block whose snippet is not found is not dropped: when
    the first 30 characters of the snippet occur nowhere in an old body
    with content, the replacement paragraph is appended after a blank
    line. *)
Theorem unmatched_update_is_appended (old s t : str) :
  strip old <> [] -> snippet s -> paragraph t ->
  contains (truncate 30 s) old = false ->
  _merge_section_changes old (update_block s t) = strip old ++ py "\n\n" ++ t.
Proof.
  intros Ho Hs Hp Hk. destruct (update_block_markers Hs Hp) as [Hn Ha].
  rewrite merge_section_applies; [|discriminate | exact Hn | exact Ho].
  unfold Regex.findall at 1.
  rewrite (@findall_without_literal _ _ _ match_add_needs_marker _ None Ha).
  rewrite (findall_update_block Hs Hp). cbn [fold_left]. unfold apply_update.
  cbn [fst snd].
  destruct Hs as (Hsne & Hss & _). destruct Hp as (Hne & Hst & Hplain).
  rewrite Hss, Hst. destruct t as [|c' t']; [contradiction|].
  rewrite !replace_first_none;
    try (apply no_unit_hit; [apply truncate_prefix | exact Hk]).
  apply strip_app_solid; [exact Ho|].
  apply (solid_end_app (py "\n\n")). now apply strip_fixed_solid.
Qed.

Lemma quiet_line (l : str) :
  forallb (fun c => negb (chr_eqb c NL)) l = true -> DiffParse.quiet [NL] l = true.
Proof.
  induction l as [|c l IH]; intros H; [reflexivity|].
  cbn [forallb] in H. apply andb_true_iff in H as [H1 H2].
  cbn [DiffParse.quiet app startswith]. rewrite (IH H2).
  apply negb_true_iff in H1. unfold chr_eqb in *.
  now rewrite Ascii.eqb_sym, H1.
Qed.

(** Joining lines and splitting them again gives the lines back. *)
Lemma split_join_lines (ls : list str) :
  ls <> [] -> Forall (fun l => forallb (fun c => negb (chr_eqb c NL)) l = true) ls ->
  split (py "\n") (join (py "\n") ls) = ls.
Proof.
  change (py "\n") with [NL].
  induction ls as [|l ls IH]; [contradiction|]. intros _ H.
  inversion H as [|? ? Hl Hls]; subst.
  destruct ls as [|l2 ls].
  - cbn [join]. now apply split_quiet_last, quiet_line.
  - change (join [NL] (l :: l2 :: ls)) with (l ++ [NL] ++ join [NL] (l2 :: ls)).
    rewrite split_quiet_chunk; [|discriminate | now apply quiet_line].
    f_equal. apply IH; [discriminate | exact Hls].
Qed.

(** X18. An UPDATE block replaces the first line that holds its snippet
    and no other.  For an old body with content whose lines are
    [before], [line], [after], where [line] holds the snippet and no
    line of [before] holds it or its first 30 characters, the new body
    is the old one with [line] replaced by the paragraph, trimmed. *)
Theorem update_replaces_first_matching_line
        (before after : list str) (line s t : str) :
  Forall (fun l => forallb (fun c => negb (chr_eqb c NL)) l = true)
         (before ++ line :: after) ->
  strip (join (py "\n") (before ++ line :: after)) <> [] ->
  snippet s -> paragraph t ->
  (forall l, In l before -> contains (truncate 30 s) l = false /\ contains s l = false) ->
  contains s line = true ->
  _merge_section_changes (join (py "\n") (before ++ line :: after)) (update_block s t)
  = strip (join (py "\n") (before ++ t :: after)).
Proof.
  intros Hl Ho Hs Hp Hb Hline.
  destruct (update_block_markers Hs Hp) as [Hn Ha].
  rewrite merge_section_applies; [|discriminate | exact Hn | exact Ho].
  unfold Regex.findall at 1.
  rewrite (@findall_without_literal _ _ _ match_add_needs_marker _ None Ha).
  rewrite (findall_update_block Hs Hp). cbn [fold_left]. unfold apply_update.
  cbn [fst snd].
  destruct Hs as (Hsne & Hss & _). destruct Hp as (Hne & Hst & Hplain).
  rewrite Hss, Hst. destruct t as [|c' t']; [contradiction|].
  rewrite split_join_lines; [| now destruct before | exact Hl].
  rewrite (@replace_first_hit _ (c' :: t') line before after).
  - reflexivity.
  - intros l Hin. destruct (Hb l Hin) as [H1 H2]. now rewrite H1, H2.
  - rewrite Hline. apply orb_true_r.
Qed.
End ApplyPatch.

(* ------------------------------------------------------------------ *)
(** ** File summaries                                                  *)
(* ------------------------------------------------------------------ *)

(** X19. [file_summarizer_node] loses and repeats no file: whatever the
    order in which the workers finish, the summaries stored are those of
    the (limited) input files, each once; and when the work is done in
    sequence (mock mode, one worker, or at most one file) they are in
    the order of the input. *)
Theorem file_summaries_complete (FileInfo Summary : Type)
        (summarizer : FileInfo -> Summary) (limit : Z) (use_mock : bool)
        (concurrency : Z) (completion : list nat) (parsed_files : list FileInfo) :
  completion_order
    (List.length (FileSummarizer.limit_files limit parsed_files)) completion ->
  Permutation
    (FileSummarizer.file_summaries summarizer limit use_mock concurrency
                                   completion parsed_files)
    (map summarizer (FileSummarizer.limit_files limit parsed_files))
  /\ (use_mock = true \/ (concurrency <= 1)%Z
      \/ List.length (FileSummarizer.limit_files limit parsed_files) <= 1 ->
      FileSummarizer.file_summaries summarizer limit use_mock concurrency
                                    completion parsed_files
      = map summarizer (FileSummarizer.limit_files limit parsed_files)).
Proof.
  intros Hc. unfold FileSummarizer.file_summaries.
  set (files := FileSummarizer.limit_files limit parsed_files) in *.
  split.
  - destruct ((1 <? List.length files) && (1 <? Z.max 1 concurrency)%Z && negb use_mock);
      [|reflexivity].
    apply as_completed_permutation. now rewrite length_map.
  - intros H.
    replace ((1 <? List.length files) && (1 <? Z.max 1 concurrency)%Z && negb use_mock)
      with false; [reflexivity|].
    symmetry. destruct H as [->|[H|H]].
    + apply andb_false_r.
    + replace (1 <? Z.max 1 concurrency)%Z with false
        by (symmetry; apply Z.ltb_ge; lia).
      now rewrite andb_false_r.
    + replace (1 <? List.length files) with false
        by (symmetry; apply Nat.ltb_ge; lia).
      reflexivity.
Qed.

(** X20. [limit_files] cuts the list, it never reorders or invents:
    the result is the head of the input, it is the whole input when the
    limit is zero or negative, and with a positive limit it has at most
    that many files. *)
Theorem limit_files_is_a_head (FileInfo : Type) (limit : Z) (files : list FileInfo) :
  (exists rest, files = FileSummarizer.limit_files limit files ++ rest)
  /\ ((limit <= 0)%Z -> FileSummarizer.limit_files limit files = files)
  /\ ((0 < limit)%Z ->
      Z.of_nat (List.length (FileSummarizer.limit_files limit files)) <= limit)%Z.
Proof.
  unfold FileSummarizer.limit_files.
  destruct ((limit <? Z.of_nat (List.length files))%Z && (0 <? limit)%Z) eqn:E.
  - apply andb_true_iff in E as [E1 E2].
    apply Z.ltb_lt in E1, E2.
    split; [|split].
    + exists (skipn (Z.to_nat limit) files). symmetry. apply firstn_skipn.
    + lia.
    + intros _. rewrite length_firstn. lia.
  - split; [exists []; now rewrite app_nil_r|]. split; [reflexivity|].
    intros Hpos. apply andb_false_iff in E as [E|E].
    + apply Z.ltb_ge in E. exact E.
    + apply Z.ltb_ge in E. lia.
Qed.

Section JsonFences.
Import JsonText.

Lemma startswith_backtick_miss (r : str) (c : ascii) (t : str) :
  negb (chr_eqb c "`"%char) = true -> startswith ("`"%char :: r) (c :: t) = false.
Proof.
  intros H. apply negb_true_iff in H. cbn [startswith].
  unfold chr_eqb in *. now rewrite Ascii.eqb_sym, H.
Qed.

Lemma index_from_found (r pre rest : str) :
  no_backtick pre = true ->
  forall i, index_from ("`"%char :: r) (pre ++ ("`"%char :: r) ++ rest) i
            = Some (i + List.length pre).
Proof.
  induction pre as [|c pre IH]; intros H i.
  - cbn [app List.length]. rewrite Nat.add_0_r.
    change (("`"%char :: r) ++ rest) with ("`"%char :: r ++ rest).
    unfold index_from.
    change ("`"%char :: r ++ rest) with (("`"%char :: r) ++ rest).
    now rewrite startswith_app.
  - cbn [no_backtick forallb] in H. apply andb_true_iff in H as [H1 H2].
    cbn [app index_from]. rewrite (@startswith_backtick_miss _ _ _ H1).
    rewrite (IH H2). cbn [List.length]. f_equal. lia.
Qed.

Lemma index_from_none (r s : str) :
  no_backtick s = true -> forall i, index_from ("`"%char :: r) s i = None.
Proof.
  induction s as [|c s IH]; intros H i; [reflexivity|].
  cbn [no_backtick forallb] in H. apply andb_true_iff in H as [H1 H2].
  cbn [index_from]. rewrite (@startswith_backtick_miss _ _ _ H1). now apply IH.
Qed.

Lemma contains_no_backtick (r s : str) :
  no_backtick s = true -> contains ("`"%char :: r) s = false.
Proof.
  induction s as [|c s IH]; intros H; [reflexivity|].
  cbn [no_backtick forallb] in H. apply andb_true_iff in H as [H1 H2].
  rewrite contains_unfold, (@startswith_backtick_miss _ _ _ H1). now apply IH.
Qed.

Lemma find_json_fence (pre rest : str) :
  no_backtick pre = true ->
  find FENCE_JSON (pre ++ FENCE_JSON ++ rest) 0 = Z.of_nat (List.length pre).
Proof.
  intros H. unfold find. cbn [Nat.leb skipn].
  change FENCE_JSON with ("`"%char :: py "``json").
  now rewrite (@index_from_found _ _ _ H).
Qed.

Lemma skipn_past (a b : str) (n : nat) :
  n = List.length a -> skipn n (a ++ b) = b.
Proof. intros ->. rewrite skipn_app, skipn_all, Nat.sub_diag. reflexivity. Qed.
End JsonFences.

(** X21. [_extract_json]: a block fenced with [```json] and [```] is
    taken out and trimmed, whatever follows the closing fence; when the
    closing fence is missing the text after the opening fence is taken
    without its last character; and a text without a backtick is
    returned as it is. *)
Theorem extract_json_fences (pre body post : str) :
  JsonText.no_backtick pre = true -> JsonText.no_backtick body = true ->
  JsonText._extract_json (pre ++ JsonText.FENCE_JSON ++ body ++ JsonText.FENCE ++ post)
  = strip body
  /\ JsonText._extract_json (pre ++ JsonText.FENCE_JSON ++ body) = strip (removelast body)
  /\ JsonText._extract_json body = body.
Proof.
  intros Hpre Hbody.
  assert (L7 : List.length JsonText.FENCE_JSON = 7) by reflexivity.
  split; [|split].
  - unfold JsonText._extract_json. rewrite contains_app, find_json_fence by exact Hpre.
    replace (Z.to_nat (Z.of_nat (List.length pre) + 7))
      with (List.length (pre ++ JsonText.FENCE_JSON))
      by (rewrite length_app, L7; lia).
    set (text := pre ++ JsonText.FENCE_JSON ++ body ++ JsonText.FENCE ++ post).
    assert (Et : text = (pre ++ JsonText.FENCE_JSON) ++ body ++ JsonText.FENCE ++ post)
      by (unfold text; now rewrite <- app_assoc).
    unfold JsonText.find.
    replace (List.length (pre ++ JsonText.FENCE_JSON) <=? List.length text) with true
      by (symmetry; apply Nat.leb_le; rewrite Et, !length_app; lia).
    replace (skipn (List.length (pre ++ JsonText.FENCE_JSON)) text)
      with (body ++ JsonText.FENCE ++ post)
      by (rewrite Et; symmetry; now apply skipn_past).
    change JsonText.FENCE with ("`"%char :: py "``") at 1 2.
    rewrite (@index_from_found _ _ _ Hbody).
    unfold JsonText.slice.
    replace (Z.of_nat (List.length (pre ++ JsonText.FENCE_JSON) + List.length body) <? 0)%Z
      with false by (symmetry; apply Z.ltb_ge; lia).
    replace (Z.to_nat (Z.min (Z.of_nat (List.length (pre ++ JsonText.FENCE_JSON)
                                        + List.length body))
                             (Z.of_nat (List.length text))))
      with (List.length ((pre ++ JsonText.FENCE_JSON) ++ body))
      by (rewrite Et, !length_app; lia).
    rewrite Et. rewrite (app_assoc _ body), firstn_app, firstn_all, Nat.sub_diag.
    cbn [firstn]. rewrite app_nil_r. now rewrite (@skipn_past _ _ _ eq_refl).
  - unfold JsonText._extract_json.
    rewrite contains_app, find_json_fence by exact Hpre.
    replace (Z.to_nat (Z.of_nat (List.length pre) + 7))
      with (List.length (pre ++ JsonText.FENCE_JSON))
      by (rewrite length_app, L7; lia).
    set (text := pre ++ JsonText.FENCE_JSON ++ body).
    assert (Et : text = (pre ++ JsonText.FENCE_JSON) ++ body)
      by (unfold text; now rewrite <- app_assoc).
    unfold JsonText.find.
    replace (List.length (pre ++ JsonText.FENCE_JSON) <=? List.length text) with true
      by (symmetry; apply Nat.leb_le; rewrite Et, !length_app; lia).
    replace (skipn (List.length (pre ++ JsonText.FENCE_JSON)) text) with body
      by (rewrite Et; symmetry; now apply skipn_past).
    change JsonText.FENCE with ("`"%char :: py "``").
    rewrite (@index_from_none _ _ Hbody).
    unfold JsonText.slice. change (-1 <? 0)%Z with true. cbv iota.
    replace (Z.to_nat (Z.max 0 (Z.of_nat (List.length text) + -1)))
      with (pred (List.length text)) by lia.
    rewrite <- removelast_firstn_len, Et.
    destruct body as [|c body].
    + rewrite app_nil_r. cbn [removelast].
      rewrite skipn_all2; [reflexivity|].
      rewrite removelast_firstn_len, length_firstn. lia.
    + rewrite removelast_app by discriminate.
      now rewrite (@skipn_past _ _ _ eq_refl).
  - unfold JsonText._extract_json.
    change JsonText.FENCE_JSON with ("`"%char :: py "``json").
    change JsonText.FENCE with ("`"%char :: py "``").
    now rewrite !(@contains_no_backtick _ _ Hbody).
Qed.

(* ------------------------------------------------------------------ *)
(** ** Repository download and listing                                 *)
(* ------------------------------------------------------------------ *)


Section SharedDirectory.
Variable get : Download.remote.

(** What is in the extraction directory after a turn of the loop was
    there before or came with the archive of this turn. *)
Lemma attempt_disk (on_disk after : list str) (b : str) (v : Download.verdict) :
  Download.attempt on_disk (get b) = (v, after) ->
  forall x, In x after ->
    In x on_disk
    \/ exists resp, get b = Some resp /\ Download.status_code resp = 200%Z
                    /\ In x (Download.unpacked resp).
Proof.
  unfold Download.attempt. destruct (get b) as [resp|]; [|intros [= _ <-]; auto].
  destruct (Download.status_code resp =? 200)%Z eqn:S200.
  - apply Z.eqb_eq in S200.
    assert (G : forall x, In x (on_disk ++ Download.unpacked resp) ->
                  In x on_disk
                  \/ exists r, Some resp = Some r /\ Download.status_code r = 200%Z
                               /\ In x (Download.unpacked r)).
    { intros x Hx. apply in_app_or in Hx as [Hx|Hx]; [now left | right].
      now exists resp. }
    destruct (Download.unpack_raises resp); [intros [= _ <-]; exact G|].
    destruct (Download.iterdir resp _); intros [= _ <-]; exact G.
  - destruct (Download.status_code resp =? 404)%Z; [intros [= _ <-]; auto|].
    destruct (existsb _ _); [intros [= _ <-]; auto|].
    destruct (Download.status_code resp =? 403)%Z; intros [= _ <-]; auto.
Qed.

(** A turn that returns a path. *)
Lemma attempt_done (on_disk after : list str) (b p : str) :
  Download.attempt on_disk (get b) = (Download.Done (Some p), after) ->
  exists resp,
    get b = Some resp /\ Download.status_code resp = 200%Z
    /\ Download.unpack_raises resp = false
    /\ after = on_disk ++ Download.unpacked resp
    /\ exists dirs, Download.iterdir resp after = p :: dirs.
Proof.
  unfold Download.attempt. destruct (get b) as [resp|]; [|discriminate].
  destruct (Download.status_code resp =? 200)%Z eqn:S200.
  - apply Z.eqb_eq in S200.
    destruct (Download.unpack_raises resp) eqn:U; [discriminate|].
    destruct (Download.iterdir resp _) as [|d dirs] eqn:L; [discriminate|].
    intros [= -> <-]. exists resp. repeat split; auto. now exists dirs.
  - destruct (Download.status_code resp =? 404)%Z; [discriminate|].
    destruct (existsb _ _); [discriminate|].
    destruct (Download.status_code resp =? 403)%Z; discriminate.
Qed.

Lemma try_from_requests (branches : list str) :
  forall on_disk, exists rest,
    branches = snd (Download.try_from get on_disk branches) ++ rest.
Proof.
  induction branches as [|b rest IH]; intros on_disk; [now exists []|].
  cbn [Download.try_from].
  destruct (Download.attempt on_disk (get b)) as [[| |path] after].
  - destruct (IH after) as [r Hr].
    destruct (Download.try_from get after rest) as [p tried]. cbn [fst snd] in *.
    exists r. cbn [app]. now f_equal.
  - now exists rest.
  - now exists rest.
Qed.

Hypothesis lists_what_is_there :
  forall b resp on_disk,
    get b = Some resp -> incl (Download.iterdir resp on_disk) on_disk.

Lemma try_from_path (branches : list str) :
  forall on_disk p,
    fst (Download.try_from get on_disk branches) = Some p ->
    exists before b resp,
      snd (Download.try_from get on_disk branches) = before ++ [b]
      /\ get b = Some resp
      /\ Download.status_code resp = 200%Z
      /\ Download.unpack_raises resp = false
      /\ (In p on_disk
          \/ exists b' resp',
               In b' (before ++ [b]) /\ get b' = Some resp'
               /\ Download.status_code resp' = 200%Z
               /\ In p (Download.unpacked resp')).
Proof.
  induction branches as [|b rest IH]; intros on_disk p; [discriminate|].
  cbn [Download.try_from].
  destruct (Download.attempt on_disk (get b)) as [[| |path] after] eqn:E.
  - pose proof (IH after p) as IHp.
    destruct (Download.try_from get after rest) as [p0 tried]. cbn [fst snd] in *.
    intros ->. destruct (IHp eq_refl) as (before & b0 & resp & H1 & H2 & H3 & H4 & H5).
    exists (b :: before), b0, resp. cbn [app]. rewrite H1.
    repeat split; auto.
    destruct H5 as [H5|(b' & resp' & Hb' & Hg & Hs & Hin)].
    + destruct (@attempt_disk _ _ _ _ E p H5) as [Hd|(r & Hg & Hs & Hin)]; [now left | right].
      exists b, r. repeat split; auto. now left.
    + right. exists b', resp'. repeat split; auto. now right.
  - discriminate.
  - cbn [fst snd]. intros ->.
    destruct (@attempt_done _ _ _ _ E) as (resp & Hg & Hs & Hu & -> & dirs & Hl).
    exists [], b, resp. cbn [app]. repeat split; auto.
    assert (Hin : In p (on_disk ++ Download.unpacked resp)).
    { apply (@lists_what_is_there b resp _ Hg). rewrite Hl. now left. }
    apply in_app_or in Hin as [Hin|Hin]; [now left | right].
    exists b, resp. repeat split; auto. now left.
Qed.
End SharedDirectory.

(** X23. The branches requested are the candidates from the first on,
    without a gap.  A path is returned only when the last branch
    requested answered 200 and its archive was written and unpacked
    without an exception; with a directory listing that lists what is
    there, the path is an entry that the archive of a requested branch
    left in the extraction directory: of the last one, or of an earlier
    one whose unpacking broke off, since the directory is shared. *)
Theorem download_requests_in_order (get : Download.remote) (branches : list str) :
  (forall b resp on_disk,
      get b = Some resp -> incl (Download.iterdir resp on_disk) on_disk) ->
  (exists rest, branches = snd (Download.try_branches get branches) ++ rest)
  /\ forall p, fst (Download.try_branches get branches) = Some p ->
       exists before b resp,
         snd (Download.try_branches get branches) = before ++ [b]
         /\ get b = Some resp
         /\ Download.status_code resp = 200%Z
         /\ Download.unpack_raises resp = false
         /\ exists b' resp',
              In b' (before ++ [b]) /\ get b' = Some resp'
              /\ Download.status_code resp' = 200%Z
              /\ In p (Download.unpacked resp').
Proof.
  intros Hls. unfold Download.try_branches. split; [apply try_from_requests|].
  intros p Hp.
  destruct (@try_from_path get Hls branches [] p Hp)
    as (before & b & resp & H1 & H2 & H3 & H4 & [[]|H5]).
  exists before, b, resp. auto.
Qed.

Section ConfigPatterns.
Import RepoFiles.

Lemma lower_chr_not_capital_d (c : ascii) : lower_chr c <> "D"%char.
Proof.
  destruct c as [[] [] [] [] [] [] [] []]; vm_compute; discriminate.
Qed.

Lemma startswith_first (c : ascii) (lit s : str) :
  startswith (c :: lit) s = true -> exists t, s = c :: t.
Proof.
  destruct s as [|x s]; cbn [startswith]; [discriminate|].
  intros H. apply andb_true_iff in H as [H _]. apply chr_eqb_eq in H. subst x.
  now exists s.
Qed.

Lemma contains_first_char (c : ascii) (lit s : str) :
  contains (c :: lit) s = true -> In c s.
Proof.
  induction s as [|x s IH]; intros H.
  - rewrite contains_unfold in H. cbn in H. discriminate.
  - rewrite contains_unfold in H. apply orb_true_iff in H as [H|H].
    + apply startswith_first in H as [t Ht]. injection Ht as ->. now left.
    + right. now apply IH.
Qed.

Lemma no_dockerfile_in_lower (s : str) : contains (py "Dockerfile") (lower s) = false.
Proof.
  destruct (contains (py "Dockerfile") (lower s)) eqn:E; [|reflexivity].
  change (py "Dockerfile") with ("D"%char :: py "ockerfile") in E.
  apply contains_first_char in E. unfold lower in E.
  apply in_map_iff in E as (x & Hx & _). now apply lower_chr_not_capital_d in Hx.
Qed.
End ConfigPatterns.

(** X24. The pattern [Dockerfile] of [_is_config_file] never matches,
    because the path is compared in lower case: a file counts as
    configuration exactly when one of the other patterns occurs in its
    lower-cased path, and a file named [Dockerfile] does not. *)
Theorem dockerfile_pattern_is_dead (file_path : str) :
  RepoFiles._is_config_file file_path
  = any_in [ py "config"; py "setting"; py "requirements.txt"; py "package.json";
             py "docker-compose"; py ".env"; py "makefile"; py "cmake"; py ".yml";
             py ".yaml" ] (lower file_path)
  /\ RepoFiles._is_config_file (py "Dockerfile") = false.
Proof.
  split; [|reflexivity].
  unfold RepoFiles._is_config_file, RepoFiles.config_patterns, any_in.
  cbn [existsb]. now rewrite no_dockerfile_in_lower.
Qed.

Section ListingOrder.
Import RepoFiles.

Lemma insert_by_rank_perm (x : code_file) (l : list code_file) :
  Permutation (insert_by_rank x l) (x :: l).
Proof.
  induction l as [|y l IH]; cbn [insert_by_rank]; [reflexivity|].
  destruct (rank x <=? rank y)%Z; [reflexivity|].
  rewrite IH. apply perm_swap.
Qed.

Lemma sort_by_rank_perm (l : list code_file) : Permutation (sort_by_rank l) l.
Proof.
  induction l as [|x l IH]; [reflexivity|].
  cbn [sort_by_rank fold_right]. fold (sort_by_rank l).
  rewrite insert_by_rank_perm. now constructor.
Qed.

Lemma insert_by_rank_sorted (x : code_file) (l : list code_file) :
  StronglySorted (fun a b => rank a <= rank b)%Z l ->
  StronglySorted (fun a b => rank a <= rank b)%Z (insert_by_rank x l).
Proof.
  induction 1 as [|y l Hs IH Hy]; cbn [insert_by_rank].
  - repeat constructor.
  - destruct (rank x <=? rank y)%Z eqn:E.
    + apply Z.leb_le in E. constructor; [now constructor|].
      constructor; [exact E|].
      eapply Forall_impl; [|exact Hy]. intros a Ha. cbv beta in *. lia.
    + apply Z.leb_gt in E. constructor; [exact IH|].
      apply (Permutation_Forall (Permutation_sym (insert_by_rank_perm x l))).
      constructor; [lia | exact Hy].
Qed.

Lemma sort_by_rank_sorted (l : list code_file) :
  StronglySorted (fun a b => rank a <= rank b)%Z (sort_by_rank l).
Proof.
  induction l as [|x l IH]; [constructor|].
  cbn [sort_by_rank fold_right]. now apply insert_by_rank_sorted.
Qed.

(** Files of one rank keep their order when a file is inserted. *)
Lemma insert_by_rank_stable (r : Z) (x : code_file) (l : list code_file) :
  filter (fun c => (rank c =? r)%Z) (insert_by_rank x l)
  = filter (fun c => (rank c =? r)%Z) (x :: l).
Proof.
  induction l as [|y l IH]; cbn [insert_by_rank]; [reflexivity|].
  destruct (rank x <=? rank y)%Z eqn:E; [reflexivity|].
  apply Z.leb_gt in E. cbn [filter] in *. rewrite IH.
  destruct (rank x =? r)%Z eqn:Ex; [|reflexivity].
  apply Z.eqb_eq in Ex.
  replace (rank y =? r)%Z with false by (symmetry; apply Z.eqb_neq; lia).
  reflexivity.
Qed.

Lemma sort_by_rank_stable (r : Z) (l : list code_file) :
  filter (fun c => (rank c =? r)%Z) (sort_by_rank l)
  = filter (fun c => (rank c =? r)%Z) l.
Proof.
  induction l as [|x l IH]; [reflexivity|].
  cbn [sort_by_rank fold_right]. fold (sort_by_rank l).
  rewrite insert_by_rank_stable. cbn [filter]. now rewrite IH.
Qed.

Lemma priority_range (file_path : str) :
  (1 <= _get_file_priority file_path <= 4)%Z.
Proof.
  unfold _get_file_priority.
  destruct (any_in _ (lower file_path)); [lia|].
  destruct (_is_config_file file_path || contains (py "readme") (lower file_path)); [lia|].
  destruct (negb (_is_test_file file_path)); lia.
Qed.

Lemma collect_listed (fs : list found) (c : code_file) :
  In c (collect fs) -> exists f, In f fs /\ listed f = Some c.
Proof.
  induction fs as [|f fs IH]; [intros []|].
  cbn [collect]. destruct (listed f) as [c'|] eqn:E.
  - intros [<-|H].
    + exists f. split; [now left | exact E].
    + destruct (IH H) as (g & Hg & Eg). exists g. split; [now right | exact Eg].
  - intros H. destruct (IH H) as (g & Hg & Eg). exists g. split; [now right | exact Eg].
Qed.
End ListingOrder.

(** X25. The code files are listed by rank, entry points first and
    tests last: the list is exactly the files kept, ordered by ascending
    rank, files of equal rank in the order in which the walk found them;
    and a file is kept only if its path holds none of the ignored names,
    its extension is a known one, its size could be read and is at most
    5 MiB. *)
Theorem code_files_by_rank (fs : list RepoFiles.found) :
  Permutation (RepoFiles.code_files fs) (RepoFiles.collect fs)
  /\ StronglySorted (fun a b => RepoFiles.rank a <= RepoFiles.rank b)%Z
                    (RepoFiles.code_files fs)
  /\ (forall r, filter (fun c => (RepoFiles.rank c =? r)%Z) (RepoFiles.code_files fs)
                = filter (fun c => (RepoFiles.rank c =? r)%Z) (RepoFiles.collect fs))
  /\ forall c, In c (RepoFiles.code_files fs) ->
       (1 <= RepoFiles.rank c <= 4)%Z
       /\ (RepoFiles.file_size c <= RepoFiles.BIG_FILE_SIZE)%Z
       /\ any_in RepoFiles.ignore_patterns (RepoFiles.path c) = false
       /\ exists f, In f fs
                    /\ RepoFiles.path_str f = RepoFiles.path c
                    /\ RepoFiles.size f = Some (RepoFiles.file_size c)
                    /\ dict_get (RepoFiles.suffix f) RepoFiles.code_extensions
                       = Some (RepoFiles.language c).
Proof.
  unfold RepoFiles.code_files.
  split; [apply sort_by_rank_perm|].
  split; [apply sort_by_rank_sorted|].
  split; [intros r; apply sort_by_rank_stable|].
  intros c Hc.
  apply (Permutation_in _ (sort_by_rank_perm _)) in Hc.
  apply collect_listed in Hc as (f & Hf & E).
  unfold RepoFiles.listed in E.
  destruct (any_in RepoFiles.ignore_patterns (RepoFiles.path_str f)) eqn:Ei; [discriminate|].
  destruct (dict_get (RepoFiles.suffix f) RepoFiles.code_extensions) as [lang|] eqn:El;
    [|discriminate].
  destruct (RepoFiles.size f) as [n|] eqn:Es; [|discriminate].
  destruct (n >? RepoFiles.BIG_FILE_SIZE)%Z eqn:Eb; [discriminate|].
  injection E as <-. cbn [RepoFiles.path RepoFiles.file_size RepoFiles.language].
  split; [apply priority_range|].
  split; [rewrite Z.gtb_ltb in Eb; apply Z.ltb_ge in Eb; exact Eb|].
  split; [exact Ei|].
  exists f. auto.
Qed.

(* ------------------------------------------------------------------ *)
(** ** Target sections                                                 *)
(* ------------------------------------------------------------------ *)

Section TargetSets.
Import Targets.

Lemma in_add (x t : str) (l : list str) : In t (add x l) <-> t = x \/ In t l.
Proof.
  unfold add. destruct (existsb (str_eqb x) l) eqn:E.
  - split; [now right|]. intros [->|H]; [|exact H].
    apply existsb_exists in E as (y & Hy & Ey). apply str_eqb_eq in Ey. now subst.
  - rewrite in_app_iff. cbn [In]. intuition.
Qed.

Lemma in_add_if (b : bool) (x t : str) (l : list str) :
  In t (add_if b x l) <-> (b = true /\ t = x) \/ In t l.
Proof.
  unfold add_if. destruct b.
  - rewrite in_add. intuition.
  - intuition discriminate.
Qed.

Lemma add_nodup (x : str) (l : list str) : NoDup l -> NoDup (add x l).
Proof.
  intros H. unfold add. destruct (existsb (str_eqb x) l) eqn:E; [exact H|].
  apply NoDup_app; [exact H | repeat constructor; intros [] |].
  intros y Hy [<-|[]].
  assert (existsb (str_eqb x) l = true); [|congruence].
  apply existsb_exists. exists x. split; [exact Hy | apply str_eqb_refl].
Qed.

Lemma add_if_nodup (b : bool) (x : str) (l : list str) : NoDup l -> NoDup (add_if b x l).
Proof. destruct b; [apply add_nodup | trivial]. Qed.

Lemma in_identify_step (l : list str) (f t : str) :
  In t (identify_step l f) <-> In t l \/ asks f t.
Proof.
  unfold identify_step, asks. cbv zeta. rewrite !in_add_if. intuition.
Qed.

Lemma in_infer_step (l : list str) (f t : str) :
  In t (infer_step l f)
  <-> In t l \/ asks f t
      \/ (any_in [py "test"; py "spec"] (lower f) = true /\ t = py "changelog").
Proof.
  unfold infer_step. rewrite in_add_if, in_identify_step. intuition.
Qed.

Lemma in_fold_identify (fs : list str) :
  forall l t, In t (fold_left identify_step fs l)
              <-> In t l \/ exists f, In f fs /\ asks f t.
Proof.
  induction fs as [|f fs IH]; intros l t; cbn [fold_left].
  - split; [now left | intros [H|(f & [] & _)]; exact H].
  - rewrite IH, in_identify_step. split.
    + intros [[H|H]|(g & Hg & Ha)]; [now left | right; exists f; split; [now left|exact H]|].
      right. exists g. split; [now right | exact Ha].
    + intros [H|(g & [<-|Hg] & Ha)]; [left; now left | left; now right |].
      right. now exists g.
Qed.

Lemma in_fold_infer (fs : list str) :
  forall l t, In t (fold_left infer_step fs l)
              <-> In t l \/ t = py "changelog" /\ (exists f, In f fs
                      /\ any_in [py "test"; py "spec"] (lower f) = true)
                  \/ exists f, In f fs /\ asks f t.
Proof.
  induction fs as [|f fs IH]; intros l t; cbn [fold_left].
  - split; [now left | intros [H|[(_ & f & [] & _)|(f & [] & _)]]; exact H].
  - rewrite IH, in_infer_step. split.
    + intros [[H|[H|[H1 H2]]]|[(H1 & g & Hg & Ht)|(g & Hg & Ha)]].
      * now left.
      * right. right. exists f. split; [now left | exact H].
      * right. left. split; [exact H2|]. exists f. split; [now left | exact H1].
      * right. left. split; [exact H1|]. exists g. split; [now right | exact Ht].
      * right. right. exists g. split; [now right | exact Ha].
    + intros [H|[(H1 & g & [<-|Hg] & Ht)|(g & [<-|Hg] & Ha)]].
      * left. now left.
      * left. right. right. now split.
      * right. left. split; [exact H1|]. now exists g.
      * left. right. now left.
      * right. right. now exists g.
Qed.

Lemma fold_nodup (step : list str -> str -> list str) (fs : list str) :
  (forall l f, NoDup l -> NoDup (step l f)) ->
  forall l, NoDup l -> NoDup (fold_left step fs l).
Proof.
  intros Hs. induction fs as [|f fs IH]; intros l Hl; [exact Hl|].
  cbn [fold_left]. apply IH, Hs, Hl.
Qed.
End TargetSets.

(** X26. The two copies of the target-section rule agree: the analyser's
    [_identify_target_sections] and the generator's
    [_infer_target_sections] name the same sections for the same changed
    files (the extra test/spec rule of the second can only add
    [changelog], which both always add).  A section is named exactly when
    it is [changelog] or some changed file's lower-cased name holds one
    of its trigger words; so only the four canonical sections are ever
    named, and none twice. *)
Theorem target_rules_agree (changed_files : list str) :
  (forall t, In t (Targets._identify_target_sections changed_files)
             <-> t = py "changelog"
                 \/ exists f, In f changed_files /\ Targets.asks f t)
  /\ (forall t, In t (Targets._infer_target_sections changed_files)
                <-> In t (Targets._identify_target_sections changed_files))
  /\ (forall t, In t (Targets._identify_target_sections changed_files)
                -> In t Targets.canonical)
  /\ NoDup (Targets._identify_target_sections changed_files)
  /\ NoDup (Targets._infer_target_sections changed_files).
Proof.
  assert (Hid : forall t, In t (Targets._identify_target_sections changed_files)
             <-> t = py "changelog"
                 \/ exists f, In f changed_files /\ Targets.asks f t).
  { intros t. unfold Targets._identify_target_sections.
    rewrite in_add, in_fold_identify. cbn [In]. tauto. }
  split; [exact Hid|].
  split.
  { intros t. rewrite Hid. unfold Targets._infer_target_sections.
    rewrite in_add, in_fold_infer. cbn [In]. tauto. }
  split.
  { intros t Ht. apply Hid in Ht. unfold Targets.canonical. cbn [In].
    destruct Ht as [->|(f & _ & Ha)]; [tauto|].
    unfold Targets.asks in Ha. cbv zeta in Ha.
    destruct Ha as [[_ ->]|[[_ [->| ->]]|[[_ ->]|[_ ->]]]]; tauto. }
  split.
  - apply add_nodup, fold_nodup; [|constructor].
    intros l f Hl. unfold Targets.identify_step. cbv zeta.
    repeat apply add_if_nodup. exact Hl.
  - apply add_nodup, fold_nodup; [|constructor].
    intros l f Hl. unfold Targets.infer_step, Targets.identify_step. cbv zeta.
    repeat apply add_if_nodup. exact Hl.
Qed.

(* ------------------------------------------------------------------ *)
(** ** Per-file change summaries                                       *)
(* ------------------------------------------------------------------ *)

Section ChangeSummariesSound.
Import ChangeSummaries.
Variable llm_summary : str -> str -> str -> str.
Variable no_diff_text low_text : str -> str -> str.
Variable diff_map : dict str.

Lemma classify_labelled (changed_files : list str) :
  Forall (labelled diff_map) (fst (classify low_text diff_map changed_files))
  /\ Forall (fun fp => snd fp = _get_file_priority (fst fp))
            (snd (classify low_text diff_map changed_files)).
Proof.
  induction changed_files as [|f rest [IH1 IH2]]; [split; constructor|].
  cbn [classify]. destruct (classify low_text diff_map rest) as [done queued].
  cbn [fst snd] in *.
  destruct (str_eqb (_get_file_priority f) (py "low")); cbn [fst snd]; split;
    try assumption.
  - constructor; [|exact IH1]. split; reflexivity.
  - constructor; [reflexivity | exact IH2].
Qed.

Lemma summarize_labelled (fp : str * str) :
  snd fp = _get_file_priority (fst fp) ->
  labelled diff_map (_summarize llm_summary no_diff_text diff_map fp).
Proof.
  destruct fp as [f p]. cbn [fst snd]. intros ->. unfold labelled, _summarize.
  destruct (_find_diff_for_file f diff_map) eqn:E; cbn [file priority change_type];
    rewrite ?E; split; reflexivity.
Qed.

Lemma as_completed_in (F : Type) (futures : list F) (completion : list nat) (x : F) :
  In x (as_completed futures completion) -> In x futures.
Proof.
  unfold as_completed. rewrite in_flat_map. intros (i & _ & Hi).
  destruct (nth_error futures i) as [y|] eqn:E; [|destruct Hi].
  destruct Hi as [<-|[]]. eapply nth_error_In, E.
Qed.

Lemma generated_labelled (completion : list nat) (changed_files : list str) (s : summary) :
  In s (_generate_file_summaries llm_summary no_diff_text low_text diff_map
          completion changed_files) ->
  labelled diff_map s.
Proof.
  unfold _generate_file_summaries.
  pose proof (classify_labelled changed_files) as [Hlow Hq].
  destruct (classify low_text diff_map changed_files) as [low hm]. cbn [fst snd] in *.
  rewrite in_flat_map. intros (f & _ & Hs).
  destruct (order_map_get _ f) as [s'|] eqn:E; [|destruct Hs].
  destruct Hs as [<-|[]]. unfold order_map_get in E.
  apply find_some in E as [E _]. apply in_rev in E.
  apply in_app_or in E as [E|E].
  - rewrite Forall_forall in Hlow. now apply Hlow.
  - apply as_completed_in in E. apply in_map_iff in E as (fp & <- & Hfp).
    apply summarize_labelled. rewrite Forall_forall in Hq. now apply Hq.
Qed.
End ChangeSummariesSound.

(** X27. [_generate_file_summaries] gives one summary for each changed
    file, in the order of [changed_files], whatever the order in which
    the pool finishes; and every summary carries the priority of its
    file's name and the change type detected in its file's diff. *)
Theorem change_summaries_cover_files
        (llm_summary : str -> str -> str -> str) (no_diff_text low_text : str -> str -> str)
        (diff_map : dict str) (completion : list nat) (changed_files : list str) :
  completion_order
    (List.length (snd (ChangeSummaries.classify low_text diff_map changed_files)))
    completion ->
  map ChangeSummaries.file
      (ChangeSummaries._generate_file_summaries llm_summary no_diff_text low_text
         diff_map completion changed_files)
  = changed_files
  /\ List.length (ChangeSummaries._generate_file_summaries llm_summary no_diff_text
                    low_text diff_map completion changed_files)
     = List.length changed_files
  /\ Forall (ChangeSummaries.labelled diff_map)
            (ChangeSummaries._generate_file_summaries llm_summary no_diff_text low_text
               diff_map completion changed_files).
Proof.
  intros Hc.
  pose proof (@generate_file_summaries_in_order llm_summary no_diff_text low_text
                diff_map completion changed_files Hc) as Hm.
  split; [exact Hm|]. split.
  - rewrite <- Hm at 2. now rewrite length_map.
  - apply Forall_forall. intros s Hs. eapply generated_labelled, Hs.
Qed.

(* ------------------------------------------------------------------ *)
(** ** Instances of the conditional properties                         *)
(* ------------------------------------------------------------------ *)

Lemma retry_settles_on_first_final_answer_witness :
  exists sl,
    List.length sl = 1
    /\ Backoff.invoke_with_retry Backoff.default_env Samples.fails_once Fixtures.steady
         Samples.time_sleep
       = Some (Backoff.Returned tt, {| Backoff.calls := 2; Backoff.slept := sl |}).
Proof.
  destruct (@retry_settles_on_first_final_answer unit Backoff.default_env
              Samples.fails_once Fixtures.steady Samples.time_sleep 1)
    as (sl & Hl & Hr & _).
  - vm_compute. discriminate.
  - intros i Hi. assert (i = 0) as -> by lia.
    eexists. split; [reflexivity | vm_compute; reflexivity].
  - intros i Hi. assert (i = 0) as -> by lia. vm_compute. reflexivity.
  - exists sl. split; [exact Hl | apply Hr; reflexivity].
Defined.

Lemma failed_pause_ends_retries_witness :
  exists sl,
    List.length sl = 0
    /\ Backoff.invoke_with_retry Samples.negative_ceiling Fixtures.always_rate_limited
         Fixtures.steady Samples.time_sleep
       = Some (Backoff.SleepRaised (py "sleep length must be non-negative"),
               {| Backoff.calls := 1; Backoff.slept := sl |}).
Proof.
  destruct (@failed_pause_ends_retries unit Samples.negative_ceiling
              Fixtures.always_rate_limited Fixtures.steady Samples.time_sleep 0)
    as (sl & Hl & _ & Hs).
  - vm_compute. reflexivity.
  - intros i Hi. eexists. split; [reflexivity | vm_compute; reflexivity].
  - intros i Hi. lia.
  - exists sl. split; [exact Hl|].
    apply (Hs (-1)%float (py "sleep length must be non-negative")); vm_compute; reflexivity.
Defined.

Lemma retryable_whatever_the_case_witness :
  Backoff._is_retryable_error Backoff.default_env
    (py "Error: " ++ py "Rate Limit" ++ py " reached") = true.
Proof.
  apply (@retryable_whatever_the_case Backoff.default_env
           (py "Error: ") (py "Rate Limit") (py " reached")).
  left. vm_compute. reflexivity.
Defined.

Lemma parse_diff_round_trip_witness :
  DiffParse._parse_diff_to_map (DiffParse.unified Samples.two_blocks)
  = map (fun f => (fst f, DiffParse.git_block f)) Samples.two_blocks
  /\ forall f, In f Samples.two_blocks ->
       _find_diff_for_file (fst f)
         (DiffParse._parse_diff_to_map (DiffParse.unified Samples.two_blocks))
       = DiffParse.git_block f.
Proof.
  apply (@parse_diff_round_trip Samples.two_blocks).
  - repeat constructor; cbn [In map fst Samples.two_blocks];
      intros H; vm_compute in H; intuition discriminate.
  - repeat constructor; try discriminate; vm_compute; reflexivity.
Defined.

Lemma loader_diff_has_no_blocks_witness :
  contains DiffParse.DIFF_GIT (DataLoader.diff_content Samples.loader_rows) = false
  /\ DiffParse._parse_diff_to_map (DataLoader.diff_content Samples.loader_rows) = []
  /\ forall f,
       _find_diff_for_file f
         (DiffParse._parse_diff_to_map (DataLoader.diff_content Samples.loader_rows)) = []
       /\ _detect_change_type
            (_find_diff_for_file f
               (DiffParse._parse_diff_to_map (DataLoader.diff_content Samples.loader_rows)))
          = py "modified".
Proof.
  apply (@loader_diff_has_no_blocks Samples.loader_rows).
  vm_compute. reflexivity.
Defined.

Lemma headless_document_is_one_section_witness :
  Markdown._parse_markdown_sections Samples.headless
  = {| Markdown.sections := [(py "__full__", Samples.headless)];
       Markdown.order := [py "__full__"];
       Markdown.headings := [(py "__full__", py "Document")] |}
  /\ Markdown._merge_sections (Markdown._parse_markdown_sections Samples.headless) []
     = strip (py "## Document\n" ++ strip Samples.headless ++ py "\n").
Proof.
  apply (@headless_document_is_one_section Samples.headless).
  vm_compute. reflexivity.
Defined.

Lemma merge_keeps_sections_witness :
  exists ks,
    NoDup ks
    /\ Markdown.order (Markdown._parse_markdown_sections Samples.two_sections) = ks
    /\ List.length ks
       = List.length (Regex.finditer_spans Markdown.match_heading Samples.two_sections)
    /\ Markdown._merge_sections (Markdown._parse_markdown_sections Samples.two_sections)
         Samples.overview_update
       = strip (join (py "\n")
                  (map (Rendering.rendered Samples.overview_update)
                       (combine ks (Regex.finditer_spans Markdown.match_heading
                                      Samples.two_sections)))).
Proof.
  apply (@merge_keeps_sections Samples.two_sections Samples.overview_update).
  vm_compute. discriminate.
Defined.

Lemma merge_ignores_unknown_key_witness :
  Markdown._merge_sections (Markdown._parse_markdown_sections Samples.two_sections)
    (dict_set (py "modules") (py "text") Samples.overview_update)
  = Markdown._merge_sections (Markdown._parse_markdown_sections Samples.two_sections)
      Samples.overview_update.
Proof.
  apply (@merge_ignores_unknown_key (Markdown._parse_markdown_sections Samples.two_sections)
           Samples.overview_update (py "modules") (py "text")).
  intros H. vm_compute in H. intuition discriminate.
Defined.

Lemma changelog_is_old_body_plus_entries_witness :
  changelog_after (py "- a") [py "- b"; py "- c"]
  = py "- a" ++ List.concat (map (fun e => py "\n" ++ e) [py "- b"; py "- c"]).
Proof.
  apply (@changelog_is_old_body_plus_entries (py "- a") [py "- b"; py "- c"]).
  - discriminate.
  - reflexivity.
  - repeat constructor; try discriminate; reflexivity.
Defined.

Lemma merged_body_is_trimmed_witness :
  strip (_merge_section_changes (py "Intro.\n") (py "[ADD]\nmore  "))
  = _merge_section_changes (py "Intro.\n") (py "[ADD]\nmore  ").
Proof.
  apply (@merged_body_is_trimmed (py "Intro.\n") (py "[ADD]\nmore  ")).
  - discriminate.
  - reflexivity.
Defined.

Lemma add_block_appends_witness :
  _merge_section_changes (py "Intro.\n") (PatchText.add_block (py "New paragraph."))
  = strip (py "Intro.\n") ++ py "\n\n" ++ py "New paragraph.".
Proof.
  apply (@add_block_appends (py "Intro.\n") (py "New paragraph.")).
  - vm_compute. discriminate.
  - split; [discriminate | split; reflexivity].
Defined.

Lemma unmatched_update_is_appended_witness :
  _merge_section_changes (py "Intro.\n")
    (PatchText.update_block (py "missing words") (py "Replacement."))
  = strip (py "Intro.\n") ++ py "\n\n" ++ py "Replacement.".
Proof.
  apply (@unmatched_update_is_appended (py "Intro.\n") (py "missing words")
           (py "Replacement.")).
  - vm_compute. discriminate.
  - split; [discriminate | split; reflexivity].
  - split; [discriminate | split; reflexivity].
  - reflexivity.
Defined.

Lemma update_replaces_first_matching_line_witness :
  _merge_section_changes
    (join (py "\n") ([py "first line"] ++ py "the old sentence here" :: [py "last"]))
    (PatchText.update_block (py "old sentence") (py "the new sentence"))
  = strip (join (py "\n") ([py "first line"] ++ py "the new sentence" :: [py "last"])).
Proof.
  apply (@update_replaces_first_matching_line [py "first line"] [py "last"]
           (py "the old sentence here") (py "old sentence") (py "the new sentence")).
  - repeat constructor.
  - vm_compute. discriminate.
  - split; [discriminate | split; reflexivity].
  - split; [discriminate | split; reflexivity].
  - intros l [<-|[]]. split; reflexivity.
  - reflexivity.
Defined.

Lemma file_summaries_complete_witness :
  Permutation
    (FileSummarizer.file_summaries (fun path : str => path) 30 false 4
       Fixtures.second_first Fixtures.two_parsed_files)
    (map (fun path : str => path)
         (FileSummarizer.limit_files 30 Fixtures.two_parsed_files))
  /\ (false = true \/ (4 <= 1)%Z
      \/ List.length (FileSummarizer.limit_files 30 Fixtures.two_parsed_files) <= 1 ->
      FileSummarizer.file_summaries (fun path : str => path) 30 false 4
        Fixtures.second_first Fixtures.two_parsed_files
      = map (fun path : str => path)
            (FileSummarizer.limit_files 30 Fixtures.two_parsed_files)).
Proof.
  apply (@file_summaries_complete str str (fun path : str => path) 30 false 4
           Fixtures.second_first Fixtures.two_parsed_files).
  apply perm_swap.
Defined.

Lemma extract_json_fences_witness :
  JsonText._extract_json
    (py "Here:\n" ++ JsonText.FENCE_JSON ++ py "\n{1: 2}\n" ++ JsonText.FENCE ++ py "\nbye")
  = strip (py "\n{1: 2}\n")
  /\ JsonText._extract_json (py "Here:\n" ++ JsonText.FENCE_JSON ++ py "\n{1: 2}\n")
     = strip (removelast (py "\n{1: 2}\n"))
  /\ JsonText._extract_json (py "\n{1: 2}\n") = py "\n{1: 2}\n".
Proof.
  apply (@extract_json_fences (py "Here:\n") (py "\n{1: 2}\n") (py "\nbye"));
    reflexivity.
Defined.

Lemma change_summaries_cover_files_witness :
  map ChangeSummaries.file
      (ChangeSummaries._generate_file_summaries Samples.echo_summary Samples.note
         Samples.note Samples.one_block Fixtures.second_first Samples.three_changed)
  = Samples.three_changed
  /\ List.length
       (ChangeSummaries._generate_file_summaries Samples.echo_summary Samples.note
          Samples.note Samples.one_block Fixtures.second_first Samples.three_changed)
     = List.length Samples.three_changed
  /\ Forall (ChangeSummaries.labelled Samples.one_block)
            (ChangeSummaries._generate_file_summaries Samples.echo_summary Samples.note
               Samples.note Samples.one_block Fixtures.second_first
               Samples.three_changed).
Proof.
  apply (@change_summaries_cover_files Samples.echo_summary Samples.note Samples.note
           Samples.one_block Fixtures.second_first Samples.three_changed).
  apply perm_swap.
Defined.

Lemma download_requests_in_order_witness :
  (exists rest,
      [py "develop"; py "main"; py "master"]
      = snd (Download.try_branches Samples.broken_then_sound
               [py "develop"; py "main"; py "master"]) ++ rest)
  /\ forall p,
       fst (Download.try_branches Samples.broken_then_sound
              [py "develop"; py "main"; py "master"]) = Some p ->
       exists before b resp,
         snd (Download.try_branches Samples.broken_then_sound
                [py "develop"; py "main"; py "master"]) = before ++ [b]
         /\ Samples.broken_then_sound b = Some resp
         /\ Download.status_code resp = 200%Z
         /\ Download.unpack_raises resp = false
         /\ exists b' resp',
              In b' (before ++ [b]) /\ Samples.broken_then_sound b' = Some resp'
              /\ Download.status_code resp' = 200%Z
              /\ In p (Download.unpacked resp').
Proof.
  apply (@download_requests_in_order Samples.broken_then_sound
           [py "develop"; py "main"; py "master"]).
  intros b resp on_disk H x Hx. unfold Samples.broken_then_sound in H.
  destruct (str_eqb b (py "develop")); injection H as <-; exact Hx.
Defined.
